(** * Rest_framework_GO: schema preparation/validation and the request orchestrator

    A shallow embedding of [schema/schema.go] (package [schema]) and of the
    request orchestrator (package [rest]: [handleRoute] and the
    [handle*Request*] methods), with the properties of the specification
    stated and settled on the embedding.

    Go maps ([map[string]interface{}]) are [gmap string _]; a value of type
    [interface{}] is a [value]; Go's multiple results are tuples; a nil
    pointer, error or function is [None]; a [panic] is the [Panic] outcome
    of a small error monad.  A [for ... range] over a map is a
    [map_fold]: Go leaves the order of the iteration open, and each
    iteration of the loops at hand touches the entry of its own key only.

    The file first gives the definitions (the schema package, the
    orchestrator, the schema package again with maps as references, and
    the concrete inputs of the examples), then the properties. *)

From Stdlib Require Import ZArith.
From stdpp Require Import base option list gmap strings pretty fin_maps.

Set Warnings "-register-all".
Local Open Scope string_scope.
Local Open Scope list_scope.
Local Open Scope Z_scope.

(** ** Dynamic values

    What an [interface{}] slot of a document can hold.  [VMap] is a
    [map[string]interface{}] (a sub-document); [VMapPtr] is a
    [*map[string]interface{}] (the only pointer type the code inspects, the
    pointer may be nil); [VTombstone] is the package variable [Tombstone],
    the single value of the unexported type [internal]. *)
Inductive value :=
| VNil
| VTombstone
| VBool (b : bool)
| VInt (z : Z)
| VString (s : string)
| VList (l : list value)
| VMap (m : gmap string value)
| VMapPtr (p : option (gmap string value)).

(** [reflect.DeepEqual] on these values is structural equality: [gmap] is
    extensional, so two maps with the same entries are equal. *)
Global Instance value_eq_dec : EqDecision value.
Proof.
  refine (fix go (x y : value) {struct x} : Decision (x = y) :=
    let _ : EqDecision value := @go in
    match x, y with
    | VNil, VNil => left _
    | VTombstone, VTombstone => left _
    | VBool a, VBool b => cast_if (decide (a = b))
    | VInt a, VInt b => cast_if (decide (a = b))
    | VString a, VString b => cast_if (decide (a = b))
    | VList a, VList b => cast_if (decide (a = b))
    | VMap a, VMap b => cast_if (decide (a = b))
    | VMapPtr a, VMapPtr b => cast_if (decide (a = b))
    | _, _ => right _
    end); abstract congruence.
Defined.

Definition DeepEqual (a b : value) : bool := bool_decide (a = b).

(** var Tombstone = internal{} *)
Definition Tombstone : value := VTombstone.

(** A document, a payload, a change-set, a base-set. *)
Abbreviation Doc := (gmap string value).

(** [v, found := m[k]]: the zero value [nil] when the key is absent. *)
Definition index (m : Doc) (k : string) : value * bool :=
  match m !! k with
  | Some v => (v, true)
  | None => (VNil, false)
  end.

(** [len(m)] as a Go [int]. *)
Definition len {A} (m : gmap string A) : Z := Z.of_nat (size m).

(** ** Errors: [map[string][]interface{}]

    An item of an error list is a message or, for a nested schema, the
    error map of the sub-document. *)
Inductive err_item :=
| EStr (msg : string)
| ESub (sub : gmap string (list err_item)).

Abbreviation Errs := (gmap string (list err_item)).

Global Instance err_item_eq_dec : EqDecision err_item.
Proof.
  refine (fix go (x y : err_item) {struct x} : Decision (x = y) :=
    let _ : EqDecision err_item := @go in
    match x, y with
    | EStr a, EStr b => cast_if (decide (a = b))
    | ESub a, ESub b => cast_if (decide (a = b))
    | _, _ => right _
    end); abstract congruence.
Defined.

(** func addFieldError: errs[field] = append(errs[field], err) *)
Definition addFieldError (errs : Errs) (field : string) (err : err_item) : Errs :=
  <[field := default [] (errs !! field) ++ [err]]> errs.

(** func mergeFieldErrors: errs[field] = append(errs[field], values...) for
    every entry of mergeErrs. *)
Definition mergeFieldErrors (errs mergeErrs : Errs) : Errs :=
  map_fold (fun field values (errs : Errs) =>
              <[field := default [] (errs !! field) ++ values]> errs)
           errs mergeErrs.

(** ** Panics *)
Inductive outcome (A : Type) :=
| Ok (a : A)
| Panic (msg : string).
Arguments Ok {A} a.
Arguments Panic {A} msg.

Global Instance outcome_ret : MRet outcome := fun A a => Ok a.
Global Instance outcome_bind : MBind outcome := fun A B f m =>
  match m with
  | Ok a => f a
  | Panic msg => Panic msg
  end.

(** ** Schema and fields *)

(** context.Context is carried to the hooks and never inspected. *)
Inductive Context : Set := Background.

(** The result of [FieldValidator.Validate(value) (interface{}, error)]. *)
Inductive validated :=
| Valid (v : value)
| Invalid (msg : string).

(** The members of [Field] that [schema.go] reads.  A nil [Default] is
    [VNil]; a nil [Validator], hook or [Schema] is [None]. *)
Record Field_ (S : Type) := mkField {
  Required : bool;
  ReadOnly : bool;
  Hidden : bool;
  Default : value;
  OnInit : option (Context -> value -> value);
  OnUpdate : option (Context -> value -> value);
  Validator : option (value -> validated);
  FSchema : option S
}.
Arguments mkField {S}.
Arguments Required {S}.
Arguments ReadOnly {S}.
Arguments Hidden {S}.
Arguments Default {S}.
Arguments OnInit {S}.
Arguments OnUpdate {S}.
Arguments Validator {S}.
Arguments FSchema {S}.

Inductive Schema := mkSchema {
  Description : string;
  Fields : gmap string (Field_ Schema);
  MinLen : Z;
  MaxLen : Z
}.

Abbreviation Field := (Field_ Schema).

(** ** Prepare *)

(** The message of [log.Panic]. *)
Definition replacePanic : string := "Cannot use replace=true without original".

(** Lines 107-154 of the loop body: the change and the base of one field. *)
Definition prepareField (def : Field) (payload : Doc) (original : option Doc)
    (replace : bool) (field : string) (changes base : Doc) : outcome (Doc * Doc) :=
  let '(value, found) := index payload field in
  match original with
  | None =>
      if replace then Panic replacePanic
      else if negb found || bool_decide (value = VNil) then
        if bool_decide (Default def <> VNil)
        then Ok (changes, <[field := Default def]> base)
        else Ok (changes, base)
      else Ok (<[field := value]> changes, base)
  | Some orig =>
      let '(oValue, oFound) := index orig field in
      let changes :=
        if found then
          match Validator def with
          | Some validate =>
              match validate value with
              | Invalid _ => <[field := value]> changes
              | Valid validated =>
                  if negb oFound || negb (DeepEqual validated oValue)
                  then <[field := validated]> changes
                  else changes
              end
          | None =>
              if negb oFound || negb (DeepEqual value oValue)
              then <[field := value]> changes
              else changes
          end
        else if oFound && replace then
          if Hidden def && negb (ReadOnly def) then <[field := oValue]> changes
          else if Required def && bool_decide (Default def <> VNil)
               then <[field := Default def]> changes
          else <[field := Tombstone]> changes
        else changes in
      let base := if oFound then <[field := oValue]> base else base in
      Ok (changes, base)
  end.

(** Lines 155-187: the sub-schema of one field; [prepare] is the recursive
    call [def.Schema.Prepare]. *)
Definition prepareSub (prepare : Schema -> Doc -> option Doc -> outcome (Doc * Doc))
    (def : Field) (payload : Doc) (original : option Doc)
    (field : string) (changes base : Doc) : outcome (Doc * Doc) :=
  let '(value, found) := index payload field in
  match FSchema def with
  | None => Ok (changes, base)
  | Some sub =>
      let subOriginal : option Doc :=
        match original with
        | None => None
        | Some orig =>
            match fst (index orig field) with
            | VMapPtr su => su
            | _ => Some ∅
            end
        end in
      if found then
        match value with
        | VMap subPayload =>
            '(c, b) ← prepare sub subPayload subOriginal;
            Ok (<[field := VMap c]> changes, <[field := VMap b]> base)
        | _ => Ok (changes, base)
        end
      else
        '(c, b) ← prepare sub ∅ subOriginal;
        if (0 <? len c) || (0 <? len b)
        then Ok (<[field := VMap c]> changes, <[field := VMap b]> base)
        else Ok (changes, base)
  end.

(** Lines 188-211: the OnInit or OnUpdate hook of one field. *)
Definition prepareHook (ctx : Context) (def : Field) (original : option Doc)
    (field : string) (changes base : Doc) : Doc * Doc :=
  let hook := match original with
              | None => OnInit def
              | Some _ => OnUpdate def
              end in
  match hook with
  | None => (changes, base)
  | Some hook =>
      match index changes field with
      | (value, true) =>
          if bool_decide (value = Tombstone)
          then (delete field changes, <[field := hook ctx (fst (index base field))]> base)
          else (<[field := hook ctx value]> changes, base)
      | (_, false) =>
          (changes, <[field := hook ctx (fst (index base field))]> base)
      end
  end.

(** Lines 215-219: the fields of the payload that the schema does not
    declare go to the change-set. *)
Definition prepareUndeclared (fields : gmap string Field) (payload changes : Doc) : Doc :=
  map_fold (fun field value (changes : Doc) =>
              match fields !! field with
              | None => <[field := value]> changes
              | Some _ => changes
              end)
           changes payload.

(** One iteration of the loop over [s.Fields] (lines 105-212). *)
Definition prepareStep (prepare : Schema -> Doc -> option Doc -> outcome (Doc * Doc))
    (ctx : Context) (payload : Doc) (original : option Doc) (replace : bool)
    (field : string) (def : Field) (acc : outcome (Doc * Doc)) : outcome (Doc * Doc) :=
  '(changes, base) ← acc;
  '(changes, base) ← prepareField def payload original replace field changes base;
  '(changes, base) ← prepareSub prepare def payload original field changes base;
  Ok (prepareHook ctx def original field changes base).

(** func (s Schema) Prepare(ctx, payload, original, replace) (changes, base) *)
Fixpoint Prepare (s : Schema) (ctx : Context) (payload : Doc)
    (original : option Doc) (replace : bool) {struct s} : outcome (Doc * Doc) :=
  '(changes, base) ←
    map_fold (prepareStep (fun sub p o => Prepare sub ctx p o replace)
                          ctx payload original replace)
             (Ok (∅, ∅)) (Fields s);
  Ok (prepareUndeclared (Fields s) payload changes, base).

(** *** Vocabulary for the statements about Prepare *)

(** Setting or clearing one entry. *)
Definition put (k : string) (o : option value) (m : Doc) : Doc :=
  partial_alter (fun _ => o) k m.

(** A step of the loop of Prepare reads and writes the entry of its own
    field only. *)
Definition local_at (k : string) (f : Doc -> Doc -> outcome (Doc * Doc)) : Prop :=
  forall c b,
    f c b = ('(c0, b0) ← f (put k (c !! k) ∅) (put k (b !! k) ∅);
             Ok (put k (c0 !! k) c, put k (b0 !! k) b)).

(** What one iteration leaves in the entry of its field, starting from
    empty maps. *)
Definition prepareCell (prepare : Schema -> Doc -> option Doc -> outcome (Doc * Doc))
    (ctx : Context) (payload : Doc) (original : option Doc) (replace : bool)
    (field : string) (def : Field) : outcome (option value * option value) :=
  '(c, b) ← prepareStep prepare ctx payload original replace field def (Ok (∅, ∅));
  Ok (c !! field, b !! field).

(** The validator of the field, if any, accepts the value and leaves it
    as it is. *)
Definition accepts (def : Field) (v : value) : Prop :=
  match Validator def with
  | Some validate => validate v = Valid v
  | None => True
  end.

(** The validator of the field, if any, accepts [v] and turns it into [v']. *)
Definition validates (def : Field) (v v' : value) : Prop :=
  match Validator def with
  | Some validate => validate v = Valid v'
  | None => v' = v
  end.

(** The value the validator of a field leaves in the document. *)
Definition normalise (def : Field) (v : value) : value :=
  match Validator def with
  | Some validate =>
      match validate v with
      | Valid v' => v'
      | Invalid _ => v
      end
  | None => v
  end.

(** A value through an optional hook. *)
Definition hooked (hook : option (Context -> value -> value)) (ctx : Context)
    (v : value) : value :=
  match hook with
  | Some h => h ctx v
  | None => v
  end.

(** The depth of the nesting of a schema. *)
Fixpoint depth (s : Schema) : nat :=
  S (map_fold (fun _ (def : Field) (acc : nat) =>
                 match FSchema def with
                 | Some sub => Nat.max (depth sub) acc
                 | None => acc
                 end)
              0%nat (Fields s)).

(** ** Validate *)

Section Validate.

(** [Schema.validateDependencies(changes, doc, prefix)] lives in the
    dependency file of the package, which is not part of the sources at
    hand; it only reads its arguments and returns an error map. *)
Variable validateDependencies : Schema -> Doc -> Doc -> string -> Errs.

(** Lines 234-251: the read-only and required checks of one field. *)
Definition checkField (def : Field) (changes base : Doc) (field : string)
    (errs : Errs) : Errs :=
  let errs :=
    if ReadOnly def then
      if snd (index changes field) then addFieldError errs field (EStr "read-only")
      else errs
    else errs in
  if Required def then
    let '(value, found) := index changes field in
    if negb found || bool_decide (value = VNil) || bool_decide (value = Tombstone) then
      if found then addFieldError errs field (EStr "required")
      else
        let '(value, found) := index base field in
        if negb found || bool_decide (value = VNil)
        then addFieldError errs field (EStr "required")
        else errs
    else errs
  else errs.

(** Lines 252-263: a sub-schema absent from the changes and from the base is
    validated on two empty maps, for its required fields. *)
Definition checkSub (subValidate : Schema -> Doc -> Doc -> bool -> option Doc * Errs)
    (def : Field) (changes base : Doc) (field : string) (errs : Errs) : Errs :=
  match FSchema def with
  | Some sub =>
      if negb (snd (index changes field)) && negb (snd (index base field)) then
        let subErrs := snd (subValidate sub ∅ ∅ false) in
        if 0 <? len subErrs then addFieldError errs field (ESub subErrs)
        else errs
      else errs
  | None => errs
  end.

(** The first loop (lines 233-264), over the declared fields. *)
Definition checkFields (subValidate : Schema -> Doc -> Doc -> bool -> option Doc * Errs)
    (fields : gmap string Field) (changes base : Doc) : Errs :=
  map_fold (fun field (def : Field) (errs : Errs) =>
              checkSub subValidate def changes base field
                       (checkField def changes base field errs))
           ∅ fields.

(** Lines 266-276: the base overlaid with the changes, tombstones removed. *)
Definition mergeDoc (changes base : Doc) : Doc :=
  let doc := map_fold (fun field value (doc : Doc) => <[field := value]> doc) ∅ base in
  map_fold (fun field value (doc : Doc) =>
              if bool_decide (value = Tombstone) then delete field doc
              else <[field := value]> doc)
           doc changes.

(** [fmt.Sprintf("... %d", n)] *)
Definition fewer (n : Z) : string := "has fewer properties than " +:+ pretty n.
Definition more (n : Z) : string := "has more properties than " +:+ pretty n.

(** Lines 286-326: the check of one field of the merged document.
    [def] is [s.Fields[field]] and [subValidate] the recursive call
    [def.Schema.validate] when the field has a sub-schema.  A nil [subDoc]
    always comes with a size error ([validate_nil_errs] below), so the
    branch that would store a nil map is never taken. *)
Definition validateValue
    (def : option (Field * option (Doc -> Doc -> bool -> option Doc * Errs)))
    (changes base : Doc) (field : string) (value : value)
    (doc : Doc) (errs : Errs) : Doc * Errs :=
  match def with
  | None => (doc, addFieldError errs field (EStr "invalid field"))
  | Some (def, Some subValidate) =>
      let '(subChanges, errs) :=
        match index changes field with
        | (VMap m, true) => (m, errs)
        | (_, true) => (∅, addFieldError errs field (EStr "not a dict"))
        | (_, false) => (∅, errs)
        end in
      let '(subBase, errs) :=
        match index base field with
        | (VMap m, true) => (m, errs)
        | (_, true) => (∅, addFieldError errs field (EStr "not a dict"))
        | (_, false) => (∅, errs)
        end in
      let '(subDoc, subErrs) := subValidate subChanges subBase false in
      if 0 <? len subErrs
      then (doc, addFieldError errs field (ESub subErrs))
      else (<[field := match subDoc with
                       | Some d => VMap d
                       | None => VMap ∅
                       end]> doc, errs)
  | Some (def, None) =>
      match Validator def with
      | Some validator =>
          match validator value with
          | Invalid msg => (doc, addFieldError errs field (EStr msg))
          | Valid value => (<[field := value]> doc, errs)
          end
      | None => (doc, errs)
      end
  end.

(** The third loop (lines 283-327), over the entries of the merged
    document; [subs] is [s.Fields] with, next to each field, the recursive
    call on its sub-schema. *)
Definition validateDoc
    (subs : gmap string (Field * option (Doc -> Doc -> bool -> option Doc * Errs)))
    (changes base : Doc) (doc : Doc) (errs : Errs) : Doc * Errs :=
  map_fold (fun field value (acc : Doc * Errs) =>
              validateValue (subs !! field) changes base field value acc.1 acc.2)
           (doc, errs) doc.

(** Lines 328-337: the bounds on the number of fields. *)
Definition checkSize (s : Schema) (doc : Doc) (errs : Errs) : option Doc * Errs :=
  let l := len doc in
  if l <? MinLen s then (None, addFieldError errs "" (EStr (fewer (MinLen s))))
  else if (0 <? MaxLen s) && (MaxLen s <? l)
  then (None, addFieldError errs "" (EStr (more (MaxLen s))))
  else (Some doc, errs).

(** func (s Schema) validate(changes, base, isRoot) (doc, errs); a nil
    [doc] is [None].  The third loop looks the field of each entry of the
    document up in [s.Fields]; the lookup goes through [subs], which keeps
    the recursion structural. *)
Fixpoint validate (s : Schema) (changes base : Doc) (isRoot : bool) {struct s}
    : option Doc * Errs :=
  let errs := checkFields validate (Fields s) changes base in
  let doc := mergeDoc changes base in
  let errs :=
    if isRoot then mergeFieldErrors errs (validateDependencies s changes doc "")
    else errs in
  let subs := (fun def : Field => (def, validate <$> FSchema def)) <$> Fields s in
  let '(doc, errs) := validateDoc subs changes base doc errs in
  checkSize s doc errs.

(** func (s Schema) Validate(changes, base) (doc, errs) *)
Definition Validate (s : Schema) (changes base : Doc) : option Doc * Errs :=
  validate s changes base true.

(** *** Vocabulary for the statements about Validate *)

(** [s.Fields] with the recursive calls, as the third loop sees it. *)
Definition subsOf (s : Schema) :=
  (fun def : Field => (def, validate <$> FSchema def)) <$> Fields s.

(** The root-keyed error of a size violation, last in its list. *)
Definition sizeError (s : Schema) (errs : Errs) : Prop :=
  exists l msg, errs !! "" = Some (l ++ [EStr msg]) /\
                (msg = fewer (MinLen s) \/ msg = more (MaxLen s)).

End Validate.

(** Every list of [e] is a prefix of the list of [e'] under the same key. *)
Definition extends (e e' : Errs) : Prop :=
  forall k l, e !! k = Some l -> exists l', e' !! k = Some (l ++ l').

(** The value the third loop stores for an entry, [None] when it leaves the
    entry as it is. *)
Definition validatedCell
    (d : option (Field * option (Doc -> Doc -> bool -> option Doc * Errs)))
    (changes base : Doc) (field : string) (v : value) : option value :=
  (validateValue d changes base field v ∅ ∅).1 !! field.

(** ** The request orchestrator (package rest) *)

(** The resource permission flags named in [handleRoute]. *)
Inductive Mode := Read | List | Create | Replace | Update | Delete | Clear.

Global Instance Mode_eq_dec : EqDecision Mode.
Proof. solve_decision. Defined.

(** The configuration of a resource: the allowed modes and the member
    [PaginationDefaultLimit]. *)
Record Conf := mkConf {
  AllowedModes : list Mode;
  PaginationDefaultLimit : Z
}.

(** Modelled from the spec: [Conf.isModeAllowed], declared outside the
    sources at hand; the flags are "a set of independently togglable
    capabilities", and a mode is allowed when it is one of them. *)
Definition isModeAllowed (c : Conf) (mode : Mode) : bool :=
  bool_decide (mode ∈ AllowedModes c).

(** [*Error]: the two package-level errors the orchestrator names (compared
    by identity in the code) and the errors built in place,
    [&Error{Code, Message, Issues}]. *)
Inductive Error :=
| NotFoundError
| InvalidMethodError
| mkError (Code : Z) (Message : string) (Issues : option Errs).

Global Instance Error_eq_dec : EqDecision Error.
Proof. solve_decision. Defined.

(** The members of [Item] the handlers read: identity, entity tag,
    modification time (an instant, as a number) and the document. *)
Record Item := mkItem {
  ID : value;
  Etag : string;
  Updated : Z;
  Payload : Doc
}.

(** [*ItemList], of which the handlers read [Items]. *)
Record ItemList := mkItemList {
  Items : list Item
}.

(** [req.URL.Query().Get] and [req.Header.Get]: the empty string when the
    key is absent. *)
Definition Get (m : gmap string string) (key : string) : string :=
  default "" (m !! key).

(** The members of [http.Request] the handlers read. *)
Record Request := mkRequest {
  Method : string;
  Path : string;
  Query : gmap string string;
  Header : gmap string string
}.

(** The members of [requestHandler] the handlers read; the response
    [r.res] is written through the events below. *)
Record requestHandler := mkRequestHandler {
  req : Request;
  skipBody : bool
}.

(** [strconv.ParseUint(s, 10, 32)]: a non-empty string of decimal digits
    whose value fits 32 bits; [None] is a non-nil error.  The result is
    converted with [int(i)]; [int] is taken to be 64 bits wide, so the
    conversion keeps the value. *)
Definition digit (c : Ascii.ascii) : option Z :=
  let n := Z.of_N (Ascii.N_of_ascii c) in
  if (48 <=? n) && (n <=? 57) then Some (n - 48) else None.

Fixpoint digits (acc : Z) (s : string) : option Z :=
  match s with
  | EmptyString => Some acc
  | String c s => d ← digit c; digits (10 * acc + d) s
  end.

Definition ParseUint32 (s : string) : option Z :=
  match s with
  | EmptyString => None
  | _ => n ← digits 0 s; if n <? 2 ^ 32 then Some n else None
  end.

(** [a != b] on two [interface{}] values; comparing two maps or two slices
    is a run-time panic. *)
Definition ifaceNe (a b : value) : outcome bool :=
  match a, b with
  | VMap _, VMap _ => Panic "runtime error: comparing uncomparable type map[string]interface {}"
  | VList _, VList _ => Panic "runtime error: comparing uncomparable type []interface {}"
  | _, _ => Ok (bool_decide (a <> b))
  end.

Section Orchestrator.

(** The lookup filter and the state of the storage backend are opaque to
    the orchestrator. *)
Context {Lookup Store : Type}.

(** The storage backend ([route.resource.handler]); each operation may
    change the store.  A [*Lookup], [*Item], [*ItemList] or [*Error] that is
    nil is [None].  [Update_], [Delete_] and [Clear_] are the methods Update,
    Delete and Clear (the plain names are the permission flags). *)
Record ResourceHandler := mkResourceHandler {
  Find : option Lookup -> Z -> Z -> Context -> Store ->
         (option ItemList * option Error) * Store;
  Insert : list (option Item) -> Context -> Store -> option Error * Store;
  Update_ : option Item -> option Item -> Context -> Store -> option Error * Store;
  Delete_ : option Item -> Context -> Store -> option Error * Store;
  Clear_ : option Lookup -> Context -> Store -> (Z * option Error) * Store
}.

Record Resource := mkResource {
  schema : Schema;
  conf : Conf;
  handler : ResourceHandler
}.

(** A resolved route: the fields bound by the URL, the resource, and the
    result of the method [route.lookup()]. *)
Record route := mkRoute {
  fields : Doc;
  resource : Resource;
  lookup : option Lookup * option Error
}.

(** Modelled from the spec: [route.applyFields(base)], declared outside the
    sources at hand: "route-derived lookup fields are merged into the
    base". *)
Definition applyFields (rt : route) (base : Doc) : Doc :=
  map_fold (fun field value (base : Doc) => <[field := value]> base) base (fields rt).

(** What a request does to the outside: the response written and the calls
    made to the storage backend, in order. *)
Inductive event :=
| SetHeader (key val : string)
| SendError (err : option Error)
| SendItem (status : Z) (item : option Item)
| SendList (list : option ItemList)
| Send (status : Z) (body : option Doc)
| CallFind (lookup : option Lookup) (page perPage : Z)
| CallInsert (items : list (option Item))
| CallUpdate (item original : option Item)
| CallDelete (original : option Item)
| CallClear (lookup : option Lookup).

(** Collaborators declared outside the sources at hand. *)
Variable validateDependencies : Schema -> Doc -> Doc -> string -> Errs.
(** [time.Parse(time.RFC1123, s)] *)
Variable parseRFC1123 : string -> option Z.
(** [fmt]'s rendering of an identity under [%s] *)
Variable formatID : value -> string.
(** [NewItem(doc)], which returns a pointer to the item and an error *)
Variable NewItem : option Doc -> option Item * option Error.
(** [r.decodePayload(&payload) *Error] *)
Variable decodePayload : requestHandler -> Doc * option Error.
(** [r.checkIntegrityRequest(original) *Error]: the If-Match and
    If-Unmodified-Since preconditions. *)
Variable checkIntegrityRequest : requestHandler -> option Item -> option Error.
(** [r.checkReferences(ctx, doc, schema) *Error]; it only reads the store. *)
Variable checkReferences : requestHandler -> Context -> option Doc -> Schema -> Store -> option Error.

(** The state threaded through a request: the store and the events so far
    (latest last). *)
Definition M (A : Type) : Type := Store * list event -> outcome A * (Store * list event).

Global Instance M_ret : MRet M := fun A a st => (Ok a, st).
Global Instance M_bind : MBind M := fun A B f m st =>
  match m st with
  | (Ok a, st) => f a st
  | (Panic msg, st) => (Panic msg, st)
  end.
Definition ret {A} (a : A) : M A := mret a.
Definition emit (e : event) : M unit := fun '(store, log) => (Ok tt, (store, log ++ [e])).
Definition lift {A} (o : outcome A) : M A := fun st => (o, st).
Definition readStore : M Store := fun '(store, log) => (Ok store, (store, log)).
(** A call to the backend: logged, then run on the store. *)
Definition call {A} (e : event) (op : Store -> A * Store) : M A := fun '(store, log) =>
  let '(a, store) := op store in (Ok a, (store, log ++ [e])).

Definition sendError (err : option Error) : M unit := emit (SendError err).
Definition sendItem (status : Z) (item : option Item) : M unit := emit (SendItem status item).
Definition sendList (list : option ItemList) : M unit := emit (SendList list).
Definition send (status : Z) (body : option Doc) : M unit := emit (Send status body).
Definition setHeader (key val : string) : M unit := emit (SetHeader key val).

(** [l.Items] on a [*ItemList] *)
Definition items (l : option ItemList) : M (list Item) :=
  match l with
  | Some l => ret (Items l)
  | None => lift (Panic "runtime error: invalid memory address or nil pointer dereference")
  end.

(** The message of the error sent for a page without a limit (line 128). *)
Definition pageWithoutLimit : string :=
  "Cannot use `page' parameter with no `limit' paramter on a resource with no default pagination size".

(** func (r *requestHandler) handleListRequestGET *)
Definition handleListRequestGET (r : requestHandler) (ctx : Context) (rt : route) : M unit :=
  let find (page perPage : Z) : M unit :=
    let '(lookup, err) := lookup rt in
    match err with
    | Some _ => sendError err
    | None =>
        '(list, err) ← call (CallFind lookup page perPage)
                             (Find (handler (resource rt)) lookup page perPage ctx);
        match err with
        | Some _ => sendError err
        | None => sendList list
        end
    end in
  let page := 1 in
  let perPage := 0 in
  if negb (skipBody r) then
    let perPage :=
      if 0 <? PaginationDefaultLimit (conf (resource rt))
      then PaginationDefaultLimit (conf (resource rt))
      else -1 in
    let p := Get (Query (req r)) "page" in
    match (if bool_decide (p <> "") then ParseUint32 p else Some page) with
    | None => sendError (Some (mkError 422 "Invalid `page` paramter" None))
    | Some page =>
        let l := Get (Query (req r)) "limit" in
        match (if bool_decide (l <> "") then ParseUint32 l else Some perPage) with
        | None => sendError (Some (mkError 422 "Invalid `limit` paramter" None))
        | Some perPage =>
            (if (perPage =? -1) && negb (page =? 1)
             then sendError (Some (mkError 422 pageWithoutLimit None))
             else ret tt) ;;
            find page perPage
        end
    end
  else find page perPage.

(** The tail shared by POST, PUT and PATCH up to the construction of the
    item is written out in each handler, as in the source. *)

(** func (r *requestHandler) handleListRequestPOST *)
Definition handleListRequestPOST (r : requestHandler) (ctx : Context) (rt : route) : M unit :=
  let '(payload, err) := decodePayload r in
  match err with
  | Some _ => sendError err
  | None =>
      '(changes, base) ← lift (Prepare (schema (resource rt)) ctx payload None false);
      let base := applyFields rt base in
      let '(doc, errs) := Validate validateDependencies (schema (resource rt)) changes base in
      if 0 <? len errs
      then sendError (Some (mkError 422 "Document contains error(s)" (Some errs)))
      else
        store ← readStore;
        match checkReferences r ctx doc (schema (resource rt)) store with
        | Some err => sendError (Some err)
        | None =>
            let '(item, err) := NewItem doc in
            match err with
            | Some _ => sendError err
            | None =>
                err ← call (CallInsert [item]) (Insert (handler (resource rt)) [item] ctx);
                match err with
                | Some _ => sendError err
                | None =>
                    id ← match item with
                          | Some item => ret (ID item)
                          | None => lift (Panic "runtime error: invalid memory address or nil pointer dereference")
                          end;
                    setHeader "Content-Location" ("/" +:+ Path (req r) +:+ "/" +:+ formatID id) ;;
                    sendItem 201 item
                end
            end
        end
  end.

(** func (r *requestHandler) handleListRequestDELETE *)
Definition handleListRequestDELETE (r : requestHandler) (ctx : Context) (rt : route) : M unit :=
  let '(lookup, err) := lookup rt in
  (match err with
   | Some _ => sendError err
   | None => ret tt
   end) ;;
  '(total, err) ← call (CallClear lookup) (Clear_ (handler (resource rt)) lookup ctx);
  match err with
  | Some _ => sendError err
  | None =>
      setHeader "X-Total" (pretty total) ;;
      send 204 (Some ∅)
  end.

(** func (r *requestHandler) handleItemRequestGET *)
Definition handleItemRequestGET (r : requestHandler) (ctx : Context) (rt : route) : M unit :=
  let '(lookup, err) := lookup rt in
  (match err with
   | Some _ => sendError err
   | None => ret tt
   end) ;;
  '(l, err) ← call (CallFind lookup 1 1) (Find (handler (resource rt)) lookup 1 1 ctx);
  match err with
  | Some _ => sendError err
  | None =>
      its ← items l;
      match its with
      | [] => sendError (Some NotFoundError)
      | item :: _ =>
          if bool_decide (Get (Header (req r)) "If-None-Match" = Etag item)
          then send 304 None
          else if bool_decide (Get (Header (req r)) "If-Modified-Since" <> "") then
            match parseRFC1123 (Get (Header (req r)) "If-Modified-Since") with
            | None => sendError (Some (mkError 400 "Invalid If-Modified-Since header" None))
            | Some ifModTime =>
                if (Updated item =? ifModTime) || (Updated item <? ifModTime)
                then send 304 None
                else sendItem 200 (Some item)
            end
          else sendItem 200 (Some item)
      end
  end.

(** [item.ID] through a [*Item] *)
Definition deref (item : option Item) : M Item :=
  match item with
  | Some item => ret item
  | None => lift (Panic "runtime error: invalid memory address or nil pointer dereference")
  end.

(** func (r *requestHandler) handleItemRequestPUT.  The variable [err] set
    by [route.lookup()] is the one tested after [NewItem], as in the
    source. *)
Definition handleItemRequestPUT (r : requestHandler) (ctx : Context) (rt : route) : M unit :=
  let '(payload, derr) := decodePayload r in
  match derr with
  | Some _ => sendError derr
  | None =>
      let '(lookup, err) := lookup rt in
      (match err with
       | Some _ => sendError err
       | None => ret tt
       end) ;;
      '(l, ferr) ← call (CallFind lookup 1 1) (Find (handler (resource rt)) lookup 1 1 ctx);
      if bool_decide (ferr <> None) && bool_decide (ferr <> Some NotFoundError)
      then sendError ferr
      else
        its ← items l;
        let original : option Item :=
          match its with
          | [item] => Some item
          | _ => None
          end in
        let mode := match original with
                    | Some _ => Replace
                    | None => Create
                    end in
        if negb (isModeAllowed (conf (resource rt)) mode)
        then sendError (Some (mkError 405 "Invalid method" None))
        else
          match checkIntegrityRequest r original with
          | Some err => sendError (Some err)
          | None =>
              '(status, (changes, base)) ←
                match original with
                | None =>
                    cb ← lift (Prepare (schema (resource rt)) ctx payload None false);
                    ret (201, cb)
                | Some original =>
                    cb ← lift (Prepare (schema (resource rt)) ctx payload
                                       (Some (Payload original)) true);
                    ret (200, cb)
                end;
              let base := applyFields rt base in
              let '(doc, errs) := Validate validateDependencies (schema (resource rt)) changes base in
              if 0 <? len errs
              then sendError (Some (mkError 422 "Document contains error(s)" (Some errs)))
              else
                store ← readStore;
                match checkReferences r ctx doc (schema (resource rt)) store with
                | Some err => sendError (Some err)
                | None =>
                    changed ←
                      match original with
                      | Some original =>
                          match index (default ∅ doc) "id" with
                          | (id, true) => lift (ifaceNe id (ID original))
                          | (_, false) => ret false
                          end
                      | None => ret false
                      end;
                    if (changed : bool)
                    then sendError (Some (mkError 422 "Cannot change document ID" None))
                    else
                      let '(item, err2) := NewItem doc in
                      match err with
                      | Some _ => sendError err2
                      | None =>
                          match original with
                          | Some _ =>
                              uerr ← call (CallUpdate item original)
                                          (Update_ (handler (resource rt)) item original ctx);
                              match uerr with
                              | Some _ => sendError uerr
                              | None => sendItem status item
                              end
                          | None =>
                              ierr ← call (CallInsert [item])
                                          (Insert (handler (resource rt)) [item] ctx);
                              match ierr with
                              | Some _ => sendError ierr
                              | None => sendItem status item
                              end
                          end
                      end
                end
          end
  end.

(** func (r *requestHandler) handleItemRequestPATCH *)
Definition handleItemRequestPATCH (r : requestHandler) (ctx : Context) (rt : route) : M unit :=
  let '(payload, derr) := decodePayload r in
  match derr with
  | Some _ => sendError derr
  | None =>
      let '(lookup, err) := lookup rt in
      (match err with
       | Some _ => sendError err
       | None => ret tt
       end) ;;
      '(l, ferr) ← call (CallFind lookup 1 1) (Find (handler (resource rt)) lookup 1 1 ctx);
      match ferr with
      | Some _ => sendError ferr
      | None =>
          its ← items l;
          match its with
          | [] => sendError (Some NotFoundError)
          | original :: _ =>
              match checkIntegrityRequest r (Some original) with
              | Some err => sendError (Some err)
              | None =>
                  '(changes, base) ← lift (Prepare (schema (resource rt)) ctx payload
                                                   (Some (Payload original)) false);
                  let base := applyFields rt base in
                  let '(doc, errs) := Validate validateDependencies (schema (resource rt)) changes base in
                  if 0 <? len errs
                  then sendError (Some (mkError 422 "Document contains error(s)" (Some errs)))
                  else
                    store ← readStore;
                    match checkReferences r ctx doc (schema (resource rt)) store with
                    | Some err => sendError (Some err)
                    | None =>
                        let '(item, err2) := NewItem doc in
                        match err with
                        | Some _ => sendError err2
                        | None =>
                            uerr ← call (CallUpdate item (Some original))
                                        (Update_ (handler (resource rt)) item (Some original) ctx);
                            match uerr with
                            | Some _ => sendError uerr
                            | None => sendItem 200 item
                            end
                        end
                    end
              end
          end
      end
  end.

(** func (r *requestHandler) handleItemRequestDELETE *)
Definition handleItemRequestDELETE (r : requestHandler) (ctx : Context) (rt : route) : M unit :=
  let '(lookup, err) := lookup rt in
  (match err with
   | Some _ => sendError err
   | None => ret tt
   end) ;;
  '(l, ferr) ← call (CallFind lookup 1 1) (Find (handler (resource rt)) lookup 1 1 ctx);
  match ferr with
  | Some _ => sendError ferr
  | None =>
      its ← items l;
      match its with
      | [] => sendError (Some NotFoundError)
      | original :: _ =>
          match checkIntegrityRequest r (Some original) with
          | Some err => sendError (Some err)
          | None =>
              derr ← call (CallDelete (Some original))
                          (Delete_ (handler (resource rt)) (Some original) ctx);
              match derr with
              | Some _ => sendError derr
              | None => send 204 (Some ∅)
              end
          end
      end
  end.

(** [strings.Join(elems, sep)] *)
Fixpoint Join (elems : list string) (sep : string) : string :=
  match elems with
  | [] => ""
  | [e] => e
  | e :: rest => e +:+ sep +:+ Join rest sep
  end.

(** The [methods] slice of the OPTIONS branch on an item URL (lines 18-32). *)
Definition itemMethods (c : Conf) : list string :=
  let methods := [] in
  let methods := if isModeAllowed c Read then methods ++ ["HEAD"; "GET"] else methods in
  let methods := if isModeAllowed c Create || isModeAllowed c Replace
                 then methods ++ ["PUT"] else methods in
  let methods := if isModeAllowed c Update then methods ++ ["PATCH"] else methods in
  let methods := if isModeAllowed c Update then methods ++ ["DELETE"] else methods in
  methods.

(** The [methods] slice of the OPTIONS branch on a collection URL (lines 65-74). *)
Definition listMethods (c : Conf) : list string :=
  let methods := [] in
  let methods := if isModeAllowed c List then methods ++ ["HEAD"; "GET"] else methods in
  let methods := if isModeAllowed c Create then methods ++ ["POST"] else methods in
  let methods := if isModeAllowed c Clear then methods ++ ["DELETE"] else methods in
  methods.

(** func (r *requestHandler) handleRoute *)
Definition handleRoute (r : requestHandler) (ctx : Context) (rt : route) : M unit :=
  let c := conf (resource rt) in
  let method := Method (req r) in
  if snd (index (fields rt) "id") then
    (* Item request *)
    if bool_decide (method = "OPTIONS") then
      (if isModeAllowed c Update
       then setHeader "Allow-Patch" "application/json"
       else ret tt) ;;
      setHeader "Allow" (Join (itemMethods c) ", ")
    else if bool_decide (method = "HEAD") || bool_decide (method = "GET") then
      if negb (isModeAllowed c Read) then sendError (Some InvalidMethodError)
      else handleItemRequestGET r ctx rt
    else if bool_decide (method = "PUT") then
      if negb (isModeAllowed c Create) && negb (isModeAllowed c Replace)
      then sendError (Some InvalidMethodError)
      else handleItemRequestPUT r ctx rt
    else if bool_decide (method = "PATCH") then
      if negb (isModeAllowed c Update) then sendError (Some InvalidMethodError)
      else handleItemRequestPATCH r ctx rt
    else if bool_decide (method = "DELETE") then
      if negb (isModeAllowed c Delete) then sendError (Some InvalidMethodError)
      else handleItemRequestDELETE r ctx rt
    else sendError (Some InvalidMethodError)
  else
    (* Collection request *)
    if bool_decide (method = "OPTIONS") then
      setHeader "Allow" (Join (listMethods c) ", ")
    else if bool_decide (method = "HEAD") || bool_decide (method = "GET") then
      if negb (isModeAllowed c List) then sendError (Some InvalidMethodError)
      else handleListRequestGET r ctx rt
    else if bool_decide (method = "POST") then
      if negb (isModeAllowed c Create) then sendError (Some InvalidMethodError)
      else handleListRequestPOST r ctx rt
    else if bool_decide (method = "DELETE") then
      if negb (isModeAllowed c Clear) then sendError (Some InvalidMethodError)
      else handleListRequestDELETE r ctx rt
    else sendError (Some InvalidMethodError).

End Orchestrator.

(** *** Vocabulary for the statements about the orchestrator *)

Definition isSetHeader {Lookup} (e : @event Lookup) : Prop :=
  match e with
  | SetHeader _ _ => True
  | _ => False
  end.

Definition isSendError {Lookup} (e : @event Lookup) : bool :=
  match e with
  | SendError _ => true
  | _ => false
  end.

(** A call that may change what is stored. *)
Definition isMutation {Lookup} (e : @event Lookup) : bool :=
  match e with
  | CallInsert _ | CallUpdate _ _ | CallDelete _ | CallClear _ => true
  | _ => false
  end.

(** Some call that may change the store comes after an error response. *)
Fixpoint mutationAfterError {Lookup} (seenError : bool) (evs : list (@event Lookup)) : bool :=
  match evs with
  | [] => false
  | e :: evs =>
      (seenError && isMutation e) || mutationAfterError (seenError || isSendError e) evs
  end.

(** The computation only adds events to the log, none of them a mutation
    after an error response. *)
Definition orderly {Lookup Store A} (m : @M Lookup Store A) : Prop :=
  forall store log, exists evs,
    (m (store, log)).2.2 = log ++ evs /\ mutationAfterError false evs = false.

(** ** Prepare and Validate with maps as references

    In Go a [map[string]interface{}] is a reference: the payload, the
    original, the changes and the base are shared with the caller, and a
    write through one name is seen through the others.  The functions above
    treat maps as values, which says nothing on who writes where.  This
    module renders the same code over a store of map objects, each write
    aimed at a location, to settle what Prepare and Validate write to.

    A slice (an error list) stays a value: the code only appends to the
    lists of the error map it has allocated itself. *)
Module Mem.

Definition loc := positive.

(** A [map[string]interface{}]: the location of its object, or the nil
    map. *)
Definition mapref := option loc.

(** An [interface{}] value; a map is a map reference, a pointer to a map is
    the location of the map it points to (or nil). *)
Inductive value :=
| VNil
| VTombstone
| VBool (b : bool)
| VInt (z : Z)
| VString (s : string)
| VList (l : list value)
| VMap (m : mapref)
| VMapPtr (p : option loc).

Global Instance value_eq_dec : EqDecision value.
Proof.
  refine (fix go (x y : value) {struct x} : Decision (x = y) :=
    let _ : EqDecision value := @go in
    match x, y with
    | VNil, VNil => left _
    | VTombstone, VTombstone => left _
    | VBool a, VBool b => cast_if (decide (a = b))
    | VInt a, VInt b => cast_if (decide (a = b))
    | VString a, VString b => cast_if (decide (a = b))
    | VList a, VList b => cast_if (decide (a = b))
    | VMap a, VMap b => cast_if (decide (a = b))
    | VMapPtr a, VMapPtr b => cast_if (decide (a = b))
    | _, _ => right _
    end); abstract congruence.
Defined.

Definition Tombstone : value := VTombstone.

Inductive err_item :=
| EStr (msg : string)
| ESub (errs : loc).

(** What a location holds: a document or an error map. *)
Inductive object :=
| ODoc (m : gmap string value)
| OErrs (m : gmap string (list err_item)).

Abbreviation heap := (gmap loc object).

Definition index (m : gmap string value) (k : string) : value * bool :=
  match m !! k with
  | Some v => (v, true)
  | None => (VNil, false)
  end.

(** *** The store monad: a computation runs on a heap and leaves a heap,
    also when it panics. *)
Definition H (A : Type) : Type := heap -> outcome A * heap.

Global Instance H_ret : MRet H := fun A a h => (Ok a, h).
Global Instance H_bind : MBind H := fun A B f m h =>
  match m h with
  | (Ok a, h) => f a h
  | (Panic msg, h) => (Panic msg, h)
  end.

Definition skip : H unit := mret tt.
Definition panic {A} (msg : string) : H A := fun h => (Panic msg, h).
Definition readHeap : H heap := fun h => (Ok h, h).

(** [map[string]interface{}{}], [map[string][]interface{}{}]: a new object
    at a location not in use. *)
Definition alloc (o : object) : H loc := fun h =>
  let l := fresh (dom h) in (Ok l, <[l := o]> h).

Definition badRef : string := "invalid map reference".

(** Reading a map. *)
Definition getDoc (l : loc) : H (gmap string value) := fun h =>
  match h !! l with
  | Some (ODoc m) => (Ok m, h)
  | _ => (Panic badRef, h)
  end.

Definition getErrs (l : loc) : H (gmap string (list err_item)) := fun h =>
  match h !! l with
  | Some (OErrs m) => (Ok m, h)
  | _ => (Panic badRef, h)
  end.

(** Reading through a map reference; the nil map reads as the empty map
    ([v, found := m[k]] and [range m] on a nil map are those of a map
    without entries). *)
Definition readMap (m : mapref) : H (gmap string value) :=
  match m with
  | Some l => getDoc l
  | None => mret ∅
  end.

(** [m[k] = v] *)
Definition setDoc (l : loc) (k : string) (v : value) : H unit := fun h =>
  match h !! l with
  | Some (ODoc m) => (Ok tt, <[l := ODoc (<[k := v]> m)]> h)
  | _ => (Panic badRef, h)
  end.

(** [delete(m, k)] *)
Definition delDoc (l : loc) (k : string) : H unit := fun h =>
  match h !! l with
  | Some (ODoc m) => (Ok tt, <[l := ODoc (delete k m)]> h)
  | _ => (Panic badRef, h)
  end.

(** [errs[field] = append(errs[field], items...)] *)
Definition appendErrs (errs : loc) (field : string) (items : list err_item) : H unit := fun h =>
  match h !! errs with
  | Some (OErrs m) =>
      (Ok tt, <[errs := OErrs (<[field := default [] (m !! field) ++ items]> m)]> h)
  | _ => (Panic badRef, h)
  end.

(** func addFieldError *)
Definition addFieldError (errs : loc) (field : string) (err : err_item) : H unit :=
  appendErrs errs field [err].

(** [for k, v := range m { body }] *)
Definition range {A} (m : gmap string A) (body : string -> A -> H unit) : H unit :=
  map_fold (fun k v (acc : H unit) => acc ;; body k v) skip m.

(** func mergeFieldErrors *)
Definition mergeFieldErrors (errs : loc) (mergeErrs : gmap string (list err_item)) : H unit :=
  range mergeErrs (fun field values => appendErrs errs field values).

(** *** Schema and fields; hooks and validators may read the heap. *)
Inductive validated :=
| Valid (v : value)
| Invalid (msg : string).

Record Field_ (S : Type) := mkField {
  Required : bool;
  ReadOnly : bool;
  Hidden : bool;
  Default : value;
  OnInit : option (Context -> heap -> value -> value);
  OnUpdate : option (Context -> heap -> value -> value);
  Validator : option (heap -> value -> validated);
  FSchema : option S
}.
Arguments mkField {S}.
Arguments Required {S}.
Arguments ReadOnly {S}.
Arguments Hidden {S}.
Arguments Default {S}.
Arguments OnInit {S}.
Arguments OnUpdate {S}.
Arguments Validator {S}.
Arguments FSchema {S}.

Inductive Schema := mkSchema {
  Description : string;
  Fields : gmap string (Field_ Schema);
  MinLen : Z;
  MaxLen : Z
}.

Abbreviation Field := (Field_ Schema).

Section Model.

(** [reflect.DeepEqual] follows the references it is given and writes
    nothing. *)
Variable DeepEqual : heap -> value -> value -> bool.

(** [Schema.validateDependencies(changes, doc, prefix)], from the dependency
    file of the package: it reads its arguments; the error map it returns
    is only read. *)
Variable validateDependencies :
  Schema -> heap -> mapref -> loc -> string -> gmap string (list err_item).

(** Lines 107-154. *)
Definition prepareField (def : Field) (payload : mapref) (original : option loc)
    (replace : bool) (field : string) (changes base : loc) : H unit :=
  pm ← readMap payload;
  let '(value, found) := index pm field in
  match original with
  | None =>
      if replace then panic replacePanic
      else if negb found || bool_decide (value = VNil) then
        if bool_decide (Default def <> VNil)
        then setDoc base field (Default def)
        else skip
      else setDoc changes field value
  | Some orig =>
      om ← getDoc orig;
      let '(oValue, oFound) := index om field in
      h ← readHeap;
      (if found then
         match Validator def with
         | Some validate =>
             match validate h value with
             | Invalid _ => setDoc changes field value
             | Valid validated =>
                 if negb oFound || negb (DeepEqual h validated oValue)
                 then setDoc changes field validated
                 else skip
             end
         | None =>
             if negb oFound || negb (DeepEqual h value oValue)
             then setDoc changes field value
             else skip
         end
       else if oFound && replace then
         if Hidden def && negb (ReadOnly def) then setDoc changes field oValue
         else if Required def && bool_decide (Default def <> VNil)
              then setDoc changes field (Default def)
         else setDoc changes field Tombstone
       else skip) ;;
      (if oFound then setDoc base field oValue else skip)
  end.

(** Lines 155-187.  The assertion [value.(map[string]interface{})] holds
    for every map, the nil map included. *)
Definition prepareSub (prepare : Schema -> mapref -> option loc -> H (loc * loc))
    (def : Field) (payload : mapref) (original : option loc)
    (field : string) (changes base : loc) : H unit :=
  pm ← readMap payload;
  let '(value, found) := index pm field in
  match FSchema def with
  | None => skip
  | Some sub =>
      subOriginal ←
        match original with
        | None => mret None
        | Some orig =>
            om ← getDoc orig;
            empty ← alloc (ODoc ∅);
            match fst (index om field) with
            | VMapPtr su => mret su
            | _ => mret (Some empty)
            end
        end;
      if found then
        match value with
        | VMap subPayload =>
            '(c, b) ← prepare sub subPayload subOriginal;
            setDoc changes field (VMap (Some c)) ;;
            setDoc base field (VMap (Some b))
        | _ => skip
        end
      else
        empty ← alloc (ODoc ∅);
        '(c, b) ← prepare sub (Some empty) subOriginal;
        cm ← getDoc c;
        bm ← getDoc b;
        if (0 <? len cm) || (0 <? len bm)
        then setDoc changes field (VMap (Some c)) ;; setDoc base field (VMap (Some b))
        else skip
  end.

(** Lines 188-211. *)
Definition prepareHook (ctx : Context) (def : Field) (original : option loc)
    (field : string) (changes base : loc) : H unit :=
  let hook := match original with
              | None => OnInit def
              | Some _ => OnUpdate def
              end in
  match hook with
  | None => skip
  | Some hook =>
      cm ← getDoc changes;
      match index cm field with
      | (value, true) =>
          if bool_decide (value = Tombstone) then
            bm ← getDoc base;
            h ← readHeap;
            setDoc base field (hook ctx h (fst (index bm field))) ;;
            delDoc changes field
          else
            h ← readHeap;
            setDoc changes field (hook ctx h value)
      | (_, false) =>
          bm ← getDoc base;
          h ← readHeap;
          setDoc base field (hook ctx h (fst (index bm field)))
      end
  end.

(** func (s Schema) Prepare *)
Fixpoint Prepare (s : Schema) (ctx : Context) (payload : mapref)
    (original : option loc) (replace : bool) {struct s} : H (loc * loc) :=
  changes ← alloc (ODoc ∅);
  base ← alloc (ODoc ∅);
  range (Fields s) (fun field def =>
    prepareField def payload original replace field changes base ;;
    prepareSub (fun sub p o => Prepare sub ctx p o replace)
               def payload original field changes base ;;
    prepareHook ctx def original field changes base) ;;
  pm ← readMap payload;
  range pm (fun field value =>
    match Fields s !! field with
    | None => setDoc changes field value
    | Some _ => skip
    end) ;;
  mret (changes, base).

(** Lines 234-251. *)
Definition checkField (def : Field) (changes base : mapref) (field : string)
    (errs : loc) : H unit :=
  cm ← readMap changes;
  bm ← readMap base;
  (if ReadOnly def then
     if snd (index cm field) then addFieldError errs field (EStr "read-only")
     else skip
   else skip) ;;
  if Required def then
    let '(value, found) := index cm field in
    if negb found || bool_decide (value = VNil) || bool_decide (value = Tombstone) then
      if found then addFieldError errs field (EStr "required")
      else
        let '(value, found) := index bm field in
        if negb found || bool_decide (value = VNil)
        then addFieldError errs field (EStr "required")
        else skip
    else skip
  else skip.

(** Lines 252-263. *)
Definition checkSub (subValidate : Schema -> mapref -> mapref -> bool -> H (mapref * loc))
    (def : Field) (changes base : mapref) (field : string) (errs : loc) : H unit :=
  match FSchema def with
  | Some sub =>
      cm ← readMap changes;
      bm ← readMap base;
      if negb (snd (index cm field)) && negb (snd (index bm field)) then
        empty ← alloc (ODoc ∅);
        '(_, subErrs) ← subValidate sub (Some empty) (Some empty) false;
        em ← getErrs subErrs;
        if 0 <? len em then addFieldError errs field (ESub subErrs)
        else skip
      else skip
  | None => skip
  end.

(** Lines 286-326.  The assertions [v.(map[string]interface{})] hold for
    every map, the nil map included; a nil [subDoc] is stored as the nil
    map. *)
Definition validateValue
    (def : option (Field * option (mapref -> mapref -> bool -> H (mapref * loc))))
    (changes base : mapref) (field : string) (v : value) (doc errs : loc) : H unit :=
  match def with
  | None => addFieldError errs field (EStr "invalid field")
  | Some (def, Some subValidate) =>
      subChanges ← alloc (ODoc ∅);
      subBase ← alloc (ODoc ∅);
      cm ← readMap changes;
      subChanges ←
        match index cm field with
        | (VMap m, true) => mret m
        | (_, true) => addFieldError errs field (EStr "not a dict") ;; mret (Some subChanges)
        | (_, false) => mret (Some subChanges)
        end;
      bm ← readMap base;
      subBase ←
        match index bm field with
        | (VMap m, true) => mret m
        | (_, true) => addFieldError errs field (EStr "not a dict") ;; mret (Some subBase)
        | (_, false) => mret (Some subBase)
        end;
      '(subDoc, subErrs) ← subValidate subChanges subBase false;
      em ← getErrs subErrs;
      if 0 <? len em
      then addFieldError errs field (ESub subErrs)
      else setDoc doc field (VMap subDoc)
  | Some (def, None) =>
      match Validator def with
      | Some validator =>
          h ← readHeap;
          match validator h v with
          | Invalid msg => addFieldError errs field (EStr msg)
          | Valid v => setDoc doc field v
          end
      | None => skip
      end
  end.

(** func (s Schema) validate; a nil [doc] is [None]. *)
Fixpoint validate (s : Schema) (changes base : mapref) (isRoot : bool) {struct s}
    : H (mapref * loc) :=
  doc ← alloc (ODoc ∅);
  errs ← alloc (OErrs ∅);
  range (Fields s) (fun field def =>
    checkField def changes base field errs ;;
    checkSub validate def changes base field errs) ;;
  bm ← readMap base;
  range bm (fun field value => setDoc doc field value) ;;
  cm ← readMap changes;
  range cm (fun field value =>
    if bool_decide (value = Tombstone) then delDoc doc field
    else setDoc doc field value) ;;
  (if isRoot then
     h ← readHeap;
     mergeFieldErrors errs (validateDependencies s h changes doc "")
   else skip) ;;
  let subs := (fun def : Field => (def, validate <$> FSchema def)) <$> Fields s in
  dm ← getDoc doc;
  range dm (fun field value =>
    validateValue (subs !! field) changes base field value doc errs) ;;
  dm ← getDoc doc;
  let l := len dm in
  if l <? MinLen s then
    addFieldError errs "" (EStr (fewer (MinLen s))) ;;
    mret (None, errs)
  else if (0 <? MaxLen s) && (MaxLen s <? l) then
    addFieldError errs "" (EStr (more (MaxLen s))) ;;
    mret (None, errs)
  else mret (Some doc, errs).

(** func (s Schema) Validate *)
Definition Validate (s : Schema) (changes base : mapref) : H (mapref * loc) :=
  validate s changes base true.

End Model.

(** *** Vocabulary for the statements *)

(** The computation [m], run on any heap that still holds the objects of
    [h0] as they are, leaves a heap that still holds them as they are, and
    a result, if any, that satisfies [Q]. *)
Definition safe (h0 : heap) {A} (m : H A) (Q : A -> Prop) : Prop :=
  forall h, h0 ⊆ h ->
    h0 ⊆ (m h).2 /\
    match (m h).1 with
    | Ok a => Q a
    | Panic _ => True
    end.

(** The two maps a call returns are new. *)
Definition fresh2 (h0 : heap) (r : loc * loc) : Prop :=
  h0 !! r.1 = None /\ h0 !! r.2 = None.

(** The document, if any, and the error map a call returns are new. *)
Definition freshResult (h0 : heap) (r : mapref * loc) : Prop :=
  (forall doc, r.1 = Some doc -> h0 !! doc = None) /\ h0 !! r.2 = None.

(** A location holds a document; a location holds an error map. *)
Definition isDoc (h : heap) (l : loc) : Prop := exists m, h !! l = Some (ODoc m).
Definition isErrs (h : heap) (l : loc) : Prop := exists m, h !! l = Some (OErrs m).

(** The computation [m] frees nothing and turns no map into a map of the
    other kind: a location that holds a document, or an error map, before
    [m] holds one after it, also when [m] panics. *)
Definition keeps {A} (m : H A) : Prop :=
  forall h l, (isDoc h l -> isDoc (m h).2 l) /\ (isErrs h l -> isErrs (m h).2 l).

(** The result of [m], if any, satisfies [Q]. *)
Definition yields {A} (m : H A) (Q : A -> Prop) : Prop :=
  forall h, match (m h).1 with
            | Ok a => Q a
            | Panic _ => True
            end.

(** The depth of the nesting of a schema. *)
Fixpoint depth (s : Schema) : nat :=
  S (map_fold (fun _ (def : Field) (acc : nat) =>
                 match FSchema def with
                 | Some sub => Nat.max (depth sub) acc
                 | None => acc
                 end)
              0%nat (Fields s)).

End Mem.

(** ** Concrete inputs *)

(** *** Schemas and documents *)

(** No dependency rules. *)
Definition noDeps : Schema -> Doc -> Doc -> string -> Errs := fun _ _ _ _ => ∅.

Definition plainField : Field := mkField false false false VNil None None None None.
Definition readOnlyField : Field := mkField false true false VNil None None None None.

Definition userSchema : Schema :=
  mkSchema "" {[ "id" := plainField; "name" := plainField ]} 0 0.

(** The identity of a user cannot be edited. *)
Definition lockedSchema : Schema :=
  mkSchema "" {[ "id" := readOnlyField; "name" := plainField ]} 0 0.

(** A hook in the manner of a clock: whatever the value, the time is 2. *)
Definition stamp : Context -> value -> value := fun _ _ => VInt 2.

Definition stampedSchema : Schema :=
  mkSchema "" {[ "updated" := mkField false false false VNil None (Some stamp) None None ]} 0 0.

(** A user with a nested address. *)
Definition addressSchema : Schema := mkSchema "" {[ "city" := plainField ]} 0 0.
Definition nestedSchema : Schema :=
  mkSchema "" {[ "address" := mkField false false false VNil None None None (Some addressSchema) ]} 0 0.
Definition paris : Doc := {[ "address" := VMap {[ "city" := VString "Paris" ]} ]}.

(** A validator that accepts strings only and writes "Bob" in capitals. *)
Definition upper : value -> validated := fun v =>
  match v with
  | VString "Bob" => Valid (VString "BOB")
  | VString s => Valid (VString s)
  | _ => Invalid "not a string"
  end.

Definition bob : Item :=
  mkItem (VString "1") "E1" 100 {[ "id" := VString "1"; "name" := VString "Bob" ]}.
Definition carl : Item :=
  mkItem (VString "2") "E2" 200 {[ "id" := VString "2"; "name" := VString "Carl" ]}.

(** *** A backend, routes and requests *)

(** A backend that keeps its items in a list; a lookup is the identity it
    selects, and a nil lookup selects every item. *)
Definition selects (lk : option value) (item : Item) : bool :=
  match lk with
  | Some id => bool_decide (ID item = id)
  | None => true
  end.

Definition memHandler : @ResourceHandler value (list Item) := {|
  Find := fun lk page perPage _ store =>
    let found := filter (fun item => selects lk item = true) store in
    ((Some (mkItemList found), None), store);
  Insert := fun items _ store => (None, store ++ omap id items);
  Update_ := fun item original _ store =>
    match item, original with
    | Some item, Some original =>
        (None, (fun old => if bool_decide (ID old = ID original) then item else old) <$> store)
    | _, _ => (Some (mkError 500 "nil item" None), store)
    end;
  Delete_ := fun original _ store =>
    (None, filter (fun item => selects (ID <$> original) item = false) store);
  Clear_ := fun lk _ store =>
    let gone := filter (fun item => selects lk item = true) store in
    ((Z.of_nat (length gone), None), filter (fun item => selects lk item = false) store)
|}.

Definition users (modes : list Mode) (limit : Z) : @Resource value (list Item) :=
  mkResource userSchema (mkConf modes limit) memHandler.

(** [time.Parse(time.RFC1123, _)] on the header values used below, as
    seconds since the epoch; the other strings used are not dates. *)
Definition exampleDate (s : string) : option Z :=
  if bool_decide (s = "Thu, 01 Jan 1970 00:01:40 GMT") then Some 100
  else if bool_decide (s = "Thu, 01 Jan 1970 00:03:20 GMT") then Some 200
  else None.

Definition request (method : string) (query header : gmap string string) : requestHandler :=
  mkRequestHandler (mkRequest method "users" query header) false.

(** A route to the collection and a route to the item "1". *)
Definition collection (modes : list Mode) (limit : Z) : @route value (list Item) :=
  mkRoute ∅ (users modes limit) (None, None).
Definition item1 (modes : list Mode) : @route value (list Item) :=
  mkRoute {[ "id" := VString "1" ]} (users modes 0) (Some (VString "1"), None).

(** Routes whose lookup fails: [route.lookup()] returns a nil lookup and an
    error. *)
Definition badLookup : Error := mkError 422 "Invalid lookup" None.
Definition brokenRoute : @route value (list Item) :=
  mkRoute ∅ (users [Clear] 0) (None, Some badLookup).
Definition brokenItem : @route value (list Item) :=
  mkRoute {[ "id" := VString "1" ]} (users [Delete] 0) (None, Some badLookup).

(** *** Maps as references *)

(** [reflect.DeepEqual] on a heap, to the depth [n]. *)
Fixpoint deepEqual (n : nat) (h : Mem.heap) (a b : Mem.value) : bool :=
  match n with
  | O => false
  | S n =>
      let sameMap (l1 l2 : Mem.loc) : bool :=
        bool_decide (l1 = l2) ||
        match h !! l1, h !! l2 with
        | Some (Mem.ODoc m1), Some (Mem.ODoc m2) =>
            bool_decide (dom m1 = dom m2) &&
            map_fold (fun k v (acc : bool) =>
                        acc && match m2 !! k with
                               | Some w => deepEqual n h v w
                               | None => false
                               end)
                     true m1
        | _, _ => false
        end in
      match a, b with
      | Mem.VMap (Some l1), Mem.VMap (Some l2) => sameMap l1 l2
      | Mem.VMapPtr (Some l1), Mem.VMapPtr (Some l2) => sameMap l1 l2
      | Mem.VList l1, Mem.VList l2 =>
          (fix all2 (l1 l2 : list Mem.value) : bool :=
             match l1, l2 with
             | [], [] => true
             | x :: l1, y :: l2 => deepEqual n h x y && all2 l1 l2
             | _, _ => false
             end) l1 l2
      | _, _ => bool_decide (a = b)
      end
  end.

Definition memPlain : Mem.Field :=
  Mem.mkField false false false Mem.VNil None None None None.
Definition memUsers : Mem.Schema :=
  Mem.mkSchema "" {[ "id" := memPlain; "name" := memPlain ]} 0 0.
Definition memNoDeps :
    Mem.Schema -> Mem.heap -> Mem.mapref -> Mem.loc -> string ->
    gmap string (list Mem.err_item) :=
  fun _ _ _ _ _ => ∅.

(** The payload at location 1, the original at location 2; the payload
    renames Bob. *)
Definition twoDocs : Mem.heap :=
  {[ 1%positive := Mem.ODoc {[ "id" := Mem.VString "1"; "name" := Mem.VString "Rob" ]};
     2%positive := Mem.ODoc {[ "id" := Mem.VString "1"; "name" := Mem.VString "Bob" ]} ]}.

(** A user with a nested address, and a payload whose address is the nil
    map, at location 1. *)
Definition memAddress : Mem.Schema := Mem.mkSchema "" {[ "city" := memPlain ]} 0 0.
Definition memNested : Mem.Schema :=
  Mem.mkSchema ""
    {[ "address" := Mem.mkField false false false Mem.VNil None None None (Some memAddress) ]}
    0 0.
Definition nilAddress : Mem.heap :=
  {[ 1%positive := Mem.ODoc {[ "address" := Mem.VMap None ]} ]}.

(** *** Vocabulary and inputs for the further properties *)

(** An error item is listed under a key. *)
Definition has_err (errs : Errs) (k : string) (x : err_item) : Prop :=
  exists l, errs !! k = Some l /\ x ∈ l.

(** A validator that accepts integers only. *)
Definition isInt : value -> validated := fun v =>
  match v with
  | VInt z => Valid (VInt z)
  | _ => Invalid "not an integer"
  end.

(** A hook that wraps the value it is given. *)
Definition wrap : Context -> value -> value := fun _ v => VList [v].

(** A profile: a required name with a default, a hidden secret, an age
    checked by a validator, a read-only identity, a free nickname, a
    revision set by hooks and a nested address. *)
Definition profileSchema : Schema :=
  mkSchema ""
    {[ "name" := mkField true false false (VString "anonymous") None None None None;
       "secret" := mkField false false true VNil None None None None;
       "age" := mkField false false false VNil None None (Some isInt) None;
       "id" := readOnlyField;
       "nick" := plainField;
       "rev" := mkField false false false (VInt 0) (Some wrap) (Some wrap) None None;
       "address" := mkField false false false VNil None None None (Some addressSchema) ]}
    0 0.

Definition alice : Doc :=
  {[ "name" := VString "Alice"; "secret" := VString "s3"; "nick" := VString "al" ]}.

(** Collaborators of the orchestrator for the requests below: the identity
    of a string as it is, an item made of a document with its identity, a
    body that decodes to a given payload, no precondition and no reference
    to check. *)
Definition showID (v : value) : string :=
  match v with
  | VString s => s
  | _ => "?"
  end.

Definition newItem (doc : option Doc) : option Item * option Error :=
  match doc with
  | Some d => (Some (mkItem (index d "id").1 "E0" 0 d), None)
  | None => (None, Some (mkError 500 "no document" None))
  end.

Definition body (payload : Doc) : requestHandler -> Doc * option Error :=
  fun _ => (payload, None).

Definition noPrecondition : requestHandler -> option Item -> option Error :=
  fun _ _ => None.

Definition noReferences :
    requestHandler -> Context -> option Doc -> Schema -> list Item -> option Error :=
  fun _ _ _ _ _ => None.

(** The handlers with these collaborators. *)
Definition serve (payload : Doc) :=
  handleRoute (Lookup:=value) (Store:=list Item) noDeps exampleDate showID newItem
              (body payload) noPrecondition noReferences.

Definition cy : Doc := {[ "id" := VString "3"; "name" := VString "Cy" ]}.
Definition rob : Doc := {[ "id" := VString "1"; "name" := VString "Rob" ]}.

(** * Properties *)

(** ** Prepare and Validate: facts *)

(** Case analysis on every [match] of the goal, innermost first. *)
Ltac case_all :=
  repeat match goal with
         | |- context [match ?x with _ => _ end] =>
             lazymatch x with
             | context [match _ with _ => _ end] => fail
             | _ => destruct x eqn:?
             end
         end.

(** *** Prepare, loop by loop *)

Lemma Prepare_eq s ctx payload original replace :
  Prepare s ctx payload original replace =
    ('(changes, base) ←
       map_fold (prepareStep (fun sub p o => Prepare sub ctx p o replace)
                             ctx payload original replace)
                (Ok (∅, ∅)) (Fields s);
     Ok (prepareUndeclared (Fields s) payload changes, base)).
Proof. destruct s; reflexivity. Qed.

(** The second loop of Prepare, entry by entry. *)
Lemma prepareUndeclared_lookup (fields : gmap string Field) (payload changes : Doc) k :
  prepareUndeclared fields payload changes !! k =
    match fields !! k, payload !! k with
    | None, Some v => Some v
    | _, _ => changes !! k
    end.
Proof.
  unfold prepareUndeclared.
  apply (map_fold_weak_ind (fun (r : Doc) (m : Doc) =>
    r !! k = match fields !! k, m !! k with
             | None, Some v => Some v
             | _, _ => changes !! k
             end)).
  - rewrite lookup_empty. by destruct (fields !! k).
  - intros i x m r Hi IH.
    destruct (decide (i = k)) as [->|Hne].
    + rewrite lookup_insert_eq. destruct (fields !! k) eqn:Hf.
      * rewrite IH. done.
      * by rewrite lookup_insert_eq.
    + rewrite (lookup_insert_ne m) by done.
      destruct (fields !! i); [done|]. by rewrite lookup_insert_ne.
Qed.

(** Without a declared field, Prepare hands the payload over as the
    change-set, whatever the original and [replace]. *)
Lemma Prepare_no_fields d mn mx ctx (payload : Doc) original replace :
  Prepare (mkSchema d ∅ mn mx) ctx payload original replace = Ok (payload, ∅).
Proof.
  rewrite Prepare_eq. cbn [Fields]. rewrite map_fold_empty. cbn.
  do 2 f_equal. apply map_eq. intros k.
  rewrite prepareUndeclared_lookup, !lookup_empty.
  by destruct (payload !! k).
Qed.

(** *** Replace without original *)

Lemma prepareStep_replace_without_original prepare ctx payload field def acc :
  exists msg, prepareStep prepare ctx payload None true field def acc = Panic msg /\
              (acc = Panic msg \/ (exists cb, acc = Ok cb) /\ msg = replacePanic).
Proof.
  unfold prepareStep. destruct acc as [[c b]|msg]; cbn.
  - exists replacePanic. split; [|right; eauto]. unfold prepareField.
    destruct (index payload field). reflexivity.
  - eauto.
Qed.

(** With at least one declared field, [replace=true] without original
    panics. *)
Lemma Prepare_replace_without_original s ctx payload :
  Fields s <> ∅ ->
  Prepare s ctx payload None true = Panic replacePanic.
Proof.
  intros Hne. rewrite Prepare_eq.
  set (step := prepareStep (fun sub p o => Prepare sub ctx p o true) ctx payload None true).
  cut ((Fields s = ∅ /\ map_fold step (Ok (∅, ∅)) (Fields s) = Ok (∅, ∅)) \/
       map_fold step (Ok (∅, ∅)) (Fields s) = Panic replacePanic).
  { intros [[? _]| ->]; done. }
  apply (map_fold_weak_ind (fun (r : outcome (Doc * Doc)) (m : gmap string Field) =>
    (m = ∅ /\ r = Ok (∅, ∅)) \/ r = Panic replacePanic)); [by left|].
  intros i x m r _ IH. right. subst step.
  destruct (prepareStep_replace_without_original
              (fun sub p o => Prepare sub ctx p o true) ctx payload i x r)
    as (msg & -> & [Hr|[_ ->]]); [|done].
  destruct IH as [[_ ->]| ->]; congruence.
Qed.

(** *** One entry at a time *)

Lemma lookup_put k o (m : Doc) k' :
  put k o m !! k' = if decide (k = k') then o else m !! k'.
Proof.
  unfold put. case_decide as H.
  - subst. apply lookup_partial_alter_eq.
  - by apply lookup_partial_alter_ne.
Qed.

Lemma put_insert k v (m : Doc) : <[k := v]> m = put k (Some v) m.
Proof. reflexivity. Qed.

Lemma put_delete k (m : Doc) : delete k m = put k None m.
Proof. reflexivity. Qed.

Lemma put_id k (m : Doc) : put k (m !! k) m = m.
Proof. apply map_eq; intros k'. rewrite lookup_put. case_decide; by subst. Qed.

Lemma put_same k o (m : Doc) : m !! k = o -> put k o m = m.
Proof. intros <-. apply put_id. Qed.

Lemma put_put k o o' (m : Doc) : put k o' (put k o m) = put k o' m.
Proof. apply map_eq; intros k'. rewrite !lookup_put. by case_decide. Qed.

Lemma index_put k o (m : Doc) :
  index (put k o m) k = match o with Some v => (v, true) | None => (VNil, false) end.
Proof. unfold index. rewrite lookup_put. by rewrite decide_True. Qed.

Lemma index_lookup (m : Doc) k :
  index m k = match m !! k with Some v => (v, true) | None => (VNil, false) end.
Proof. reflexivity. Qed.


(** Normal form of a sequence of writes to one entry. *)
Ltac put_norm :=
  repeat first
    [ rewrite put_insert | rewrite put_delete | rewrite put_put
    | rewrite put_id | rewrite lookup_put | rewrite decide_True by reflexivity ].

Lemma local_at_prepareField def payload original replace field :
  local_at field (prepareField def payload original replace field).
Proof.
  intros c b. unfold prepareField.
  destruct (index payload field) as [value found].
  destruct original as [orig|].
  - destruct (index orig field) as [oValue oFound].
    case_all; cbn; put_norm; rewrite ?lookup_put, ?decide_True by done; put_norm;
      try reflexivity.
  - case_all; cbn; put_norm; try reflexivity.
Qed.

Lemma local_at_prepareSub prepare def payload original field :
  local_at field (prepareSub prepare def payload original field).
Proof.
  intros c b. unfold prepareSub.
  destruct (index payload field) as [value found].
  destruct (FSchema def) as [sub|]; [|cbn; by put_norm].
  destruct found.
  - destruct value; cbn; put_norm; try reflexivity.
    destruct (prepare _ _ _) as [[c0 b0]|]; cbn; by put_norm.
  - destruct (prepare _ _ _) as [[c0 b0]|]; cbn; [|done].
    destruct (_ || _); cbn; by put_norm.
Qed.

Lemma local_at_prepareHook ctx def original field :
  local_at field (fun c b => Ok (prepareHook ctx def original field c b)).
Proof.
  intros c b. unfold prepareHook.
  destruct (match original with Some _ => _ | None => _ end) as [hook|]; [|cbn; by put_norm].
  rewrite !index_put, !(index_lookup c), !(index_lookup b).
  destruct (c !! field) as [v|] eqn:Hc, (b !! field) as [w|] eqn:Hb; cbn;
    try case_bool_decide; cbn; put_norm; try reflexivity;
    rewrite ?(put_same _ _ _ Hc), ?(put_same _ _ _ Hb); reflexivity.
Qed.

Lemma local_at_bind k f g :
  local_at k f -> local_at k g ->
  local_at k (fun c b => '(c, b) ← f c b; g c b).
Proof.
  intros Hf Hg c b. rewrite (Hf c b).
  destruct (f (put k (c !! k) ∅) (put k (b !! k) ∅)) as [[c0 b0]|]; cbn; [|done].
  rewrite (Hg (put k (c0 !! k) c)), (Hg c0). put_norm.
  destruct (g (put k (c0 !! k) ∅) (put k (b0 !! k) ∅)) as [[c1 b1]|]; cbn; [|done].
  by put_norm.
Qed.

Lemma local_at_prepareStep prepare ctx payload original replace field def :
  local_at field (fun c b =>
    prepareStep prepare ctx payload original replace field def (Ok (c, b))).
Proof.
  unfold prepareStep. cbn.
  apply (local_at_bind field (prepareField def payload original replace field)
           (fun c b => '(c, b) ← prepareSub prepare def payload original field c b;
                       Ok (prepareHook ctx def original field c b))).
  - apply local_at_prepareField.
  - apply (local_at_bind field (prepareSub prepare def payload original field)
             (fun c b => Ok (prepareHook ctx def original field c b))).
    + apply local_at_prepareSub.
    + apply local_at_prepareHook.
Qed.


Lemma put_None_empty k : put k None (∅ : Doc) = ∅.
Proof. apply map_eq; intros k'. rewrite lookup_put, lookup_empty. by case_decide. Qed.

Lemma bind_Ok {A B} (a : A) (f : A -> outcome B) : (Ok a ≫= f) = f a.
Proof. reflexivity. Qed.

Lemma bind_Panic {A B} msg (f : A -> outcome B) : (Panic msg ≫= f) = Panic msg.
Proof. reflexivity. Qed.

Lemma prepareStep_Panic prepare ctx payload original replace field def msg :
  prepareStep prepare ctx payload original replace field def (Panic msg) = Panic msg.
Proof. reflexivity. Qed.

(** The first loop of Prepare, entry by entry: the entry of a declared
    field is what its own iteration computes, the others stay absent; the
    loop panics exactly when some iteration does. *)
Lemma prepareFields_spec prepare ctx payload original replace (fields : gmap string Field) :
  match map_fold (prepareStep prepare ctx payload original replace) (Ok (∅, ∅)) fields with
  | Ok (c, b) =>
      forall k,
        match fields !! k with
        | Some def => prepareCell prepare ctx payload original replace k def
                      = Ok (c !! k, b !! k)
        | None => c !! k = None /\ b !! k = None
        end
  | Panic msg =>
      exists k def, fields !! k = Some def /\
                    prepareCell prepare ctx payload original replace k def = Panic msg
  end.
Proof.
  apply (map_fold_weak_ind (fun (r : outcome (Doc * Doc)) (m : gmap string Field) =>
    match r with
    | Ok (c, b) =>
        forall k,
          match m !! k with
          | Some def => prepareCell prepare ctx payload original replace k def
                        = Ok (c !! k, b !! k)
          | None => c !! k = None /\ b !! k = None
          end
    | Panic msg =>
        exists k def, m !! k = Some def /\
                      prepareCell prepare ctx payload original replace k def = Panic msg
    end)).
  - intros k. by rewrite !lookup_empty.
  - intros i x m [[c b]|msg] Hi IH.
    + pose proof (IH i) as IHi. rewrite Hi in IHi. destruct IHi as [Hc Hb].
      rewrite (local_at_prepareStep prepare ctx payload original replace i x c b).
      rewrite Hc, Hb, !put_None_empty.
      destruct (prepareStep prepare ctx payload original replace i x (Ok (∅, ∅)))
        as [[c0 b0]|msg] eqn:Hstep; rewrite ?bind_Ok, ?bind_Panic; cbv beta iota.
      * intros k. rewrite !lookup_put. destruct (decide (i = k)) as [->|Hne].
        -- rewrite lookup_insert_eq. unfold prepareCell. by rewrite Hstep.
        -- rewrite lookup_insert_ne by done. apply IH.
      * exists i, x. rewrite lookup_insert_eq. split; [done|].
        unfold prepareCell. by rewrite Hstep.
    + destruct IH as (k & def & Hk & Hcell). rewrite prepareStep_Panic.
      exists k, def. split; [|done].
      rewrite lookup_insert_ne; [done|]. intros ->. congruence.
Qed.

(** Prepare, entry by entry. *)
Lemma Prepare_spec s ctx payload original replace :
  match Prepare s ctx payload original replace with
  | Ok (changes, base) =>
      forall k,
        match Fields s !! k with
        | Some def =>
            prepareCell (fun sub p o => Prepare sub ctx p o replace)
                        ctx payload original replace k def
            = Ok (changes !! k, base !! k)
        | None => changes !! k = payload !! k /\ base !! k = None
        end
  | Panic msg =>
      exists k def,
        Fields s !! k = Some def /\
        prepareCell (fun sub p o => Prepare sub ctx p o replace)
                    ctx payload original replace k def = Panic msg
  end.
Proof.
  rewrite Prepare_eq.
  pose proof (prepareFields_spec (fun sub p o => Prepare sub ctx p o replace)
                ctx payload original replace (Fields s)) as H.
  destruct (map_fold _ _ _) as [[c b]|msg]; rewrite ?bind_Ok, ?bind_Panic; cbv beta iota;
    [|exact H].
  intros k. specialize (H k). rewrite prepareUndeclared_lookup.
  destruct (Fields s !! k) as [def|]; [exact H|].
  destruct H as [Hc Hb]. rewrite Hc. split; [|done]. by destruct (payload !! k).
Qed.

(** *** Prepare returns *)

Lemma depth_eq s :
  depth s = S (map_fold (fun _ (def : Field) (acc : nat) =>
                           match FSchema def with
                           | Some sub => Nat.max (depth sub) acc
                           | None => acc
                           end) 0%nat (Fields s)).
Proof. destruct s; reflexivity. Qed.

(** A nested schema is less deep than the schema that holds it. *)
Lemma depth_nested s k def sub :
  Fields s !! k = Some def -> FSchema def = Some sub -> (depth sub < depth s)%nat.
Proof.
  intros Hk Hsub. rewrite (depth_eq s). apply Nat.lt_succ_r. revert Hk.
  apply (map_fold_weak_ind (fun (r : nat) (m : gmap string Field) =>
    m !! k = Some def -> (depth sub <= r)%nat)); [by rewrite lookup_empty|].
  intros i x m r Hi IH Hk. destruct (decide (i = k)) as [->|Hne].
  - rewrite lookup_insert_eq in Hk. injection Hk as ->. rewrite Hsub. lia.
  - rewrite lookup_insert_ne in Hk by done. specialize (IH Hk).
    destruct (FSchema x); lia.
Qed.

(** Without [replace], Prepare never panics: it returns a change-set and a
    base for every schema, payload and original. *)
Lemma Prepare_total s ctx payload original :
  exists changes base, Prepare s ctx payload original false = Ok (changes, base).
Proof.
  remember (depth s) as n eqn:Hn. revert s Hn payload original.
  induction n as [n IH] using lt_wf_ind. intros s -> payload original.
  pose proof (Prepare_spec s ctx payload original false) as H.
  destruct (Prepare s ctx payload original false) as [[c b]|msg]; [eauto|].
  exfalso. destruct H as (k & def & Hk & Hcell).
  unfold prepareCell, prepareStep in Hcell. rewrite bind_Ok in Hcell. cbv beta iota in Hcell.
  assert (exists c b, prepareField def payload original false k ∅ ∅ = Ok (c, b))
    as (c & b & Hf).
  { unfold prepareField. destruct (index payload k), original as [orig|].
    - destruct (index orig k). eauto.
    - cbn. case_all; eauto. }
  rewrite Hf, bind_Ok in Hcell. cbv beta iota in Hcell.
  assert (exists c' b', prepareSub (fun sub p o => Prepare sub ctx p o false)
                                   def payload original k c b = Ok (c', b'))
    as (c' & b' & Hs).
  { unfold prepareSub. destruct (index payload k) as [v found].
    destruct (FSchema def) as [sub|] eqn:Hsub; [|eauto].
    assert (forall p o, exists c b, Prepare sub ctx p o false = Ok (c, b)) as Hrec.
    { intros p o. eapply IH; [|reflexivity]. by eapply depth_nested. }
    destruct found.
    - destruct v; eauto.
      match goal with |- context [Prepare sub ctx ?p ?o false] =>
        destruct (Hrec p o) as (c1 & b1 & ->) end. cbn. eauto.
    - match goal with |- context [Prepare sub ctx ?p ?o false] =>
        destruct (Hrec p o) as (c1 & b1 & ->) end. cbn.
      destruct (_ || _); eauto. }
  rewrite Hs, !bind_Ok in Hcell. cbv beta iota in Hcell.
  destruct (prepareHook _ _ _ _ _ _). discriminate.
Qed.


Lemma DeepEqual_refl v : DeepEqual v v = true.
Proof. unfold DeepEqual. by rewrite bool_decide_eq_true. Qed.

(** The entry of a plain field (no sub-schema, no OnUpdate hook) when the
    payload repeats the original. *)
Lemma prepareCell_unchanged prepare ctx (orig : Doc) replace k def :
  FSchema def = None -> OnUpdate def = None ->
  (forall v, orig !! k = Some v -> accepts def v) ->
  prepareCell prepare ctx orig (Some orig) replace k def = Ok (None, orig !! k).
Proof.
  intros Hs Hu Hacc. unfold prepareCell, prepareStep, prepareField, prepareSub, prepareHook.
  rewrite Hs, Hu, (index_lookup orig k).
  destruct (orig !! k) as [v|] eqn:Hv; cbn.
  - specialize (Hacc v eq_refl). unfold accepts in Hacc.
    destruct (Validator def) as [validate|]; [rewrite Hacc|];
      rewrite DeepEqual_refl; cbn; by rewrite lookup_empty, lookup_insert_eq.
  - by rewrite !lookup_empty.
Qed.
(** *** The merge of Validate *)

Lemma fold_insert_id (base : Doc) :
  map_fold (fun field value (doc : Doc) => <[field := value]> doc) ∅ base = base.
Proof.
  apply (map_fold_weak_ind (fun (r m : Doc) => r = m)); [done|].
  by intros i x m r _ ->.
Qed.

Lemma mergeDoc_lookup (changes base : Doc) k :
  mergeDoc changes base !! k =
    match changes !! k with
    | Some v => if bool_decide (v = Tombstone) then None else Some v
    | None => base !! k
    end.
Proof.
  unfold mergeDoc. rewrite fold_insert_id.
  apply (map_fold_weak_ind (fun (r m : Doc) =>
    r !! k = match m !! k with
             | Some v => if bool_decide (v = Tombstone) then None else Some v
             | None => base !! k
             end)).
  - by rewrite lookup_empty.
  - intros i x m r Hi IH. destruct (decide (i = k)) as [->|Hne].
    + rewrite lookup_insert_eq. case_bool_decide.
      * by rewrite lookup_delete_eq.
      * by rewrite lookup_insert_eq.
    + rewrite (lookup_insert_ne m) by done. case_bool_decide.
      * by rewrite lookup_delete_ne.
      * by rewrite lookup_insert_ne.
Qed.

Lemma mergeDoc_empty (base : Doc) : mergeDoc ∅ base = base.
Proof. apply map_eq; intros k. by rewrite mergeDoc_lookup, lookup_empty. Qed.

(** *** Errors only grow *)


Lemma extends_refl e : extends e e.
Proof. intros k l H. exists []. by rewrite app_nil_r. Qed.

Lemma extends_trans e1 e2 e3 : extends e1 e2 -> extends e2 e3 -> extends e1 e3.
Proof.
  intros H12 H23 k l H. destruct (H12 k l H) as [l' H'].
  destruct (H23 _ _ H') as [l'' H'']. exists (l' ++ l''). by rewrite app_assoc.
Qed.

Lemma extends_append (errs : Errs) field l :
  extends errs (<[field := default [] (errs !! field) ++ l]> errs).
Proof.
  intros k l0 H. destruct (decide (field = k)) as [->|Hne].
  - rewrite lookup_insert_eq, H. by exists l.
  - rewrite lookup_insert_ne by done. exists []. by rewrite app_nil_r.
Qed.

Lemma addFieldError_extends errs field err : extends errs (addFieldError errs field err).
Proof. apply extends_append. Qed.

Lemma mergeFieldErrors_extends errs mergeErrs : extends errs (mergeFieldErrors errs mergeErrs).
Proof.
  unfold mergeFieldErrors.
  apply (map_fold_weak_ind (fun (r : Errs) (_ : Errs) => extends errs r)).
  - apply extends_refl.
  - intros i x m r _ IH. eapply extends_trans; [exact IH|]. apply extends_append.
Qed.



Lemma validateValue_extends d changes base field value doc errs :
  extends errs (validateValue d changes base field value doc errs).2.
Proof.
  unfold validateValue.
  case_all; cbn [snd];
    repeat first [ apply extends_refl | apply addFieldError_extends
                 | (eapply extends_trans; [|apply addFieldError_extends]) ].
Qed.

Lemma checkSize_extends s doc errs : extends errs (checkSize s doc errs).2.
Proof.
  unfold checkSize. case_all; cbn [snd];
    first [apply extends_refl | apply addFieldError_extends].
Qed.

(** *** The third loop of validate, entry by entry *)


Lemma validateValue_doc d changes base field v (doc : Doc) errs :
  (validateValue d changes base field v doc errs).1 =
    match validatedCell d changes base field v with
    | Some x => <[field := x]> doc
    | None => doc
    end.
Proof.
  unfold validatedCell, validateValue.
  case_all; cbn [fst] in *; rewrite ?lookup_insert_eq, ?lookup_empty in *; congruence.
Qed.

Lemma validateDoc_spec subs changes base (doc : Doc) errs :
  (forall k,
     (validateDoc subs changes base doc errs).1 !! k =
       match doc !! k with
       | Some v => Some (default v (validatedCell (subs !! k) changes base k v))
       | None => None
       end) /\
  extends errs (validateDoc subs changes base doc errs).2.
Proof.
  unfold validateDoc.
  set (step := fun field v (acc : Doc * Errs) =>
         validateValue (subs !! field) changes base field v acc.1 acc.2).
  cut (forall m : Doc, m ⊆ doc ->
    (forall k,
      (map_fold step (doc, errs) m).1 !! k =
        match m !! k with
        | Some v => Some (default v (validatedCell (subs !! k) changes base k v))
        | None => doc !! k
        end) /\
    extends errs (map_fold step (doc, errs) m).2).
  { intros H. destruct (H doc) as [H1 H2]; [done|]. split; [|done].
    intros k. rewrite H1. by destruct (doc !! k). }
  intros m.
  apply (map_fold_weak_ind (fun (r : Doc * Errs) (m : Doc) => m ⊆ doc ->
    (forall k, r.1 !! k =
        match m !! k with
        | Some v => Some (default v (validatedCell (subs !! k) changes base k v))
        | None => doc !! k
        end) /\ extends errs r.2)).
  - intros _. split; [|apply extends_refl]. intros k. by rewrite lookup_empty.
  - intros i x m' [d e] Hi IH Hsub.
    assert (doc !! i = Some x) as Hx.
    { eapply lookup_weaken; [|exact Hsub]. apply lookup_insert_eq. }
    destruct IH as [IH1 IH2].
    { etrans; [|exact Hsub]. by apply insert_subseteq. }
    cbn [fst snd] in *. subst step. cbv beta. cbn [fst snd]. split.
    + intros k. rewrite validateValue_doc.
      destruct (decide (i = k)) as [->|Hne].
      * rewrite lookup_insert_eq.
        destruct (validatedCell _ _ _ _ _) as [y|]; cbn.
        -- by rewrite lookup_insert_eq.
        -- by rewrite IH1, Hi.
      * rewrite (lookup_insert_ne m') by done.
        destruct (validatedCell _ _ _ _ _) as [y|]; rewrite ?lookup_insert_ne by done; apply IH1.
    + eapply extends_trans; [exact IH2|]. apply validateValue_extends.
Qed.
(** *** Validate, loop by loop *)

Section ValidateFacts.
Variable vd : Schema -> Doc -> Doc -> string -> Errs.


Lemma validate_eq s changes base isRoot :
  validate vd s changes base isRoot =
    let errs := checkFields (validate vd) (Fields s) changes base in
    let doc := mergeDoc changes base in
    let errs :=
      if isRoot then mergeFieldErrors errs (vd s changes doc "")
      else errs in
    let '(doc, errs) := validateDoc (subsOf vd s) changes base doc errs in
    checkSize s doc errs.
Proof. destruct s. reflexivity. Qed.

Lemma addFieldError_last errs field err :
  exists l, addFieldError errs field err !! field = Some (l ++ [err]).
Proof. unfold addFieldError. eexists. apply lookup_insert_eq. Qed.


Lemma checkSize_spec s doc errs :
  match checkSize s doc errs with
  | (None, errs') =>
      sizeError s errs' /\ (len doc < MinLen s \/ (0 < MaxLen s /\ MaxLen s < len doc))
  | (Some doc', errs') =>
      doc' = doc /\ errs' = errs /\
      MinLen s <= len doc /\ (0 < MaxLen s -> len doc <= MaxLen s)
  end.
Proof.
  unfold checkSize, sizeError.
  destruct (Z.ltb_spec (len doc) (MinLen s)).
  { split; [|lia]. destruct (addFieldError_last errs "" (EStr (fewer (MinLen s)))) as [l Hl]. eauto 6. }
  destruct (Z.ltb_spec 0 (MaxLen s)); cbn [andb]; [|repeat split; lia].
  destruct (Z.ltb_spec (MaxLen s) (len doc)).
  { split; [|lia]. destruct (addFieldError_last errs "" (EStr (more (MaxLen s)))) as [l Hl]. eauto 6. }
  repeat split; lia.
Qed.

(** C1: for every schema and every pair of changes and base, Validate
    returns either no document, with a size error under the root key (the
    empty field name), or a document whose number of fields is at least
    MinLen and, when MaxLen > 0, at most MaxLen. *)
Theorem Validate_size_bounds s changes base :
  match Validate vd s changes base with
  | (None, errs) => sizeError s errs
  | (Some doc, errs) =>
      MinLen s <= len doc /\ (0 < MaxLen s -> len doc <= MaxLen s)
  end.
Proof.
  unfold Validate. rewrite validate_eq. cbv zeta.
  destruct (validateDoc _ _ _ _ _) as [doc errs].
  pose proof (checkSize_spec s doc errs) as H.
  destruct (checkSize s doc errs) as [[doc'|] errs']; [|tauto].
  destruct H as (-> & _ & H). exact H.
Qed.

(** A nil document always comes with an error: the branch of the third loop
    that stores the sub-document never stores a nil map. *)
Lemma validate_nil_errs s changes base isRoot errs :
  validate vd s changes base isRoot = (None, errs) -> 0 < len errs.
Proof.
  rewrite validate_eq. cbv zeta.
  destruct (validateDoc _ _ _ _ _) as [d e].
  pose proof (checkSize_spec s d e) as H. intros Heq. rewrite Heq in H.
  destruct H as [(l & msg & Hl & _) _].
  unfold len. destruct (decide (size errs = 0%nat)) as [Hz|Hnz]; [|lia].
  apply map_size_empty_iff in Hz. subst errs. by rewrite lookup_empty in Hl.
Qed.

(** *** The first loop of validate, entry by entry *)

Lemma addFieldError_lookup_ne errs field err k :
  field <> k -> addFieldError errs field err !! k = errs !! k.
Proof. intros H. unfold addFieldError. by rewrite lookup_insert_ne. Qed.

Lemma checkField_frame def changes base field errs k :
  field <> k -> checkField def changes base field errs !! k = errs !! k.
Proof.
  intros H. unfold checkField. case_all; rewrite ?addFieldError_lookup_ne by done; reflexivity.
Qed.

Lemma checkSub_frame sv def changes base field errs k :
  field <> k -> checkSub sv def changes base field errs !! k = errs !! k.
Proof.
  intros H. unfold checkSub. case_all; rewrite ?addFieldError_lookup_ne by done; reflexivity.
Qed.

Lemma checkField_extends def changes base field errs :
  extends errs (checkField def changes base field errs).
Proof.
  unfold checkField. case_all;
    repeat first [ apply extends_refl | apply addFieldError_extends
                 | (eapply extends_trans; [|apply addFieldError_extends]) ].
Qed.

Lemma checkSub_extends sv def changes base field errs :
  extends errs (checkSub sv def changes base field errs).
Proof.
  unfold checkSub. case_all; first [apply extends_refl | apply addFieldError_extends].
Qed.

(** A read-only field present in the changes gets the "read-only" error,
    first in its list. *)
Lemma checkFields_readonly sv (fields : gmap string Field) changes base k def :
  fields !! k = Some def -> ReadOnly def = true -> is_Some (changes !! k) ->
  exists l, checkFields sv fields changes base !! k = Some (EStr "read-only" :: l).
Proof.
  intros Hk Hro [v Hv]. unfold checkFields.
  set (step := fun field (def : Field) (errs : Errs) =>
         checkSub sv def changes base field (checkField def changes base field errs)).
  cut (match fields !! k with
       | Some d => d = def ->
                   exists l, map_fold step ∅ fields !! k = Some (EStr "read-only" :: l)
       | None => map_fold step ∅ fields !! k = None
       end).
  { rewrite Hk. intros H. by apply H. }
  apply (map_fold_weak_ind (fun (r : Errs) (m : gmap string Field) =>
    match m !! k with
    | Some d => d = def -> exists l, r !! k = Some (EStr "read-only" :: l)
    | None => r !! k = None
    end)); [by rewrite !lookup_empty|]. subst step. cbv beta.
  - intros i x m r Hi IH. destruct (decide (i = k)) as [->|Hne].
    + rewrite lookup_insert_eq. intros ->. rewrite Hi in IH.
      assert (checkField def changes base k r !! k = Some [EStr "read-only"] \/
              checkField def changes base k r !! k
              = Some ([EStr "read-only"] ++ [EStr "required"])) as Hcf.
      { assert (addFieldError r k (EStr "read-only") !! k = Some [EStr "read-only"]) as Hr1.
        { unfold addFieldError. by rewrite lookup_insert_eq, IH. }
        unfold checkField. rewrite Hro, (index_lookup changes k), Hv. cbn [snd].
        case_all; auto; right; unfold addFieldError at 1; by rewrite lookup_insert_eq, Hr1. }
      destruct Hcf as [Hcf|Hcf];
        destruct (checkSub_extends sv def changes base k
                    (checkField def changes base k r) k _ Hcf) as [l' ->]; eauto.
    + rewrite lookup_insert_ne by done. rewrite checkSub_frame, checkField_frame by done.
      exact IH.
Qed.

Lemma subsOf_lookup s k :
  subsOf vd s !! k = (fun def : Field => (def, validate vd <$> FSchema def)) <$> (Fields s !! k).
Proof. unfold subsOf. apply lookup_fmap. Qed.

(** What Validate returns, in terms of its loops. *)
Lemma Validate_doc s changes base doc :
  (Validate vd s changes base).1 = Some doc ->
  doc = (validateDoc (subsOf vd s) changes base (mergeDoc changes base)
           (mergeFieldErrors (checkFields (validate vd) (Fields s) changes base)
              (vd s changes (mergeDoc changes base) ""))).1.
Proof.
  unfold Validate. rewrite validate_eq. cbv zeta.
  destruct (validateDoc _ _ _ _ _) as [d e]. cbn [fst].
  pose proof (checkSize_spec s d e) as H.
  destruct (checkSize s d e) as [[d'|] e']; cbn [fst]; [|done].
  destruct H as (-> & _). congruence.
Qed.

Lemma Validate_errs_extends s changes base :
  extends (checkFields (validate vd) (Fields s) changes base) (Validate vd s changes base).2.
Proof.
  unfold Validate. rewrite validate_eq. cbv zeta.
  pose proof (validateDoc_spec (subsOf vd s) changes base (mergeDoc changes base)
     (mergeFieldErrors (checkFields (validate vd) (Fields s) changes base)
        (vd s changes (mergeDoc changes base) ""))) as [_ H].
  destruct (validateDoc _ _ _ _ _) as [d e]. cbn [snd] in H.
  eapply extends_trans; [apply mergeFieldErrors_extends|].
  eapply extends_trans; [exact H|]. apply checkSize_extends.
Qed.


Lemma validatedCell_leaf def changes base k v :
  default v (validatedCell (Some (def, None)) changes base k v) = normalise def v.
Proof.
  unfold validatedCell, validateValue, normalise.
  destruct (Validator def) as [f|]; [|cbn [fst]; by rewrite lookup_empty].
  destruct (f v); cbn [fst]; by rewrite ?lookup_insert_eq, ?lookup_empty.
Qed.

Lemma accepts_normalise def v : accepts def v -> normalise def v = v.
Proof.
  unfold accepts, normalise. destruct (Validator def); [|done]. by intros ->.
Qed.

(** C3, as amended: for a schema whose fields carry no nested Schema and no
    OnUpdate hook, and an original whose fields are all declared, are left
    as they are by their validators and satisfy the size bounds, Prepare in
    update mode on a payload equal to the original yields an empty
    change-set (and the original as base), and Validate then returns the
    original. *)
Theorem Prepare_Validate_unchanged s ctx (orig : Doc) replace :
  (forall k def, Fields s !! k = Some def -> FSchema def = None /\ OnUpdate def = None) ->
  (forall k v, orig !! k = Some v -> exists def, Fields s !! k = Some def /\ accepts def v) ->
  MinLen s <= len orig -> (0 < MaxLen s -> len orig <= MaxLen s) ->
  Prepare s ctx orig (Some orig) replace = Ok (∅, orig) /\
  (Validate vd s ∅ orig).1 = Some orig.
Proof.
  intros Hplain Hdecl Hmin Hmax. split.
  - pose proof (Prepare_spec s ctx orig (Some orig) replace) as H.
    assert (forall k def, Fields s !! k = Some def ->
              prepareCell (fun sub p o => Prepare sub ctx p o replace)
                          ctx orig (Some orig) replace k def = Ok (None, orig !! k)) as Hcell.
    { intros k def Hk. destruct (Hplain k def Hk) as [Hs Hu].
      apply prepareCell_unchanged; [done..|].
      intros v Hv. destruct (Hdecl k v Hv) as (def' & Hk' & Hacc). congruence. }
    destruct (Prepare s ctx orig (Some orig) replace) as [[c b]|msg].
    + f_equal. f_equal; apply map_eq; intros k; specialize (H k);
        destruct (Fields s !! k) as [def|] eqn:Hk.
      * rewrite (Hcell k def Hk) in H. rewrite lookup_empty. congruence.
      * destruct H as [-> _]. rewrite lookup_empty.
        destruct (orig !! k) as [v|] eqn:Hv; [|done].
        destruct (Hdecl k v Hv) as (def & ? & _). congruence.
      * rewrite (Hcell k def Hk) in H. congruence.
      * destruct H as [_ ->].
        destruct (orig !! k) as [v|] eqn:Hv; [|done].
        destruct (Hdecl k v Hv) as (def & ? & _). congruence.
    + destruct H as (k & def & Hk & H). rewrite (Hcell k def Hk) in H. done.
  - unfold Validate. rewrite validate_eq. cbv zeta. rewrite mergeDoc_empty.
    pose proof (validateDoc_spec (subsOf vd s) ∅ orig orig
       (mergeFieldErrors (checkFields (validate vd) (Fields s) ∅ orig)
          (vd s ∅ orig ""))) as [H _].
    destruct (validateDoc _ _ _ _ _) as [d e]. cbn [fst] in H.
    assert (d = orig) as ->.
    { apply map_eq; intros k. rewrite H.
      destruct (orig !! k) as [v|] eqn:Hv; [|done].
      destruct (Hdecl k v Hv) as (def & Hk & Hacc). destruct (Hplain k def Hk) as [Hs _].
      rewrite subsOf_lookup, Hk. cbn. rewrite Hs. cbn.
      by rewrite validatedCell_leaf, accepts_normalise. }
    pose proof (checkSize_spec s orig e) as Hsz.
    destruct (checkSize s orig e) as [[d'|] e']; cbn [fst].
    + by destruct Hsz as (-> & _).
    + destruct Hsz as [_ [?|[? ?]]]; lia.
Qed.



(** The entry of a field without sub-schema that the payload of an update
    submits. *)
Lemma prepareCell_update prepare ctx (payload orig : Doc) replace k def v v' :
  FSchema def = None -> payload !! k = Some v -> validates def v v' -> v' <> Tombstone ->
  prepareCell prepare ctx payload (Some orig) replace k def =
    if decide (orig !! k = Some v')
    then Ok (None, Some (hooked (OnUpdate def) ctx v'))
    else Ok (Some (hooked (OnUpdate def) ctx v'), orig !! k).
Proof.
  intros Hs Hp Hval Htomb.
  unfold prepareCell, prepareStep, prepareField, prepareSub, prepareHook, hooked.
  rewrite Hs, (index_lookup payload k), Hp, (index_lookup orig k).
  unfold validates in Hval. unfold DeepEqual.
  destruct (Validator def) as [f|]; [rewrite Hval|subst v'];
    destruct (orig !! k) as [o|] eqn:Ho; cbn;
    repeat case_bool_decide; repeat case_decide; simplify_eq; cbn;
    destruct (OnUpdate def) as [h|]; cbn;
    rewrite ?index_lookup, ?lookup_insert_eq, ?lookup_empty; cbn;
    repeat case_bool_decide; simplify_eq; cbn;
    rewrite ?lookup_insert_eq, ?lookup_empty, ?lookup_delete_eq; try done.
Qed.

(** The entry Validate returns for a field without sub-schema. *)
Lemma Validate_doc_leaf s changes base doc k def :
  (Validate vd s changes base).1 = Some doc ->
  Fields s !! k = Some def -> FSchema def = None ->
  doc !! k = normalise def <$> mergeDoc changes base !! k.
Proof.
  intros Hdoc Hk Hs. rewrite (Validate_doc _ _ _ _ Hdoc).
  pose proof (validateDoc_spec (subsOf vd s) changes base (mergeDoc changes base)
     (mergeFieldErrors (checkFields (validate vd) (Fields s) changes base)
        (vd s changes (mergeDoc changes base) ""))) as [H _].
  rewrite H. destruct (mergeDoc changes base !! k) as [x|]; [|done]. cbn.
  rewrite subsOf_lookup, Hk. cbn. rewrite Hs. cbn. by rewrite validatedCell_leaf.
Qed.

(** C4, as amended: in update mode, a payload that submits a ReadOnly field
    (without nested Schema) with a value that, as normalised by the field's
    Validator, differs from the original's enters the change-set, gets a
    "read-only" error from Validate, and the document Validate returns holds
    the submitted value, not the original's.  A payload that repeats the
    original value leaves the field out of the change-set, where the
    read-only check looks, and the value stays. *)
Theorem readonly_update s ctx (payload orig : Doc) replace k def v v' changes base :
  Fields s !! k = Some def -> ReadOnly def = true -> FSchema def = None ->
  payload !! k = Some v -> validates def v v' -> v' <> Tombstone ->
  Prepare s ctx payload (Some orig) replace = Ok (changes, base) ->
  let w := hooked (OnUpdate def) ctx v' in
  let res := Validate vd s changes base in
  (orig !! k <> Some v' ->
     changes !! k = Some w /\
     (exists l, res.2 !! k = Some l /\ EStr "read-only" ∈ l) /\
     (w <> Tombstone -> forall doc, res.1 = Some doc -> doc !! k = Some (normalise def w))) /\
  (orig !! k = Some v' ->
     changes !! k = None /\ base !! k = Some w /\
     (forall doc, res.1 = Some doc -> doc !! k = Some (normalise def w))).
Proof.
  intros Hk Hro Hs Hp Hval Htomb HP w res.
  pose proof (Prepare_spec s ctx payload (Some orig) replace) as H.
  rewrite HP in H. specialize (H k). rewrite Hk in H.
  rewrite (prepareCell_update _ ctx payload orig replace k def v v' Hs Hp Hval Htomb) in H.
  fold w in H. split; intros Ho.
  - rewrite decide_False in H by done. injection H as Hc Hb.
    split; [done|]. split.
    + destruct (checkFields_readonly (validate vd) (Fields s) changes base k def Hk Hro)
        as [l Hl]; [by rewrite <- Hc|].
      destruct (Validate_errs_extends s changes base k _ Hl) as [l' Hl'].
      exists ((EStr "read-only" :: l) ++ l'). split; [exact Hl'|].
      apply elem_of_app. left. apply list_elem_of_here.
    + intros Hw doc Hdoc.
      rewrite (Validate_doc_leaf s changes base doc k def Hdoc Hk Hs).
      rewrite mergeDoc_lookup, <- Hc. by rewrite bool_decide_eq_false_2.
  - rewrite decide_True in H by done. injection H as Hc Hb.
    split; [done|]. split; [done|]. intros doc Hdoc.
    rewrite (Validate_doc_leaf s changes base doc k def Hdoc Hk Hs).
    by rewrite mergeDoc_lookup, <- Hc, <- Hb.
Qed.

End ValidateFacts.

(** ** Prepare and Validate on concrete documents *)

(** C3, counterexample: a field with an OnUpdate hook.  The payload equals
    the original, the change-set is empty, and the document Validate
    returns differs from the original. *)
Lemma Prepare_Validate_counterexample :
  let original : Doc := {[ "updated" := VInt 1 ]} in
  Prepare stampedSchema Background original (Some original) false
    = Ok (∅, {[ "updated" := VInt 2 ]}) /\
  Validate noDeps stampedSchema ∅ {[ "updated" := VInt 2 ]}
    = (Some {[ "updated" := VInt 2 ]}, ∅) /\
  ({[ "updated" := VInt 2 ]} : Doc) <> original.
Proof.
  cbv zeta. split; [vm_compute; reflexivity|]. split; [vm_compute; reflexivity|].
  intros H. apply (f_equal (fun m : Doc => m !! "updated")) in H.
  rewrite !lookup_singleton_eq in H. discriminate.
Qed.

(** The other conditions of the amended C3 are needed as well: a nested
    Schema, a field the schema does not declare and a validator that
    rewrites the value each leave a change. *)
Example Prepare_unchanged_nested :
  Prepare nestedSchema Background paris (Some paris) false
    = Ok (paris, {[ "address" := VMap ∅ ]}).
Proof. vm_compute. reflexivity. Qed.

Example Prepare_unchanged_undeclared :
  Prepare addressSchema Background (Payload bob) (Some (Payload bob)) false
    = Ok (Payload bob, ∅).
Proof. vm_compute. reflexivity. Qed.

Example Prepare_unchanged_rewritten :
  let s := mkSchema "" {[ "name" := mkField false false false VNil None None (Some upper) None ]} 0 0 in
  Prepare s Background {[ "name" := VString "Bob" ]} (Some {[ "name" := VString "Bob" ]}) false
    = Ok ({[ "name" := VString "BOB" ]}, {[ "name" := VString "Bob" ]}).
Proof. vm_compute. reflexivity. Qed.

(** The fields of the schema of the users are plain. *)
Lemma userSchema_fields k def :
  Fields userSchema !! k = Some def -> def = plainField.
Proof.
  cbn [Fields userSchema]. intros H.
  apply lookup_insert_Some in H as [[_ <-]|[_ H]]; [done|].
  by apply lookup_singleton_Some in H as [_ <-].
Qed.

(** The amended C3 on the stored document of Bob. *)
Lemma Prepare_Validate_unchanged_witness :
  Prepare userSchema Background (Payload bob) (Some (Payload bob)) false
    = Ok (∅, Payload bob) /\
  (Validate noDeps userSchema ∅ (Payload bob)).1 = Some (Payload bob).
Proof.
  apply (Prepare_Validate_unchanged noDeps userSchema Background (Payload bob) false).
  - intros k def H. by rewrite (userSchema_fields k def H).
  - intros k v H. exists plainField. split; [|done].
    cbn [Payload bob] in H.
    apply lookup_insert_Some in H as [[<- _]|[_ H]]; [reflexivity|].
    apply lookup_singleton_Some in H as [<- _]. reflexivity.
  - vm_compute. discriminate.
  - vm_compute. discriminate.
Defined.

(** C4, counterexample: the identity is ReadOnly.  A payload that repeats
    the stored identity raises no read-only error; a payload with another
    identity raises it, and the document returned holds the new identity,
    not the original one. *)
Lemma readonly_counterexample :
  (Prepare lockedSchema Background (Payload bob) (Some (Payload bob)) false
     = Ok (∅, Payload bob) /\
   Validate noDeps lockedSchema ∅ (Payload bob) = (Some (Payload bob), ∅)) /\
  (Prepare lockedSchema Background {[ "id" := VString "9"; "name" := VString "Bob" ]}
           (Some (Payload bob)) false
     = Ok ({[ "id" := VString "9" ]}, Payload bob) /\
   Validate noDeps lockedSchema {[ "id" := VString "9" ]} (Payload bob)
     = (Some {[ "id" := VString "9"; "name" := VString "Bob" ]},
        {[ "id" := [EStr "read-only"] ]})).
Proof. repeat split; vm_compute; reflexivity. Qed.

(** The amended C4 on a payload that gives Bob the identity "9". *)
Lemma readonly_update_witness :
  let changes : Doc := {[ "id" := VString "9" ]} in
  let res := Validate noDeps lockedSchema changes (Payload bob) in
  (Payload bob !! "id" <> Some (VString "9") ->
     changes !! "id" = Some (VString "9") /\
     (exists l, res.2 !! "id" = Some l /\ EStr "read-only" ∈ l) /\
     (VString "9" <> Tombstone ->
      forall doc, res.1 = Some doc -> doc !! "id" = Some (VString "9"))) /\
  (Payload bob !! "id" = Some (VString "9") ->
     changes !! "id" = None /\ Payload bob !! "id" = Some (VString "9") /\
     (forall doc, res.1 = Some doc -> doc !! "id" = Some (VString "9"))).
Proof.
  apply (readonly_update noDeps lockedSchema Background
           {[ "id" := VString "9"; "name" := VString "Bob" ]} (Payload bob) false
           "id" readOnlyField (VString "9") (VString "9")
           {[ "id" := VString "9" ]} (Payload bob)).
  - reflexivity.
  - reflexivity.
  - reflexivity.
  - reflexivity.
  - reflexivity.
  - discriminate.
  - vm_compute. reflexivity.
Defined.

(** C5 (code bug): the check for [replace=true] without original sits
    inside the loop over the declared fields; on a schema without fields
    Prepare returns, with the payload as change-set. *)
Theorem Prepare_replace_without_original_returns ctx (payload : Doc) :
  Prepare (mkSchema "" ∅ 0 0) ctx payload None true = Ok (payload, ∅).
Proof. apply Prepare_no_fields. Qed.

(** *** The sub-original *)

(** The sub-schema step reads the original's entry only through a pointer
    to a map: what a sub-document (a map) of the original holds makes no
    difference. *)
Lemma prepareSub_map_original prepare def payload (orig : Doc) field changes base m m' :
  orig !! field = Some (VMap m) ->
  prepareSub prepare def payload (Some orig) field changes base =
  prepareSub prepare def payload (Some (<[field := VMap m']> orig)) field changes base.
Proof.
  intros H. unfold prepareSub. rewrite !index_lookup, H, lookup_insert_eq. reflexivity.
Qed.

(** C6 (code bug): the original holds the sub-document {city: Paris} under
    a field with a nested Schema and the payload repeats it.  The recursive
    Prepare runs against an empty sub-original: the whole sub-payload comes
    back as a change and the base of the field is empty.  Against the
    sub-document, as happens when the original holds a pointer to the map,
    the change would be empty and the base the sub-document. *)
Theorem Prepare_sub_original_not_used :
  Prepare nestedSchema Background paris (Some paris) false
    = Ok ({[ "address" := VMap {[ "city" := VString "Paris" ]} ]},
          {[ "address" := VMap ∅ ]}) /\
  Prepare nestedSchema Background paris
          (Some {[ "address" := VMapPtr (Some {[ "city" := VString "Paris" ]}) ]}) false
    = Ok ({[ "address" := VMap ∅ ]},
          {[ "address" := VMap {[ "city" := VString "Paris" ]} ]}).
Proof. split; vm_compute; reflexivity. Qed.

(** ** The orchestrator: facts *)

Section OrchestratorFacts.
Context {Lookup Store : Type}.
Variable validateDependencies : Schema -> Doc -> Doc -> string -> Errs.
Variable parseRFC1123 : string -> option Z.
Variable formatID : value -> string.
Variable NewItem : option Doc -> option Item * option Error.
Variable decodePayload : requestHandler -> Doc * option Error.
Variable checkIntegrityRequest : requestHandler -> option Item -> option Error.
Variable checkReferences :
  requestHandler -> Context -> option Doc -> Schema -> Store -> option Error.

Abbreviation handle :=
  (handleRoute (Lookup:=Lookup) (Store:=Store) validateDependencies parseRFC1123 formatID
               NewItem decodePayload checkIntegrityRequest checkReferences).

(** *** Collection DELETE *)

(** When the lookup of the route fails, the error is sent and the backend
    is cleared all the same, with the lookup that came with the error. *)
Lemma handleListRequestDELETE_lookup_error (r : requestHandler) ctx
    (rt : @route Lookup Store) lk e store log :
  lookup rt = (lk, Some e) ->
  exists log',
    handleListRequestDELETE r ctx rt (store, log) =
      (Ok tt, ((Clear_ (handler (resource rt)) lk ctx store).2,
               log ++ SendError (Some e) :: CallClear lk :: log')).
Proof.
  intros Hl. unfold handleListRequestDELETE. rewrite Hl.
  unfold mbind, M_bind, sendError, emit, call. cbn.
  destruct (Clear_ _ lk ctx store) as [[total [err|]] store']; cbn.
  - exists [SendError (Some err)]. by rewrite <- !app_assoc.
  - exists [SetHeader "X-Total" (pretty total); Send 204 (Some ∅)].
    unfold send, setHeader, emit. cbn. by rewrite <- !app_assoc.
Qed.

(** *** OPTIONS *)

(** OPTIONS only sets headers: the backend is not called and the store is
    left as it is. *)
Lemma handleRoute_OPTIONS (r : requestHandler) ctx (rt : @route Lookup Store) store log :
  Method (req r) = "OPTIONS" ->
  exists headers,
    handle r ctx rt (store, log) = (Ok tt, (store, log ++ headers)) /\
    Forall isSetHeader headers.
Proof.
  intros Hm. unfold handleRoute. rewrite Hm.
  destruct (index (fields rt) "id").2; cbn [bool_decide decide_rel].
  - rewrite bool_decide_eq_true_2 by done.
    unfold mbind, M_bind, setHeader, emit, ret, mret, M_ret.
    destruct (isModeAllowed _ Update); cbn.
    + eexists [_; _]. rewrite <- !app_assoc. split; [reflexivity|].
      repeat constructor.
    + eexists [_]. split; [reflexivity|]. repeat constructor.
  - rewrite bool_decide_eq_true_2 by done.
    eexists [_]. split; [reflexivity|]. repeat constructor.
Qed.

Lemma isModeAllowed_spec c mode : isModeAllowed c mode = true <-> mode ∈ AllowedModes c.
Proof. unfold isModeAllowed. apply bool_decide_eq_true. Qed.

(** DELETE is listed for an item exactly when Update is allowed. *)
Lemma itemMethods_DELETE c :
  "DELETE" ∈ itemMethods c <-> isModeAllowed c Update = true.
Proof.
  unfold itemMethods.
  destruct (isModeAllowed c Read), (isModeAllowed c Create), (isModeAllowed c Replace),
    (isModeAllowed c Update); cbn; split; intros H; try done;
    try (repeat (apply elem_of_cons in H as [H|H]; [discriminate|]);
         by apply elem_of_nil in H);
    repeat first [apply list_elem_of_here | apply list_elem_of_further].
Qed.

(** *** Errors come before mutations, except on DELETE *)

(** Symbolic run of a handler: unfold the monad and split on every test. *)
Ltac run :=
  repeat first
    [ progress (unfold mbind, M_bind, mret, M_ret, ret, emit, lift, readStore, call,
                  sendError, sendItem, sendList, send, setHeader, items, deref)
    | progress cbv beta iota zeta
    | progress cbn [fst snd]
    | match goal with
      | |- context [match ?x with _ => _ end] =>
          lazymatch x with
          | context [match _ with _ => _ end] => fail
          | _ => destruct x eqn:?
          end
      end ].

(** The events added are those written after [log]; check their order. *)
Ltac close :=
  match goal with
  | |- exists evs, ?l = ?log ++ evs /\ _ =>
      first [ exists []; split; [by rewrite app_nil_r | reflexivity]
            | eexists; split; [rewrite <- ?app_assoc; reflexivity | reflexivity] ]
  end.

Lemma handleItemRequestPATCH_orderly (r : requestHandler) ctx (rt : @route Lookup Store) :
  orderly (handleItemRequestPATCH validateDependencies NewItem decodePayload
             checkIntegrityRequest checkReferences r ctx rt).
Proof. intros store log. unfold handleItemRequestPATCH. run. all: close. Qed.

Lemma handleItemRequestPUT_orderly (r : requestHandler) ctx (rt : @route Lookup Store) :
  orderly (handleItemRequestPUT validateDependencies NewItem decodePayload
             checkIntegrityRequest checkReferences r ctx rt).
Proof. intros store log. unfold handleItemRequestPUT. run. all: close. Qed.

Lemma handleListRequestPOST_orderly (r : requestHandler) ctx (rt : @route Lookup Store) :
  orderly (handleListRequestPOST validateDependencies formatID NewItem decodePayload
             checkReferences r ctx rt).
Proof. intros store log. unfold handleListRequestPOST. run. all: close. Qed.

Lemma handleListRequestGET_orderly (r : requestHandler) ctx (rt : @route Lookup Store) :
  orderly (handleListRequestGET r ctx rt).
Proof. intros store log. unfold handleListRequestGET. run. all: close. Qed.

Lemma handleItemRequestGET_orderly (r : requestHandler) ctx (rt : @route Lookup Store) :
  orderly (handleItemRequestGET parseRFC1123 r ctx rt).
Proof. intros store log. unfold handleItemRequestGET. run. all: close. Qed.

(** Apart from DELETE, no request mutates the store after an error
    response: lookup, parameter, validation and precondition errors all
    come before the one call to Insert or Update, if it is reached. *)
Lemma handleRoute_orderly (r : requestHandler) ctx (rt : @route Lookup Store) :
  Method (req r) <> "DELETE" ->
  orderly (handleRoute validateDependencies parseRFC1123 formatID NewItem decodePayload
             checkIntegrityRequest checkReferences r ctx rt).
Proof.
  intros Hm. unfold handleRoute.
  rewrite !(bool_decide_eq_false_2 (Method (req r) = "DELETE")) by done.
  repeat match goal with
         | |- orderly (if ?c then _ else _) => destruct c eqn:?
         end;
    first [ apply handleItemRequestPATCH_orderly | apply handleItemRequestPUT_orderly
          | apply handleListRequestPOST_orderly | apply handleListRequestGET_orderly
          | apply handleItemRequestGET_orderly
          | (intros store log; run; close) ].
Qed.

(** *** Collection GET *)

(** C8, as amended: on a GET (not HEAD) of a collection whose resource has
    no default page size, a [page] parameter that parses to a number other
    than 1 with no [limit] parameter is answered with the error 422
    "Cannot use `page' parameter with no `limit' paramter on a resource with
    no default pagination size". *)
Theorem handleListRequestGET_page_without_limit (r : requestHandler) ctx
    (rt : @route Lookup Store) store log page :
  skipBody r = false ->
  PaginationDefaultLimit (conf (resource rt)) <= 0 ->
  ParseUint32 (Get (Query (req r)) "page") = Some page -> page <> 1 ->
  Get (Query (req r)) "limit" = "" ->
  exists store' rest,
    handleListRequestGET r ctx rt (store, log) =
      (Ok tt, (store', log ++ SendError (Some (mkError 422 pageWithoutLimit None)) :: rest)).
Proof.
  intros Hskip Hlimit Hpage Hne Hl. unfold handleListRequestGET.
  rewrite Hskip. cbn [negb].
  assert (Get (Query (req r)) "page" <> "") as Hp.
  { intros Heq. rewrite Heq in Hpage. discriminate. }
  rewrite (bool_decide_eq_true_2 _ Hp), Hpage, Hl.
  rewrite (bool_decide_eq_false_2 ("" <> "")) by (intros H; by apply H).
  destruct (Z.ltb_spec 0 (PaginationDefaultLimit (conf (resource rt)))); [lia|].
  replace (page =? 1) with false by (symmetry; by apply Z.eqb_neq).
  cbn [Z.eqb andb negb].
  unfold mbind, M_bind, sendError, emit. cbn.
  destruct (lookup rt) as [lk [e|]]; cbn.
  - eexists _, [_]. by rewrite <- !app_assoc.
  - unfold call. destruct (Find _ lk page (-1) ctx store) as [[l [e|]] store']; cbn;
      unfold sendList, emit; cbn; eexists _, [_; _]; by rewrite <- !app_assoc.
Qed.

(** *** Item GET *)

(** C7, as amended: when the lookup of the route resolves and the backend's
    Find succeeds, an item GET is answered NotFound if no item matches; 304
    without a body if the If-None-Match header equals the item's ETag or the
    If-Modified-Since header parses to a time at or after the item's
    Updated; 400 if the ETag differs and the If-Modified-Since header is
    present but is not a date; and otherwise with the item and status 200. *)
Theorem handleItemRequestGET_response (r : requestHandler) ctx
    (rt : @route Lookup Store) lk l store store' log :
  lookup rt = (lk, None) ->
  Find (handler (resource rt)) lk 1 1 ctx store = ((Some l, None), store') ->
  exists resp,
    handleItemRequestGET parseRFC1123 r ctx rt (store, log) =
      (Ok tt, (store', log ++ [CallFind lk 1 1; resp])) /\
    match Items l with
    | [] => resp = SendError (Some NotFoundError)
    | item :: _ =>
        let match_ := Get (Header (req r)) "If-None-Match" in
        let since := Get (Header (req r)) "If-Modified-Since" in
        (match_ = Etag item -> resp = Send 304 None) /\
        (forall t, since <> "" -> parseRFC1123 since = Some t -> Updated item <= t ->
                   resp = Send 304 None) /\
        (match_ <> Etag item -> since <> "" -> parseRFC1123 since = None ->
           resp = SendError (Some (mkError 400 "Invalid If-Modified-Since header" None))) /\
        (match_ <> Etag item ->
           since = "" \/ (exists t, parseRFC1123 since = Some t /\ t < Updated item) ->
           resp = SendItem 200 (Some item))
    end.
Proof.
  intros Hl Hf. unfold handleItemRequestGET. rewrite Hl.
  unfold mbind, M_bind, ret, mret, M_ret, call. cbn. rewrite Hf. cbn.
  destruct (Items l) as [|item its] eqn:Hits; cbn.
  { eexists. rewrite <- !app_assoc. split; reflexivity. }
  set (match_ := Get (Header (req r)) "If-None-Match").
  set (since := Get (Header (req r)) "If-Modified-Since").
  case_bool_decide as Hm; [|case_bool_decide as Hs].
  - eexists. unfold send, emit. cbn. rewrite <- !app_assoc. split; [reflexivity|].
    repeat split; intros; done.
  - destruct (parseRFC1123 since) as [t|] eqn:Ht.
    + destruct (Z.eqb_spec (Updated item) t) as [Heq|Hneq];
        [|destruct (Z.ltb_spec (Updated item) t) as [Hlt|Hge]]; cbn [orb];
        eexists; unfold send, sendItem, emit; cbn; rewrite <- !app_assoc;
        (split; [reflexivity|]); repeat split; intros;
        repeat match goal with
               | H : _ \/ _ |- _ => destruct H
               | H : exists _, _ |- _ => destruct H
               | H : _ /\ _ |- _ => destruct H
               end; simplify_eq; try done; lia.
    + eexists; unfold sendError, emit; cbn; rewrite <- !app_assoc.
      split; [reflexivity|]. repeat split; intros;
        repeat match goal with
               | H : _ \/ _ |- _ => destruct H
               | H : exists _, _ |- _ => destruct H
               | H : _ /\ _ |- _ => destruct H
               end; simplify_eq; done.
  - eexists; unfold sendItem, emit; cbn; rewrite <- !app_assoc.
    split; [reflexivity|]. repeat split; intros; done.
Qed.

End OrchestratorFacts.

(** *** The orchestrator on concrete requests *)

(** C2 (code bug): a DELETE on a collection whose lookup fails sends the
    error of the lookup and then calls Clear on the backend all the same;
    here the two stored items are removed after the error response. *)
Theorem collection_DELETE_clears_after_lookup_error
    vd parse fmt newItem decode checkIntegrity checkRefs :
  handleRoute vd parse fmt newItem decode checkIntegrity checkRefs
              (request "DELETE" ∅ ∅) Background brokenRoute ([bob; carl], []) =
    (Ok tt, ([], [SendError (Some badLookup); CallClear None;
                  SetHeader "X-Total" "2"; Send 204 (Some ∅)])).
Proof. vm_compute. reflexivity. Qed.

(** The same slip on an item URL: the lookup fails, the error is sent, Find
    runs with the nil lookup that came with the error, and the first item it
    returns is deleted. *)
Example item_DELETE_deletes_after_lookup_error
    vd parse fmt newItem decode checkRefs :
  handleRoute vd parse fmt newItem decode (fun _ _ => None) checkRefs
              (request "DELETE" ∅ ∅) Background brokenItem ([bob; carl], []) =
    (Ok tt, ([carl], [SendError (Some badLookup); CallFind None 1 1;
                      CallDelete (Some bob); Send 204 (Some ∅)])).
Proof. vm_compute. reflexivity. Qed.

(** C9 (code bug): on an item URL whose resource allows Read and Update but
    not Delete, OPTIONS lists DELETE among the allowed methods, while a
    DELETE on the same route is refused. *)
Theorem item_OPTIONS_lists_DELETE_for_Update
    vd parse fmt newItem decode checkIntegrity checkRefs :
  handleRoute vd parse fmt newItem decode checkIntegrity checkRefs
              (request "OPTIONS" ∅ ∅) Background (item1 [Read; Update]) ([bob], []) =
    (Ok tt, ([bob], [SetHeader "Allow-Patch" "application/json";
                     SetHeader "Allow" "HEAD, GET, PATCH, DELETE"])) /\
  handleRoute vd parse fmt newItem decode checkIntegrity checkRefs
              (request "DELETE" ∅ ∅) Background (item1 [Read; Update]) ([bob], []) =
    (Ok tt, ([bob], [SendError (Some InvalidMethodError)])).
Proof. split; vm_compute; reflexivity. Qed.

(** Conversely, with Delete allowed and Update not, DELETE is accepted and
    not listed. *)
Example item_OPTIONS_omits_DELETE_for_Delete
    vd parse fmt newItem decode checkRefs :
  handleRoute vd parse fmt newItem decode (fun _ _ => None) checkRefs
              (request "OPTIONS" ∅ ∅) Background (item1 [Read; Delete]) ([bob], []) =
    (Ok tt, ([bob], [SetHeader "Allow" "HEAD, GET"])) /\
  handleRoute vd parse fmt newItem decode (fun _ _ => None) checkRefs
              (request "DELETE" ∅ ∅) Background (item1 [Read; Delete]) ([bob], []) =
    (Ok tt, ([], [CallFind (Some (VString "1")) 1 1; CallDelete (Some bob);
                  Send 204 (Some ∅)])).
Proof. split; vm_compute; reflexivity. Qed.

(** C8, counterexample: GET of a collection without default page size with
    [?page=2] and no limit.  The error sent does not carry the message
    "Cannot use `page' parameter without `limit'", and the list is sent
    after it. *)
Lemma page_without_limit_counterexample :
  let log := (handleListRequestGET (request "GET" {[ "page" := "2" ]} ∅) Background
                (collection [List] 0) ([bob; carl], [])).2.2 in
  log = [SendError (Some (mkError 422 pageWithoutLimit None));
         CallFind None 2 (-1);
         SendList (Some (mkItemList [bob; carl]))] /\
  SendError (Some (mkError 422 "Cannot use `page' parameter without `limit'" None)) ∉ log.
Proof.
  assert ((handleListRequestGET (request "GET" {[ "page" := "2" ]} ∅) Background
             (collection [List] 0) ([bob; carl], [])).2.2 =
          [SendError (Some (mkError 422 pageWithoutLimit None));
           CallFind None 2 (-1);
           SendList (Some (mkItemList [bob; carl]))]) as H
    by (vm_compute; reflexivity).
  cbv zeta. rewrite H. split; [reflexivity|].
  intros Hin. repeat (apply elem_of_cons in Hin as [Hin|Hin]; [discriminate Hin|]).
  by apply elem_of_nil in Hin.
Qed.

(** The amended C8 on the same request. *)
Lemma page_without_limit_witness :
  exists store' rest,
    handleListRequestGET (request "GET" {[ "page" := "2" ]} ∅) Background
      (collection [List] 0) ([bob; carl], []) =
      (Ok tt, (store', [] ++ SendError (Some (mkError 422 pageWithoutLimit None)) :: rest)).
Proof.
  apply (handleListRequestGET_page_without_limit
           (request "GET" {[ "page" := "2" ]} ∅) Background (collection [List] 0)
           [bob; carl] [] 2).
  - reflexivity.
  - cbn. lia.
  - reflexivity.
  - lia.
  - reflexivity.
Defined.

(** C7, counterexample: the item is found, its ETag is not the one of the
    request, and the If-Modified-Since header is not a date: the answer is
    the error 400, not the item with status 200. *)
Lemma item_GET_counterexample :
  handleItemRequestGET exampleDate
    (request "GET" ∅ {[ "If-Modified-Since" := "yesterday" ]}) Background
    (item1 [Read]) ([bob; carl], []) =
  (Ok tt, ([bob; carl],
           [CallFind (Some (VString "1")) 1 1;
            SendError (Some (mkError 400 "Invalid If-Modified-Since header" None))])).
Proof. vm_compute. reflexivity. Qed.

(** The amended C7 on a request whose If-Modified-Since is later than the
    modification time of the item: the answer is 304. *)
Lemma item_GET_witness :
  exists resp,
    handleItemRequestGET exampleDate
      (request "GET" ∅ {[ "If-Modified-Since" := "Thu, 01 Jan 1970 00:03:20 GMT" ]})
      Background (item1 [Read]) ([bob; carl], []) =
      (Ok tt, ([bob; carl], [] ++ [CallFind (Some (VString "1")) 1 1; resp])) /\
    resp = Send 304 None.
Proof.
  destruct (handleItemRequestGET_response exampleDate
              (request "GET" ∅ {[ "If-Modified-Since" := "Thu, 01 Jan 1970 00:03:20 GMT" ]})
              Background (item1 [Read]) (Some (VString "1")) (mkItemList [bob])
              [bob; carl] [bob; carl] [] eq_refl eq_refl) as (resp & Hrun & Hresp).
  exists resp. split; [exact Hrun|].
  cbn [Items] in Hresp. destruct Hresp as (_ & Hsince & _).
  apply (Hsince 200); [discriminate|reflexivity|cbn; lia].
Defined.

(** ** Prepare and Validate write to their own maps only *)

Section MemFacts.
Import Mem.

Implicit Types (h : heap) (l : loc).

Lemma safe_ret (h0 : heap) {A} (a : A) (Q : A -> Prop) : Q a -> safe h0 (mret a) Q.
Proof. intros HQ h Hh. by split. Qed.

Lemma safe_bind (h0 : heap) {A B} (m : H A) (f : A -> H B) (P : A -> Prop) (Q : B -> Prop) :
  safe h0 m P -> (forall a, P a -> safe h0 (f a) Q) -> safe h0 (m ≫= f) Q.
Proof.
  intros Hm Hf h Hh. destruct (Hm h Hh) as [H1 H2].
  unfold mbind, H_bind. destruct (m h) as [[a|msg] h1]; cbn [fst snd] in *.
  - by apply Hf.
  - by split.
Qed.

Lemma safe_weaken (h0 : heap) {A} (m : H A) (P Q : A -> Prop) :
  safe h0 m P -> (forall a, P a -> Q a) -> safe h0 m Q.
Proof.
  intros Hm HPQ h Hh. destruct (Hm h Hh) as [H1 H2]. split; [done|].
  destruct (m h).1; auto.
Qed.

Lemma safe_seq (h0 : heap) {A B} (m : H A) (k : H B) (Q : B -> Prop) :
  safe h0 m (fun _ => True) -> safe h0 k Q -> safe h0 (m ;; k) Q.
Proof. intros Hm Hk. apply (safe_bind h0 m _ (fun _ => True)); auto. Qed.

Lemma safe_skip (h0 : heap) : safe h0 skip (fun _ => True).
Proof. by apply safe_ret. Qed.

Lemma safe_panic (h0 : heap) {A} msg (Q : A -> Prop) : safe h0 (panic msg) Q.
Proof. intros h Hh. by split. Qed.

Lemma safe_readHeap (h0 : heap) : safe h0 readHeap (fun _ => True).
Proof. intros h Hh. by split. Qed.

Lemma safe_getDoc (h0 : heap) l : safe h0 (getDoc l) (fun _ => True).
Proof. intros h Hh. unfold getDoc. destruct (h !! l) as [[m|m]|]; by split. Qed.

Lemma safe_readMap (h0 : heap) (m : mapref) : safe h0 (readMap m) (fun _ => True).
Proof. destruct m as [l|]; [apply safe_getDoc|by apply safe_ret]. Qed.

Lemma safe_getErrs (h0 : heap) l : safe h0 (getErrs l) (fun _ => True).
Proof. intros h Hh. unfold getErrs. destruct (h !! l) as [[m|m]|]; by split. Qed.

(** A new object sits at a location the heap did not use. *)
Lemma safe_alloc (h0 : heap) o : safe h0 (alloc o) (fun l => h0 !! l = None).
Proof.
  intros h Hh. unfold alloc. cbn [fst snd].
  assert (h !! fresh (dom h) = None) as Hfresh.
  { apply not_elem_of_dom. apply is_fresh. }
  split.
  - etrans; [exact Hh|]. by apply insert_subseteq.
  - destruct (h0 !! fresh (dom h)) as [o'|] eqn:Ho; [|done].
    pose proof (lookup_weaken _ _ _ _ Ho Hh). congruence.
Qed.

(** A write to a location outside [h0] leaves [h0] as it is. *)
Lemma insert_outside (h0 : heap) h l o : h0 !! l = None -> h0 ⊆ h -> h0 ⊆ <[l := o]> h.
Proof.
  intros Hl Hh. apply map_subseteq_spec. intros i x Hi.
  rewrite lookup_insert_ne; [by eapply lookup_weaken|]. intros ->. congruence.
Qed.

Lemma safe_setDoc (h0 : heap) l k v : h0 !! l = None -> safe h0 (setDoc l k v) (fun _ => True).
Proof.
  intros Hl h Hh. unfold setDoc. destruct (h !! l) as [[m|m]|]; cbn [fst snd]; split;
    auto using insert_outside.
Qed.

Lemma safe_delDoc (h0 : heap) l k : h0 !! l = None -> safe h0 (delDoc l k) (fun _ => True).
Proof.
  intros Hl h Hh. unfold delDoc. destruct (h !! l) as [[m|m]|]; cbn [fst snd]; split;
    auto using insert_outside.
Qed.

Lemma safe_appendErrs (h0 : heap) l field items :
  h0 !! l = None -> safe h0 (appendErrs l field items) (fun _ => True).
Proof.
  intros Hl h Hh. unfold appendErrs. destruct (h !! l) as [[m|m]|]; cbn [fst snd]; split;
    auto using insert_outside.
Qed.

Lemma safe_addFieldError (h0 : heap) l field err :
  h0 !! l = None -> safe h0 (addFieldError l field err) (fun _ => True).
Proof. apply safe_appendErrs. Qed.

Lemma safe_range (h0 : heap) {A} (m : gmap string A) (body : string -> A -> H unit) :
  (forall k v, m !! k = Some v -> safe h0 (body k v) (fun _ => True)) ->
  safe h0 (range m body) (fun _ => True).
Proof.
  unfold range.
  apply (map_fold_weak_ind (fun (r : H unit) (m' : gmap string A) =>
    (forall k v, m' !! k = Some v -> safe h0 (body k v) (fun _ => True)) ->
    safe h0 r (fun _ => True))).
  - intros _. apply safe_skip.
  - intros i x m' r Hi IH Hbody. apply safe_seq.
    + apply IH. intros k v Hk. apply Hbody. rewrite lookup_insert_ne; [done|].
      intros ->. congruence.
    + apply Hbody. apply lookup_insert_eq.
Qed.

Lemma safe_mergeFieldErrors (h0 : heap) l mergeErrs :
  h0 !! l = None -> safe h0 (mergeFieldErrors l mergeErrs) (fun _ => True).
Proof. intros Hl. apply safe_range. intros k v _. by apply safe_appendErrs. Qed.

(** One step of a frame proof: peel the head of the computation. *)
Ltac safe_step :=
  lazymatch goal with
  | |- safe _ skip _ => apply safe_skip
  | |- safe _ (mret _) _ => apply safe_ret; try done
  | |- safe _ (panic _) _ => apply safe_panic
  | |- safe _ (setDoc _ _ _) _ => apply safe_setDoc; assumption
  | |- safe _ (delDoc _ _) _ => apply safe_delDoc; assumption
  | |- safe _ (addFieldError _ _ _) _ => apply safe_addFieldError; assumption
  | |- safe _ (appendErrs _ _ _) _ => apply safe_appendErrs; assumption
  | |- safe _ (mergeFieldErrors _ _) _ => apply safe_mergeFieldErrors; assumption
  | |- safe _ (getDoc _ ≫= _) _ =>
      eapply safe_bind; [apply safe_getDoc | intros ? _; cbv beta]
  | |- safe _ (readMap _ ≫= _) _ =>
      eapply safe_bind; [apply safe_readMap | intros ? _; cbv beta]
  | |- safe _ (getErrs _ ≫= _) _ =>
      eapply safe_bind; [apply safe_getErrs | intros ? _; cbv beta]
  | |- safe _ (readHeap ≫= _) _ =>
      eapply safe_bind; [apply safe_readHeap | intros ? _; cbv beta]
  | |- safe _ (alloc _ ≫= _) _ =>
      eapply safe_bind; [apply safe_alloc | intros ? ?; cbv beta]
  | |- safe _ (let '(_, _) := ?x in _) _ => destruct x
  | |- safe _ (match ?x with _ => _ end) _ => destruct x
  | |- safe _ (match ?x with _ => _ end ≫= _) _ => destruct x
  | |- safe _ (_ ≫= _) _ =>
      eapply (safe_bind _ _ _ (fun _ => True)); [| intros ? _; cbv beta]
  end.

(** *** What a call leaves allocated *)

Lemma keeps_ret {A} (a : A) : keeps (mret a : H A).
Proof. by intros h l. Qed.

Lemma keeps_bind {A B} (m : H A) (f : A -> H B) :
  keeps m -> (forall a, keeps (f a)) -> keeps (m ≫= f).
Proof.
  intros Hm Hf h l. destruct (Hm h l) as [H1 H2].
  unfold mbind, H_bind. destruct (m h) as [[a|msg] h1]; cbn [fst snd] in *.
  - destruct (Hf a h1 l) as [H3 H4]. split; auto.
  - by split.
Qed.

Lemma keeps_panic {A} msg : keeps (panic msg : H A).
Proof. by intros h l. Qed.

Lemma keeps_readHeap : keeps readHeap.
Proof. by intros h l. Qed.

Lemma keeps_getDoc l : keeps (getDoc l).
Proof. intros h l'. unfold getDoc. by destruct (h !! l) as [[m|m]|]. Qed.

Lemma keeps_getErrs l : keeps (getErrs l).
Proof. intros h l'. unfold getErrs. by destruct (h !! l) as [[m|m]|]. Qed.

Lemma keeps_readMap (m : mapref) : keeps (readMap m).
Proof. destruct m as [l|]; [apply keeps_getDoc|apply keeps_ret]. Qed.

(** Writing an object over one of the same kind. *)
Lemma insert_same_kind h l o o' :
  h !! l = Some o ->
  match o, o' with
  | ODoc _, ODoc _ | OErrs _, OErrs _ => True
  | _, _ => False
  end ->
  forall l', (isDoc h l' -> isDoc (<[l := o']> h) l') /\
             (isErrs h l' -> isErrs (<[l := o']> h) l').
Proof.
  intros Hl Hkind l'. unfold isDoc, isErrs. destruct (decide (l = l')) as [<-|Hne].
  - rewrite lookup_insert_eq, Hl.
    destruct o, o'; try done; split; intros [x Hx]; simplify_eq; eauto.
  - by rewrite lookup_insert_ne.
Qed.

Lemma keeps_alloc o : keeps (alloc o).
Proof.
  intros h l. unfold alloc, isDoc, isErrs. cbn [fst snd].
  assert (h !! fresh (dom h) = None) as Hfresh.
  { apply not_elem_of_dom. apply is_fresh. }
  destruct (decide (fresh (dom h) = l)) as [<-|Hne].
  - rewrite Hfresh. split; intros [m Hm]; discriminate.
  - by rewrite lookup_insert_ne.
Qed.

Lemma keeps_setDoc l k v : keeps (setDoc l k v).
Proof.
  intros h l'. unfold setDoc. destruct (h !! l) as [[m|m]|] eqn:Hl; cbn [fst snd]; try done.
  by apply (insert_same_kind h l (ODoc m)).
Qed.

Lemma keeps_delDoc l k : keeps (delDoc l k).
Proof.
  intros h l'. unfold delDoc. destruct (h !! l) as [[m|m]|] eqn:Hl; cbn [fst snd]; try done.
  by apply (insert_same_kind h l (ODoc m)).
Qed.

Lemma keeps_appendErrs l field items : keeps (appendErrs l field items).
Proof.
  intros h l'. unfold appendErrs.
  destruct (h !! l) as [[m|m]|] eqn:Hl; cbn [fst snd]; try done.
  by apply (insert_same_kind h l (OErrs m)).
Qed.

Lemma keeps_addFieldError l field err : keeps (addFieldError l field err).
Proof. apply keeps_appendErrs. Qed.

Lemma keeps_range {A} (m : gmap string A) (body : string -> A -> H unit) :
  (forall k v, m !! k = Some v -> keeps (body k v)) -> keeps (range m body).
Proof.
  unfold range.
  apply (map_fold_weak_ind (fun (r : H unit) (m' : gmap string A) =>
    (forall k v, m' !! k = Some v -> keeps (body k v)) -> keeps r)).
  - intros _. apply keeps_ret.
  - intros i x m' r Hi IH Hbody. apply keeps_bind.
    + apply IH. intros k v Hk. apply Hbody. rewrite lookup_insert_ne; [done|].
      intros ->. congruence.
    + intros _. apply Hbody. apply lookup_insert_eq.
Qed.

Lemma keeps_mergeFieldErrors l mergeErrs : keeps (mergeFieldErrors l mergeErrs).
Proof. apply keeps_range. intros k v _. apply keeps_appendErrs. Qed.

(** One step of a proof of [keeps]: peel the head of the computation. *)
Ltac keeps_step :=
  lazymatch goal with
  | |- keeps skip => apply keeps_ret
  | |- keeps (mret _) => apply keeps_ret
  | |- keeps (panic _) => apply keeps_panic
  | |- keeps readHeap => apply keeps_readHeap
  | |- keeps (setDoc _ _ _) => apply keeps_setDoc
  | |- keeps (delDoc _ _) => apply keeps_delDoc
  | |- keeps (addFieldError _ _ _) => apply keeps_addFieldError
  | |- keeps (appendErrs _ _ _) => apply keeps_appendErrs
  | |- keeps (mergeFieldErrors _ _) => apply keeps_mergeFieldErrors
  | |- keeps (getDoc _) => apply keeps_getDoc
  | |- keeps (getErrs _) => apply keeps_getErrs
  | |- keeps (readMap _) => apply keeps_readMap
  | |- keeps (alloc _) => apply keeps_alloc
  | |- keeps (let '(_, _) := ?x in _) => destruct x
  | |- keeps (match ?x with _ => _ end) => destruct x
  | |- keeps (match ?x with _ => _ end ≫= _) => destruct x
  | |- keeps (_ ≫= _) => apply keeps_bind; [| intros ?; cbv beta]
  end.

Lemma yields_ret {A} (a : A) (Q : A -> Prop) : Q a -> yields (mret a) Q.
Proof. by intros HQ h. Qed.

(** What comes last decides the result. *)
Lemma yields_bind {A B} (m : H A) (f : A -> H B) (Q : B -> Prop) :
  (forall a, yields (f a) Q) -> yields (m ≫= f) Q.
Proof.
  intros Hf h. unfold mbind, H_bind. destruct (m h) as [[a|msg] h1]; cbn [fst snd].
  - apply Hf.
  - done.
Qed.

(** Two allocations in a row give two distinct locations that the heap
    did not hold, each with its object. *)
Lemma alloc_alloc {A} (o1 o2 : object) (k : loc -> loc -> H A) (h : heap) :
  exists l1 l2 h2,
    (l1 ← alloc o1; l2 ← alloc o2; k l1 l2) h = k l1 l2 h2 /\
    h !! l1 = None /\ h !! l2 = None /\ l1 <> l2 /\
    h2 !! l1 = Some o1 /\ h2 !! l2 = Some o2.
Proof.
  set (l1 := fresh (dom h)). set (h1 := <[l1 := o1]> h).
  set (l2 := fresh (dom h1)).
  exists l1, l2, (<[l2 := o2]> h1).
  assert (h !! l1 = None) as H1 by (apply not_elem_of_dom, is_fresh).
  assert (h1 !! l2 = None) as H2 by (apply not_elem_of_dom, is_fresh).
  assert (l1 <> l2) as Hne.
  { intros Heq. rewrite <- Heq in H2. subst h1. by rewrite lookup_insert_eq in H2. }
  split; [reflexivity|]. split; [done|]. split.
  { subst h1. by rewrite lookup_insert_ne in H2. }
  split; [done|]. split.
  - subst h1. rewrite lookup_insert_ne by done. apply lookup_insert_eq.
  - apply lookup_insert_eq.
Qed.

Section Frame.
Variable DeepEqual : heap -> value -> value -> bool.
Variable validateDependencies :
  Schema -> heap -> mapref -> loc -> string -> gmap string (list err_item).

Lemma safe_prepareField (h0 : heap) def payload original replace field changes base :
  h0 !! changes = None -> h0 !! base = None ->
  safe h0 (prepareField DeepEqual def payload original replace field changes base)
       (fun _ => True).
Proof. intros Hc Hb. unfold prepareField. repeat safe_step. Qed.

Lemma safe_prepareHook (h0 : heap) ctx def original field changes base :
  h0 !! changes = None -> h0 !! base = None ->
  safe h0 (prepareHook ctx def original field changes base) (fun _ => True).
Proof. intros Hc Hb. unfold prepareHook. repeat safe_step. Qed.


Lemma safe_prepareSub (h0 : heap) prepare def payload original field changes base :
  (forall sub p o, FSchema def = Some sub -> safe h0 (prepare sub p o) (fresh2 h0)) ->
  h0 !! changes = None -> h0 !! base = None ->
  safe h0 (prepareSub prepare def payload original field changes base) (fun _ => True).
Proof.
  intros Hrec Hc Hb. unfold prepareSub.
  safe_step. destruct (index _ field) as [value found].
  destruct (FSchema def) as [sub|] eqn:Hsub; [|safe_step].
  eapply (safe_bind _ _ _ (fun _ => True)).
  { repeat safe_step. }
  intros subOriginal _. destruct found.
  - destruct value;
      lazymatch goal with
      | |- safe _ skip _ => safe_step
      | |- _ => idtac
      end.
    eapply safe_bind; [by apply Hrec|]. intros [c b'] [? ?]. repeat safe_step.
  - safe_step. eapply safe_bind; [by apply Hrec|]. intros [c b'] [? ?]. repeat safe_step.
Qed.

Lemma depth_unfold s :
  depth s = S (map_fold (fun _ (def : Field) (acc : nat) =>
                           match FSchema def with
                           | Some sub => Nat.max (depth sub) acc
                           | None => acc
                           end) 0%nat (Fields s)).
Proof. destruct s; reflexivity. Qed.

(** A nested schema is less deep than the schema that holds it. *)
Lemma depth_sub s k def sub :
  Fields s !! k = Some def -> FSchema def = Some sub -> (depth sub < depth s)%nat.
Proof.
  intros Hk Hsub. rewrite (depth_unfold s). apply Nat.lt_succ_r. revert Hk.
  apply (map_fold_weak_ind (fun (r : nat) (m : gmap string Field) =>
    m !! k = Some def -> (depth sub <= r)%nat)); [by rewrite lookup_empty|].
  intros i x m r Hi IH Hk. destruct (decide (i = k)) as [->|Hne].
  - rewrite lookup_insert_eq in Hk. injection Hk as ->. rewrite Hsub. lia.
  - rewrite lookup_insert_ne in Hk by done. specialize (IH Hk).
    destruct (FSchema x); lia.
Qed.

Lemma Prepare_unfold s ctx payload original replace :
  Prepare DeepEqual s ctx payload original replace =
    (changes ← alloc (ODoc ∅);
     base ← alloc (ODoc ∅);
     range (Fields s) (fun field def =>
       prepareField DeepEqual def payload original replace field changes base ;;
       prepareSub (fun sub p o => Prepare DeepEqual sub ctx p o replace)
                  def payload original field changes base ;;
       prepareHook ctx def original field changes base) ;;
     pm ← readMap payload;
     range pm (fun field value =>
       match Fields s !! field with
       | None => setDoc changes field value
       | Some _ => skip
       end) ;;
     mret (changes, base)).
Proof. destruct s; reflexivity. Qed.

(** Prepare leaves every map that existed before the call as it was, and
    returns two maps that did not exist. *)
Lemma Prepare_safe (h0 : heap) s ctx payload original replace :
  safe h0 (Prepare DeepEqual s ctx payload original replace) (fresh2 h0).
Proof.
  remember (depth s) as n eqn:Hn. revert s Hn payload original.
  induction n as [n IH] using lt_wf_ind. intros s -> payload original.
  rewrite Prepare_unfold.
  safe_step. rename a into changes. safe_step. rename a into base.
  apply safe_seq.
  { apply safe_range. intros field def Hfield.
    apply safe_seq; [by apply safe_prepareField|].
    apply safe_seq; [|by apply safe_prepareHook].
    apply safe_prepareSub; [|done..].
    intros sub p o Hsub. eapply IH; [|reflexivity]. by eapply depth_sub. }
  safe_step. apply safe_seq.
  { apply safe_range. intros field value _. repeat safe_step. }
  by apply safe_ret.
Qed.


Lemma safe_checkField (h0 : heap) def changes base field errs :
  h0 !! errs = None ->
  safe h0 (checkField def changes base field errs) (fun _ => True).
Proof. intros He. unfold checkField. repeat safe_step. Qed.

Lemma safe_checkSub (h0 : heap) subValidate def changes base field errs :
  (forall sub c b r, FSchema def = Some sub ->
     safe h0 (subValidate sub c b r) (freshResult h0)) ->
  h0 !! errs = None ->
  safe h0 (checkSub subValidate def changes base field errs) (fun _ => True).
Proof.
  intros Hrec He. unfold checkSub.
  destruct (FSchema def) as [sub|] eqn:Hsub; [|safe_step].
  safe_step. safe_step. destruct (_ && _); [|safe_step].
  safe_step. eapply safe_bind; [by apply Hrec|]. intros [d e] [_ ?]. repeat safe_step.
Qed.

Lemma safe_validateValue (h0 : heap) d changes base field v doc errs :
  (forall def subValidate c b r, d = Some (def, Some subValidate) ->
     safe h0 (subValidate c b r) (freshResult h0)) ->
  h0 !! doc = None -> h0 !! errs = None ->
  safe h0 (validateValue d changes base field v doc errs) (fun _ => True).
Proof.
  intros Hrec Hd He. unfold validateValue.
  destruct d as [[def [subValidate|]]|]; [| repeat safe_step..].
  safe_step. safe_step. safe_step.
  eapply (safe_bind _ _ _ (fun _ => True)); [repeat safe_step|]. intros subChanges _.
  safe_step.
  eapply (safe_bind _ _ _ (fun _ => True)); [repeat safe_step|]. intros subBase _.
  eapply safe_bind; [by eapply Hrec|]. intros [sd se] [Hsd Hse]. cbn [fst snd] in *.
  safe_step. destruct (0 <? len _); [by apply safe_addFieldError|].
  by apply safe_setDoc.
Qed.

Lemma validate_unfold s changes base isRoot :
  validate validateDependencies s changes base isRoot =
    (doc ← alloc (ODoc ∅);
     errs ← alloc (OErrs ∅);
     range (Fields s) (fun field def =>
       checkField def changes base field errs ;;
       checkSub (validate validateDependencies) def changes base field errs) ;;
     bm ← readMap base;
     range bm (fun field value => setDoc doc field value) ;;
     cm ← readMap changes;
     range cm (fun field value =>
       if bool_decide (value = Tombstone) then delDoc doc field
       else setDoc doc field value) ;;
     (if isRoot then
        h ← readHeap;
        mergeFieldErrors errs (validateDependencies s h changes doc "")
      else skip) ;;
     let subs := (fun def : Field =>
                    (def, validate validateDependencies <$> FSchema def)) <$> Fields s in
     dm ← getDoc doc;
     range dm (fun field value =>
       validateValue (subs !! field) changes base field value doc errs) ;;
     dm ← getDoc doc;
     let l := len dm in
     if l <? MinLen s then
       addFieldError errs "" (EStr (fewer (MinLen s))) ;;
       mret (None, errs)
     else if (0 <? MaxLen s) && (MaxLen s <? l) then
       addFieldError errs "" (EStr (more (MaxLen s))) ;;
       mret (None, errs)
     else mret (Some doc, errs)).
Proof. destruct s; reflexivity. Qed.

(** validate leaves every map that existed before the call as it was, and
    returns a document and an error map that did not exist. *)
Lemma validate_safe (h0 : heap) s changes base isRoot :
  safe h0 (validate validateDependencies s changes base isRoot) (freshResult h0).
Proof.
  remember (depth s) as n eqn:Hn. revert s Hn changes base isRoot.
  induction n as [n IH] using lt_wf_ind. intros s -> changes base isRoot.
  rewrite validate_unfold.
  safe_step. rename a into doc. safe_step. rename a into errs.
  apply safe_seq.
  { apply safe_range. intros field def Hfield.
    apply safe_seq; [by apply safe_checkField|].
    apply safe_checkSub; [|done].
    intros sub c b r Hsub. eapply IH; [|reflexivity]. by eapply depth_sub. }
  safe_step. apply safe_seq.
  { apply safe_range. intros field value _. by apply safe_setDoc. }
  safe_step. apply safe_seq.
  { apply safe_range. intros field value _. repeat safe_step. }
  apply safe_seq.
  { destruct isRoot; repeat safe_step. }
  cbv zeta. safe_step. apply safe_seq.
  { apply safe_range. intros field value _. apply safe_validateValue; [|done..].
    intros def subValidate c b r Hlook.
    rewrite lookup_fmap in Hlook.
    destruct (Fields s !! field) as [def'|] eqn:Hfield; [|done].
    cbn in Hlook. injection Hlook as -> Hsv.
    destruct (FSchema def) as [sub|] eqn:Hsub; [|done].
    cbn in Hsv. injection Hsv as <-.
    eapply IH; [|reflexivity]. by eapply depth_sub. }
  safe_step.
  repeat lazymatch goal with
         | |- safe _ (if ?c then _ else _) _ => destruct c
         end.
  - apply safe_seq; [by apply safe_addFieldError|]. apply safe_ret. by split.
  - apply safe_seq; [by apply safe_addFieldError|]. apply safe_ret. by split.
  - apply safe_ret. split; [|done]. cbn. by intros ? [= <-].
Qed.

(** *** Prepare and validate keep what is allocated, and return the maps
    they allocate *)

Lemma keeps_prepareField def payload original replace field changes base :
  keeps (prepareField DeepEqual def payload original replace field changes base).
Proof. unfold prepareField. repeat keeps_step. Qed.

Lemma keeps_prepareHook ctx def original field changes base :
  keeps (prepareHook ctx def original field changes base).
Proof. unfold prepareHook. repeat keeps_step. Qed.

Lemma keeps_prepareSub prepare def payload original field changes base :
  (forall sub p o, FSchema def = Some sub -> keeps (prepare sub p o)) ->
  keeps (prepareSub prepare def payload original field changes base).
Proof.
  intros Hrec. unfold prepareSub.
  keeps_step; [keeps_step|]. destruct (index _ field) as [value found].
  destruct (FSchema def) as [sub|] eqn:Hsub; [|keeps_step].
  apply keeps_bind; [repeat keeps_step|]. intros subOriginal. destruct found.
  - destruct value;
      lazymatch goal with
      | |- keeps skip => keeps_step
      | |- _ => idtac
      end.
    apply keeps_bind; [by apply Hrec|]. intros [c b']. repeat keeps_step.
  - apply keeps_bind; [keeps_step|]. intros empty.
    apply keeps_bind; [by apply Hrec|]. intros [c b']. repeat keeps_step.
Qed.

(** Prepare after its two allocations. *)
Abbreviation prepareLoops s ctx payload original replace changes base :=
  (range (Fields s) (fun field def =>
     prepareField DeepEqual def payload original replace field changes base ;;
     prepareSub (fun sub p o => Prepare DeepEqual sub ctx p o replace)
                def payload original field changes base ;;
     prepareHook ctx def original field changes base) ;;
   pm ← readMap payload;
   range pm (fun field value =>
     match Fields s !! field with
     | None => setDoc changes field value
     | Some _ => skip
     end) ;;
   mret (changes, base)).

Lemma keeps_prepareLoops s ctx payload original replace changes base :
  (forall field def sub p o,
     Fields s !! field = Some def -> FSchema def = Some sub ->
     keeps (Prepare DeepEqual sub ctx p o replace)) ->
  keeps (prepareLoops s ctx payload original replace changes base).
Proof.
  intros Hrec. apply keeps_bind.
  { apply keeps_range. intros field def Hfield.
    apply keeps_bind; [apply keeps_prepareField|]. intros _.
    apply keeps_bind; [|intros _; apply keeps_prepareHook].
    apply keeps_prepareSub. intros sub p o Hsub. by eapply Hrec. }
  intros _. apply keeps_bind; [apply keeps_readMap|]. intros pm.
  apply keeps_bind; [|intros _; apply keeps_ret].
  apply keeps_range. intros field value _. repeat keeps_step.
Qed.

Lemma Prepare_keeps s ctx payload original replace :
  keeps (Prepare DeepEqual s ctx payload original replace).
Proof.
  remember (depth s) as n eqn:Hn. revert s Hn payload original.
  induction n as [n IH] using lt_wf_ind. intros s -> payload original.
  rewrite Prepare_unfold.
  apply keeps_bind; [apply keeps_alloc|]. intros changes.
  apply keeps_bind; [apply keeps_alloc|]. intros base.
  apply keeps_prepareLoops. intros field def sub p o Hfield Hsub.
  eapply IH; [|reflexivity]. by eapply depth_sub.
Qed.

(** What Prepare returns are the two maps it has allocated. *)
Lemma yields_prepareLoops s ctx payload original replace changes base :
  yields (prepareLoops s ctx payload original replace changes base)
         (fun r => r = (changes, base)).
Proof.
  apply yields_bind. intros _. apply yields_bind. intros pm.
  apply yields_bind. intros _. by apply yields_ret.
Qed.

Lemma keeps_checkField def changes base field errs :
  keeps (checkField def changes base field errs).
Proof. unfold checkField. repeat keeps_step. Qed.

Lemma keeps_checkSub subValidate def changes base field errs :
  (forall sub c b r, FSchema def = Some sub -> keeps (subValidate sub c b r)) ->
  keeps (checkSub subValidate def changes base field errs).
Proof.
  intros Hrec. unfold checkSub.
  destruct (FSchema def) as [sub|] eqn:Hsub; [|keeps_step].
  keeps_step; [keeps_step|]. keeps_step; [keeps_step|].
  destruct (_ && _); [|keeps_step].
  keeps_step; [keeps_step|]. apply keeps_bind; [by apply Hrec|].
  intros [d e]. repeat keeps_step.
Qed.

Lemma keeps_validateValue d changes base field v doc errs :
  (forall def subValidate c b r, d = Some (def, Some subValidate) ->
     keeps (subValidate c b r)) ->
  keeps (validateValue d changes base field v doc errs).
Proof.
  intros Hrec. unfold validateValue.
  destruct d as [[def [subValidate|]]|]; [| repeat keeps_step..].
  keeps_step; [keeps_step|]. keeps_step; [keeps_step|]. keeps_step; [keeps_step|].
  apply keeps_bind; [repeat keeps_step|]. intros subChanges.
  keeps_step; [keeps_step|].
  apply keeps_bind; [repeat keeps_step|]. intros subBase.
  apply keeps_bind; [by eapply Hrec|]. intros [sd se]. repeat keeps_step.
Qed.

(** validate after its two allocations. *)
Abbreviation validateLoops s changes base isRoot doc errs :=
  (range (Fields s) (fun field def =>
     checkField def changes base field errs ;;
     checkSub (validate validateDependencies) def changes base field errs) ;;
   bm ← readMap base;
   range bm (fun field value => setDoc doc field value) ;;
   cm ← readMap changes;
   range cm (fun field value =>
     if bool_decide (value = Tombstone) then delDoc doc field
     else setDoc doc field value) ;;
   (if isRoot then
      h ← readHeap;
      mergeFieldErrors errs (validateDependencies s h changes doc "")
    else skip) ;;
   let subs := (fun def : Field =>
                  (def, validate validateDependencies <$> FSchema def)) <$> Fields s in
   dm ← getDoc doc;
   range dm (fun field value =>
     validateValue (subs !! field) changes base field value doc errs) ;;
   dm ← getDoc doc;
   let l := len dm in
   if l <? MinLen s then
     addFieldError errs "" (EStr (fewer (MinLen s))) ;;
     mret (None, errs)
   else if (0 <? MaxLen s) && (MaxLen s <? l) then
     addFieldError errs "" (EStr (more (MaxLen s))) ;;
     mret (None, errs)
   else mret (Some doc, errs)).

Lemma keeps_validateLoops s changes base (isRoot : bool) doc errs :
  (forall field def sub c b r,
     Fields s !! field = Some def -> FSchema def = Some sub ->
     keeps (validate validateDependencies sub c b r)) ->
  keeps (validateLoops s changes base isRoot doc errs).
Proof.
  intros Hrec. apply keeps_bind.
  { apply keeps_range. intros field def Hfield.
    apply keeps_bind; [apply keeps_checkField|]. intros _.
    apply keeps_checkSub. intros sub c b r Hsub. by eapply Hrec. }
  intros _. apply keeps_bind; [apply keeps_readMap|]. intros bm.
  apply keeps_bind.
  { apply keeps_range. intros field value _. apply keeps_setDoc. }
  intros _. apply keeps_bind; [apply keeps_readMap|]. intros cm.
  apply keeps_bind.
  { apply keeps_range. intros field value _. repeat keeps_step. }
  intros _. apply keeps_bind.
  { destruct isRoot; repeat keeps_step. }
  intros _. cbv zeta. apply keeps_bind; [apply keeps_getDoc|]. intros dm.
  apply keeps_bind.
  { apply keeps_range. intros field value _. apply keeps_validateValue.
    intros def subValidate c b r Hlook.
    rewrite lookup_fmap in Hlook.
    destruct (Fields s !! field) as [def'|] eqn:Hfield; [|done].
    cbn in Hlook. injection Hlook as -> Hsv.
    destruct (FSchema def) as [sub|] eqn:Hsub; [|done].
    cbn in Hsv. injection Hsv as <-. by eapply Hrec. }
  intros _. apply keeps_bind; [apply keeps_getDoc|]. intros dm'.
  repeat lazymatch goal with
         | |- keeps (if ?c then _ else _) => destruct c
         end; repeat keeps_step.
Qed.

Lemma validate_keeps s changes base isRoot :
  keeps (validate validateDependencies s changes base isRoot).
Proof.
  remember (depth s) as n eqn:Hn. revert s Hn changes base isRoot.
  induction n as [n IH] using lt_wf_ind. intros s -> changes base isRoot.
  rewrite validate_unfold.
  apply keeps_bind; [apply keeps_alloc|]. intros doc.
  apply keeps_bind; [apply keeps_alloc|]. intros errs.
  apply keeps_validateLoops. intros field def sub c b r Hfield Hsub.
  eapply IH; [|reflexivity]. by eapply depth_sub.
Qed.

(** What validate returns are the error map it has allocated and, unless
    nil, the document it has allocated. *)
Lemma yields_validateLoops s changes base (isRoot : bool) doc errs :
  yields (validateLoops s changes base isRoot doc errs)
         (fun r => (r.1 = None \/ r.1 = Some doc) /\ r.2 = errs).
Proof.
  do 6 (apply yields_bind; intros ?). cbv zeta.
  do 3 (apply yields_bind; intros ?).
  repeat lazymatch goal with
         | |- yields (if ?c then _ else _) _ => destruct c
         end.
  - apply yields_bind. intros _. apply yields_ret. cbn. auto.
  - apply yields_bind. intros _. apply yields_ret. cbn. auto.
  - apply yields_ret. cbn. auto.
Qed.

(** Prepare: the two maps returned are distinct, were not in the heap
    before the call, and hold documents after it. *)
Lemma Prepare_result s ctx payload original replace (h : heap) :
  match Prepare DeepEqual s ctx payload original replace h with
  | (Ok (changes, base), h') =>
      h !! changes = None /\ h !! base = None /\ changes <> base /\
      isDoc h' changes /\ isDoc h' base
  | (Panic _, _) => True
  end.
Proof.
  rewrite Prepare_unfold.
  destruct (alloc_alloc (ODoc ∅) (ODoc ∅)
              (fun changes base => prepareLoops s ctx payload original replace changes base) h)
    as (c & b & h2 & Heq & Hc & Hb & Hne & Hc2 & Hb2).
  rewrite Heq.
  pose proof (yields_prepareLoops s ctx payload original replace c b h2) as Hy.
  assert (keeps (prepareLoops s ctx payload original replace c b)) as Hk.
  { apply keeps_prepareLoops. intros. apply Prepare_keeps. }
  pose proof (Hk h2 c) as [Hkc _]. pose proof (Hk h2 b) as [Hkb _].
  destruct (prepareLoops s ctx payload original replace c b h2) as [[[x y]|msg] h3];
    cbn [fst snd] in *; [|done].
  injection Hy as -> ->. repeat split; try done.
  - apply Hkc. by exists ∅.
  - apply Hkb. by exists ∅.
Qed.

(** validate: the error map returned was not in the heap before the call
    and holds an error map after it; so for the document, unless nil,
    which is another location. *)
Lemma validate_result s changes base isRoot (h : heap) :
  match validate validateDependencies s changes base isRoot h with
  | (Ok (doc, errs), h') =>
      h !! errs = None /\ isErrs h' errs /\
      forall d, doc = Some d -> h !! d = None /\ d <> errs /\ isDoc h' d
  | (Panic _, _) => True
  end.
Proof.
  rewrite validate_unfold.
  destruct (alloc_alloc (ODoc ∅) (OErrs ∅)
              (fun doc errs => validateLoops s changes base isRoot doc errs) h)
    as (d & e & h2 & Heq & Hd & He & Hne & Hd2 & He2).
  rewrite Heq.
  pose proof (yields_validateLoops s changes base isRoot d e h2) as Hy.
  assert (keeps (validateLoops s changes base isRoot d e)) as Hk.
  { apply keeps_validateLoops. intros. apply validate_keeps. }
  pose proof (Hk h2 d) as [Hkd _]. pose proof (Hk h2 e) as [_ Hke].
  destruct (validateLoops s changes base isRoot d e h2) as [[[x y]|msg] h3];
    cbn [fst snd] in *; [|done].
  destruct Hy as [Hx ->]. split; [done|]. split.
  - apply Hke. by exists ∅.
  - intros d' ->. destruct Hx as [Hx|Hx]; [done|]. injection Hx as ->.
    repeat split; try done. apply Hkd. by exists ∅.
Qed.

End Frame.

(** C10: Prepare and Validate do not mutate their inputs, and their
    outputs are freshly allocated.  Run on any heap, with maps as shared
    references, each of the two leaves every object the heap held before
    the call exactly as it was (so the payload, the original, the changes
    and the base, and whatever they reach, are the same after the call as
    before), also when it panics.  The maps it returns are new objects:
    changes and base sit at two distinct locations that the heap did not
    hold before the call and that hold documents after it; the error map
    of Validate sits at a location that the heap did not hold before the
    call and holds an error map after it, and so does the document, unless
    nil, at another location. *)
Theorem Prepare_Validate_frame DeepEqual validateDependencies :
  (forall s ctx payload original replace (h : heap),
     let r := Prepare DeepEqual s ctx payload original replace h in
     (forall l o, h !! l = Some o -> r.2 !! l = Some o) /\
     match r.1 with
     | Ok (changes, base) =>
         h !! changes = None /\ h !! base = None /\ changes <> base /\
         isDoc r.2 changes /\ isDoc r.2 base
     | Panic _ => True
     end) /\
  (forall s changes base (h : heap),
     let r := Validate validateDependencies s changes base h in
     (forall l o, h !! l = Some o -> r.2 !! l = Some o) /\
     match r.1 with
     | Ok (doc, errs) =>
         h !! errs = None /\ isErrs r.2 errs /\
         (forall d, doc = Some d -> h !! d = None /\ d <> errs /\ isDoc r.2 d)
     | Panic _ => True
     end).
Proof.
  split.
  - intros s ctx payload original replace h r.
    destruct (Prepare_safe DeepEqual h s ctx payload original replace h) as [H1 _];
      [done|]. fold r in H1. split.
    + intros l o Hl. by eapply lookup_weaken.
    + pose proof (Prepare_result DeepEqual s ctx payload original replace h) as H2.
      fold r in H2. by destruct r as [[[c b]|msg] h'].
  - intros s changes base h. cbv zeta. unfold Validate.
    destruct (validate_safe validateDependencies h s changes base true h) as [H1 _];
      [done|]. split.
    + intros l o Hl. by eapply lookup_weaken.
    + pose proof (validate_result validateDependencies s changes base true h) as H2.
      by destruct (validate validateDependencies s changes base true h)
        as [[[d e]|msg] h'].
Qed.

End MemFacts.

(** The two renderings side by side on one update: the payload renames Bob.
    With maps as references the change-set and the base are the new objects
    3 and 4, and the objects 1 and 2 are as before; their contents are what
    the rendering with maps as values computes. *)
Example Prepare_by_reference :
  Mem.Prepare (deepEqual 8) memUsers Background (Some 1%positive) (Some 2%positive) false twoDocs =
    (Ok (3%positive, 4%positive),
     <[4%positive := Mem.ODoc {[ "id" := Mem.VString "1"; "name" := Mem.VString "Bob" ]}]>
       (<[3%positive := Mem.ODoc {[ "name" := Mem.VString "Rob" ]}]> twoDocs)) /\
  Prepare userSchema Background
          {[ "id" := VString "1"; "name" := VString "Rob" ]}
          (Some {[ "id" := VString "1"; "name" := VString "Bob" ]}) false =
    Ok ({[ "name" := VString "Rob" ]}, {[ "id" := VString "1"; "name" := VString "Bob" ]}).
Proof. split; vm_compute; reflexivity. Qed.

Example Validate_by_reference :
  let h := <[4%positive := Mem.ODoc {[ "id" := Mem.VString "1"; "name" := Mem.VString "Bob" ]}]>
             (<[3%positive := Mem.ODoc {[ "name" := Mem.VString "Rob" ]}]> twoDocs) in
  Mem.Validate memNoDeps memUsers (Some 3%positive) (Some 4%positive) h =
    (Ok (Some 5%positive, 6%positive),
     <[6%positive := Mem.OErrs ∅]>
       (<[5%positive := Mem.ODoc {[ "id" := Mem.VString "1"; "name" := Mem.VString "Rob" ]}]> h)) /\
  Validate noDeps userSchema {[ "name" := VString "Rob" ]}
           {[ "id" := VString "1"; "name" := VString "Bob" ]} =
    (Some {[ "id" := VString "1"; "name" := VString "Rob" ]}, ∅).
Proof. split; vm_compute; reflexivity. Qed.

(** A nil map is a map: a payload whose address is the nil map is prepared
    by the sub-schema as an empty address (the objects 4 and 5 are the
    nested change-set and base), and validated without a "not a dict"
    error (the object 6 is the nested document). *)
Example Prepare_nil_map :
  Mem.Prepare (deepEqual 8) memNested Background (Some 1%positive) None false nilAddress =
    (Ok (2%positive, 3%positive),
     {[ 1%positive := Mem.ODoc {[ "address" := Mem.VMap None ]};
        2%positive := Mem.ODoc {[ "address" := Mem.VMap (Some 4%positive) ]};
        3%positive := Mem.ODoc {[ "address" := Mem.VMap (Some 5%positive) ]};
        4%positive := Mem.ODoc ∅;
        5%positive := Mem.ODoc ∅ ]}).
Proof. vm_compute. reflexivity. Qed.

Example Validate_nil_map :
  Mem.Validate memNoDeps memNested (Some 1%positive) None nilAddress =
    (Ok (Some 2%positive, 3%positive),
     {[ 1%positive := Mem.ODoc {[ "address" := Mem.VMap None ]};
        2%positive := Mem.ODoc {[ "address" := Mem.VMap (Some 6%positive) ]};
        3%positive := Mem.OErrs ∅;
        4%positive := Mem.ODoc ∅;
        5%positive := Mem.ODoc ∅;
        6%positive := Mem.ODoc ∅;
        7%positive := Mem.OErrs ∅ ]}).
Proof. vm_compute. reflexivity. Qed.


(** * Further properties of the schema package *)

Lemma has_err_extends e e' k x : has_err e k x -> extends e e' -> has_err e' k x.
Proof.
  intros (l & Hl & Hx) He. destruct (He k l Hl) as [l' Hl'].
  exists (l ++ l'). split; [done|]. apply elem_of_app. by left.
Qed.

Lemma has_err_add e k x : has_err (addFieldError e k x) k x.
Proof.
  unfold has_err, addFieldError. eexists. rewrite lookup_insert_eq. split; [done|].
  apply elem_of_app. right. apply list_elem_of_here.
Qed.

(** The third loop runs the check of each entry of the document, and what
    the check of an entry reports stays to the end. *)
Lemma validateDoc_errs_step subs changes base (doc : Doc) errs k v :
  doc !! k = Some v ->
  exists d e, extends errs e /\
    extends (validateValue (subs !! k) changes base k v d e).2
            (validateDoc subs changes base doc errs).2.
Proof.
  intros Hk. unfold validateDoc.
  set (step := fun field v (acc : Doc * Errs) =>
         validateValue (subs !! field) changes base field v acc.1 acc.2).
  cut ((doc !! k = Some v ->
        exists d e, extends errs e /\
          extends (validateValue (subs !! k) changes base k v d e).2
                  (map_fold step (doc, errs) doc).2) /\
       extends errs (map_fold step (doc, errs) doc).2).
  { intros [H _]. by apply H. }
  apply (map_fold_weak_ind (fun (r : Doc * Errs) (m : Doc) =>
    (m !! k = Some v ->
       exists d e, extends errs e /\
         extends (validateValue (subs !! k) changes base k v d e).2 r.2) /\
    extends errs r.2)).
  - split; [by rewrite lookup_empty|apply extends_refl].
  - intros i x m [d e] Hi [IH1 IH2]. cbn [fst snd] in *. subst step. cbv beta. cbn [fst snd].
    split.
    + destruct (decide (i = k)) as [->|Hne].
      * rewrite lookup_insert_eq. intros [= ->]. exists d, e. split; [done|apply extends_refl].
      * rewrite lookup_insert_ne by done. intros Hm.
        destruct (IH1 Hm) as (d' & e' & He' & Hstep). exists d', e'. split; [done|].
        eapply extends_trans; [exact Hstep|]. apply validateValue_extends.
    + eapply extends_trans; [exact IH2|]. apply validateValue_extends.
Qed.

(** The first loop runs the checks of each declared field, and what they
    report stays to the end. *)
Lemma checkFields_errs_step sv (fields : gmap string Field) changes base k def :
  fields !! k = Some def ->
  exists e, extends (checkSub sv def changes base k (checkField def changes base k e))
                    (checkFields sv fields changes base).
Proof.
  unfold checkFields.
  set (step := fun field (def : Field) (errs : Errs) =>
         checkSub sv def changes base field (checkField def changes base field errs)).
  apply (map_fold_weak_ind (fun (r : Errs) (m : gmap string Field) =>
    m !! k = Some def ->
    exists e, extends (checkSub sv def changes base k (checkField def changes base k e)) r)).
  - by rewrite lookup_empty.
  - intros i x m r Hi IH. subst step. cbv beta. destruct (decide (i = k)) as [->|Hne].
    + rewrite lookup_insert_eq. intros [= ->]. exists r. apply extends_refl.
    + rewrite lookup_insert_ne by done. intros Hm. destruct (IH Hm) as [e He].
      exists e. eapply extends_trans; [exact He|].
      eapply extends_trans; [apply checkField_extends|apply checkSub_extends].
Qed.

(** The entry of a field without sub-schema when a document is created. *)
Lemma prepareCell_create prepare ctx (payload : Doc) k def :
  FSchema def = None -> OnInit def = None ->
  prepareCell prepare ctx payload None false k def =
    match payload !! k with
    | Some v =>
        if decide (v = VNil)
        then Ok (None, if decide (Default def = VNil) then None else Some (Default def))
        else Ok (Some v, None)
    | None => Ok (None, if decide (Default def = VNil) then None else Some (Default def))
    end.
Proof.
  intros Hs Hh. unfold prepareCell, prepareStep, prepareField, prepareSub, prepareHook.
  rewrite Hs, Hh, (index_lookup payload k).
  destruct (payload !! k) as [v|]; cbn;
    repeat case_bool_decide; repeat case_decide; simplify_eq; cbn;
    rewrite ?lookup_insert_eq, ?lookup_empty; try done.
Qed.

(** The same entry when the field has an OnInit hook. *)
Lemma prepareCell_create_hook prepare ctx (payload : Doc) k def h :
  FSchema def = None -> OnInit def = Some h ->
  prepareCell prepare ctx payload None false k def =
    match payload !! k with
    | Some v =>
        if decide (v = VNil) then Ok (None, Some (h ctx (Default def)))
        else if decide (v = Tombstone) then Ok (None, Some (h ctx VNil))
        else Ok (Some (h ctx v), None)
    | None => Ok (None, Some (h ctx (Default def)))
    end.
Proof.
  intros Hs Hh. unfold prepareCell, prepareStep, prepareField, prepareSub, prepareHook.
  rewrite Hs, Hh, (index_lookup payload k).
  destruct (payload !! k) as [v|]; cbn;
    repeat case_bool_decide; repeat case_decide; simplify_eq; cbn;
    rewrite ?index_lookup, ?lookup_insert_eq, ?lookup_empty; cbn;
    repeat case_bool_decide; simplify_eq; cbn;
    rewrite ?lookup_insert_eq, ?lookup_empty, ?lookup_delete_eq; try done; congruence.
Qed.

(** The entry of a field without sub-schema and OnUpdate hook that the
    payload of an update leaves out. *)
Lemma prepareCell_omitted prepare ctx (payload orig : Doc) replace k def :
  FSchema def = None -> OnUpdate def = None -> payload !! k = None ->
  prepareCell prepare ctx payload (Some orig) replace k def =
    match orig !! k with
    | Some o =>
        Ok (if replace
            then Some (if Hidden def && negb (ReadOnly def) then o
                       else if Required def && bool_decide (Default def <> VNil)
                            then Default def
                            else Tombstone)
            else None,
            Some o)
    | None => Ok (None, None)
    end.
Proof.
  intros Hs Hh Hp. unfold prepareCell, prepareStep, prepareField, prepareSub, prepareHook.
  rewrite Hs, Hh, (index_lookup payload k), Hp, (index_lookup orig k).
  destruct (orig !! k) as [o|], replace; cbn;
    repeat (case_match; cbn); rewrite ?lookup_insert_eq, ?lookup_empty; try done.
Qed.

(** The base entry of a field without sub-schema and OnUpdate hook is the
    entry of the original. *)
Lemma prepareCell_base prepare ctx (payload orig : Doc) replace k def c b :
  FSchema def = None -> OnUpdate def = None ->
  prepareCell prepare ctx payload (Some orig) replace k def = Ok (c, b) ->
  b = orig !! k.
Proof.
  intros Hs Hh. unfold prepareCell, prepareStep, prepareField, prepareSub, prepareHook.
  rewrite Hs, Hh, (index_lookup payload k), (index_lookup orig k).
  destruct (payload !! k) as [v|], (orig !! k) as [o|]; cbn;
    repeat (case_match; cbn); rewrite ?lookup_insert_eq, ?lookup_empty;
    intros [= <- <-]; done.
Qed.

(** The change entry of a value that the validator of its field rejects. *)
Lemma prepareCell_invalid prepare ctx (payload : Doc) original replace k def f v msg c b :
  FSchema def = None -> OnInit def = None -> OnUpdate def = None ->
  Validator def = Some f -> payload !! k = Some v -> f v = Invalid msg ->
  (original = None -> v <> VNil) ->
  prepareCell prepare ctx payload original replace k def = Ok (c, b) ->
  c = Some v.
Proof.
  intros Hs Hi Hu Hf Hp Hv Hnil.
  unfold prepareCell, prepareStep, prepareField, prepareSub, prepareHook.
  rewrite Hs, (index_lookup payload k), Hp. destruct original as [orig|].
  - rewrite Hu, Hf, Hv, (index_lookup orig k). destruct (orig !! k); cbn;
      rewrite ?lookup_insert_eq; by intros [= <- <-].
  - rewrite Hi. destruct replace; cbn; [done|].
    rewrite bool_decide_eq_false_2 by auto. cbn.
    rewrite lookup_insert_eq. by intros [= <- <-].
Qed.

Section SchemaFacts.
Variable vd : Schema -> Doc -> Doc -> string -> Errs.

(** What the third loop reports reaches the caller of Validate. *)
Lemma Validate_errs_validateDoc s changes base :
  extends (validateDoc (subsOf vd s) changes base (mergeDoc changes base)
             (mergeFieldErrors (checkFields (validate vd) (Fields s) changes base)
                (vd s changes (mergeDoc changes base) ""))).2
          (Validate vd s changes base).2.
Proof.
  unfold Validate. rewrite validate_eq. cbv zeta.
  destruct (validateDoc _ _ _ _ _) as [d e]. cbn [snd]. apply checkSize_extends.
Qed.

Lemma Validate_reports s changes base k v x :
  mergeDoc changes base !! k = Some v ->
  (forall d e, has_err (validateValue (subsOf vd s !! k) changes base k v d e).2 k x) ->
  has_err (Validate vd s changes base).2 k x.
Proof.
  intros Hk Hx.
  destruct (validateDoc_errs_step (subsOf vd s) changes base (mergeDoc changes base)
              (mergeFieldErrors (checkFields (validate vd) (Fields s) changes base)
                 (vd s changes (mergeDoc changes base) "")) k v Hk) as (d & e & _ & He).
  eapply has_err_extends; [|apply Validate_errs_validateDoc].
  eapply has_err_extends; [apply Hx|exact He].
Qed.

Lemma Validate_reports_field s changes base k def x :
  Fields s !! k = Some def ->
  (forall e, has_err (checkField def changes base k e) k x) ->
  has_err (Validate vd s changes base).2 k x.
Proof.
  intros Hk Hx.
  destruct (checkFields_errs_step (validate vd) (Fields s) changes base k def Hk) as [e He].
  eapply has_err_extends; [|apply Validate_errs_extends].
  eapply has_err_extends; [|exact He].
  eapply has_err_extends; [apply Hx|apply checkSub_extends].
Qed.

(** The entry of the document Validate returns, from the merged document. *)
Lemma Validate_doc_lookup s changes base doc k :
  (Validate vd s changes base).1 = Some doc ->
  doc !! k =
    match mergeDoc changes base !! k with
    | Some v => Some (default v (validatedCell (subsOf vd s !! k) changes base k v))
    | None => None
    end.
Proof.
  intros Hdoc. rewrite (Validate_doc vd _ _ _ _ Hdoc).
  pose proof (validateDoc_spec (subsOf vd s) changes base (mergeDoc changes base)
     (mergeFieldErrors (checkFields (validate vd) (Fields s) changes base)
        (vd s changes (mergeDoc changes base) ""))) as [H _].
  apply H.
Qed.

End SchemaFacts.

(** ** Prepare *)

(** X1: without [replace], Prepare never panics: for every schema, payload
    and original (nil or not) it returns a change-set and a base. *)
Theorem Prepare_without_replace_returns s ctx payload original :
  exists changes base, Prepare s ctx payload original false = Ok (changes, base).
Proof. apply Prepare_total. Qed.

(** X2: on a schema that declares at least one field, Prepare with
    [replace] set and a nil original panics with the message "Cannot use
    replace=true without original", whatever the payload. *)
Theorem Prepare_replace_nil_original_panics s ctx payload :
  Fields s <> ∅ -> Prepare s ctx payload None true = Panic replacePanic.
Proof. apply Prepare_replace_without_original. Qed.

Lemma Prepare_replace_nil_original_panics_witness :
  Prepare userSchema Background ∅ None true = Panic replacePanic.
Proof.
  apply (Prepare_replace_nil_original_panics userSchema Background ∅).
  vm_compute. discriminate.
Defined.

(** X3: a field of the payload that the schema does not declare goes to the
    change-set as it is, and never to the base; a field that neither the
    schema nor the payload has is in neither. *)
Theorem Prepare_undeclared_field s ctx payload original replace changes base k :
  Prepare s ctx payload original replace = Ok (changes, base) ->
  Fields s !! k = None ->
  changes !! k = payload !! k /\ base !! k = None.
Proof.
  intros HP Hk. pose proof (Prepare_spec s ctx payload original replace) as H.
  rewrite HP in H. specialize (H k). by rewrite Hk in H.
Qed.

Lemma Prepare_undeclared_field_witness :
  ({[ "extra" := VInt 1 ]} : Doc) !! "extra" = ({[ "extra" := VInt 1 ]} : Doc) !! "extra" /\
  (∅ : Doc) !! "extra" = None.
Proof.
  apply (Prepare_undeclared_field userSchema Background {[ "extra" := VInt 1 ]} None false
           {[ "extra" := VInt 1 ]} ∅ "extra").
  - vm_compute. reflexivity.
  - reflexivity.
Defined.

(** X4: creation (nil original) of a field without sub-schema and OnInit
    hook.  A value of the payload other than nil becomes a change and
    leaves the base alone; a field that the payload omits or sets to nil
    is no change, and the base gets the Default of the field when there is
    one, nothing otherwise. *)
Theorem Prepare_create_field s ctx (payload : Doc) k def :
  Fields s !! k = Some def -> FSchema def = None -> OnInit def = None ->
  exists changes base,
    Prepare s ctx payload None false = Ok (changes, base) /\
    (forall v, payload !! k = Some v -> v <> VNil ->
               changes !! k = Some v /\ base !! k = None) /\
    (payload !! k = None \/ payload !! k = Some VNil ->
       changes !! k = None /\
       base !! k = if decide (Default def = VNil) then None else Some (Default def)).
Proof.
  intros Hk Hs Hh. destruct (Prepare_total s ctx payload None) as (changes & base & HP).
  exists changes, base. split; [done|].
  pose proof (Prepare_spec s ctx payload None false) as H.
  rewrite HP in H. specialize (H k). rewrite Hk in H.
  rewrite (prepareCell_create _ ctx payload k def Hs Hh) in H. split.
  - intros v Hv Hnil. rewrite Hv, decide_False in H by done. by injection H as <- <-.
  - intros [Hp|Hp]; rewrite Hp in H; [|rewrite decide_True in H by done];
      by injection H as <- <-.
Qed.

Lemma Prepare_create_field_witness :
  exists changes base,
    Prepare profileSchema Background {[ "nick" := VString "al" ]} None false
      = Ok (changes, base) /\
    (forall v, ({[ "nick" := VString "al" ]} : Doc) !! "name" = Some v -> v <> VNil ->
               changes !! "name" = Some v /\ base !! "name" = None) /\
    (({[ "nick" := VString "al" ]} : Doc) !! "name" = None \/
     ({[ "nick" := VString "al" ]} : Doc) !! "name" = Some VNil ->
       changes !! "name" = None /\ base !! "name" = Some (VString "anonymous")).
Proof.
  apply (Prepare_create_field profileSchema Background {[ "nick" := VString "al" ]} "name"
           (mkField true false false (VString "anonymous") None None None None));
    reflexivity.
Defined.

(** X5: creation of a field without sub-schema that has an OnInit hook.
    The hook is applied to the value of the payload, which stays a change;
    for a field that the payload omits or sets to nil the hook is applied
    to the Default of the field (nil when there is none) and its result
    goes to the base. *)
Theorem Prepare_create_hook s ctx (payload : Doc) k def h :
  Fields s !! k = Some def -> FSchema def = None -> OnInit def = Some h ->
  exists changes base,
    Prepare s ctx payload None false = Ok (changes, base) /\
    (forall v, payload !! k = Some v -> v <> VNil -> v <> Tombstone ->
               changes !! k = Some (h ctx v) /\ base !! k = None) /\
    (payload !! k = None \/ payload !! k = Some VNil ->
       changes !! k = None /\ base !! k = Some (h ctx (Default def))).
Proof.
  intros Hk Hs Hh. destruct (Prepare_total s ctx payload None) as (changes & base & HP).
  exists changes, base. split; [done|].
  pose proof (Prepare_spec s ctx payload None false) as H.
  rewrite HP in H. specialize (H k). rewrite Hk in H.
  rewrite (prepareCell_create_hook _ ctx payload k def h Hs Hh) in H. split.
  - intros v Hv Hnil Htomb. rewrite Hv, !decide_False in H by done. by injection H as <- <-.
  - intros [Hp|Hp]; rewrite Hp in H; [|rewrite decide_True in H by done];
      by injection H as <- <-.
Qed.

Lemma Prepare_create_hook_witness :
  exists changes base,
    Prepare profileSchema Background ∅ None false = Ok (changes, base) /\
    (forall v, (∅ : Doc) !! "rev" = Some v -> v <> VNil -> v <> Tombstone ->
               changes !! "rev" = Some (wrap Background v) /\ base !! "rev" = None) /\
    ((∅ : Doc) !! "rev" = None \/ (∅ : Doc) !! "rev" = Some VNil ->
       changes !! "rev" = None /\ base !! "rev" = Some (VList [VInt 0])).
Proof.
  apply (Prepare_create_hook profileSchema Background ∅ "rev"
           (mkField false false false (VInt 0) (Some wrap) (Some wrap) None None) wrap);
    reflexivity.
Defined.

(** X6: an update without [replace] leaves alone the fields that the
    payload omits: for a field without sub-schema and OnUpdate hook there
    is no change, and the base holds the value of the original, if any. *)
Theorem Prepare_update_omitted s ctx (payload orig : Doc) k def :
  Fields s !! k = Some def -> FSchema def = None -> OnUpdate def = None ->
  payload !! k = None ->
  exists changes base,
    Prepare s ctx payload (Some orig) false = Ok (changes, base) /\
    changes !! k = None /\ base !! k = orig !! k.
Proof.
  intros Hk Hs Hh Hp.
  destruct (Prepare_total s ctx payload (Some orig)) as (changes & base & HP).
  exists changes, base. split; [done|].
  pose proof (Prepare_spec s ctx payload (Some orig) false) as H.
  rewrite HP in H. specialize (H k). rewrite Hk in H.
  rewrite (prepareCell_omitted _ ctx payload orig false k def Hs Hh Hp) in H.
  destruct (orig !! k); by injection H as <- <-.
Qed.

Lemma Prepare_update_omitted_witness :
  exists changes base,
    Prepare profileSchema Background {[ "name" := VString "Al" ]} (Some alice) false
      = Ok (changes, base) /\
    changes !! "nick" = None /\ base !! "nick" = alice !! "nick".
Proof.
  apply (Prepare_update_omitted profileSchema Background {[ "name" := VString "Al" ]} alice
           "nick" plainField); reflexivity.
Defined.

(** X7: in update mode, for a schema whose fields have no sub-schema and no
    OnUpdate hook, the base that Prepare returns is the original restricted
    to the declared fields, whatever the payload and [replace]. *)
Theorem Prepare_base_is_original s ctx (payload orig : Doc) replace changes base :
  (forall k def, Fields s !! k = Some def -> FSchema def = None /\ OnUpdate def = None) ->
  Prepare s ctx payload (Some orig) replace = Ok (changes, base) ->
  forall k, base !! k = match Fields s !! k with Some _ => orig !! k | None => None end.
Proof.
  intros Hflat HP k. pose proof (Prepare_spec s ctx payload (Some orig) replace) as H.
  rewrite HP in H. specialize (H k). destruct (Fields s !! k) as [def|] eqn:Hk.
  - destruct (Hflat k def Hk) as [Hs Hh].
    eapply prepareCell_base; eauto.
  - by destruct H.
Qed.

Lemma Prepare_base_is_original_witness :
  Payload bob !! "id"
  = match Fields userSchema !! "id" with Some _ => Payload bob !! "id" | None => None end.
Proof.
  apply (Prepare_base_is_original userSchema Background {[ "name" := VString "Rob" ]}
           (Payload bob) true {[ "id" := Tombstone; "name" := VString "Rob" ]} (Payload bob)).
  - intros k def Hk. by rewrite (userSchema_fields k def Hk).
  - vm_compute. reflexivity.
Defined.

(** X8: Prepare panics in one way only: when it panics, [replace] is set
    and the message is "Cannot use replace=true without original", at
    whatever depth of nesting the panic is raised. *)
Theorem Prepare_panic_message s ctx payload original replace msg :
  Prepare s ctx payload original replace = Panic msg ->
  replace = true /\ msg = replacePanic.
Proof.
  intros HP. destruct replace.
  2: { destruct (Prepare_total s ctx payload original) as (c & b & H). congruence. }
  split; [done|]. revert msg HP.
  remember (depth s) as n eqn:Hn. revert s Hn payload original.
  induction n as [n IH] using lt_wf_ind. intros s -> payload original msg HP.
  pose proof (Prepare_spec s ctx payload original true) as H. rewrite HP in H.
  destruct H as (k & def & Hk & Hcell).
  unfold prepareCell, prepareStep in Hcell. rewrite bind_Ok in Hcell. cbv beta iota in Hcell.
  destruct (prepareField def payload original true k ∅ ∅) as [[c b]|m] eqn:Hf.
  2: { rewrite !bind_Panic in Hcell. injection Hcell as <-.
       unfold prepareField in Hf. destruct (index payload k), original as [orig|].
       - by destruct (index orig k).
       - cbn in Hf. congruence. }
  rewrite bind_Ok in Hcell. cbv beta iota in Hcell.
  destruct (prepareSub (fun sub p o => Prepare sub ctx p o true) def payload original k c b)
    as [[c' b']|m] eqn:Hs.
  { rewrite !bind_Ok in Hcell. cbv beta iota in Hcell.
    destruct (prepareHook _ _ _ _ _ _). discriminate. }
  rewrite !bind_Panic in Hcell. injection Hcell as <-.
  unfold prepareSub in Hs. destruct (index payload k) as [v found].
  destruct (FSchema def) as [sub|] eqn:Hsub; [|discriminate].
  assert (forall p o m', Prepare sub ctx p o true = Panic m' -> m' = replacePanic) as Hrec.
  { intros p o m' Hm. eapply IH; [|reflexivity|exact Hm]. by eapply depth_nested. }
  destruct found.
  - destruct v; try discriminate.
    match type of Hs with context [Prepare sub ctx ?p ?o true] =>
      destruct (Prepare sub ctx p o true) as [[c1 b1]|m1] eqn:Hsubp end.
    + rewrite bind_Ok in Hs. discriminate.
    + rewrite bind_Panic in Hs. injection Hs as <-. by eapply Hrec.
  - match type of Hs with context [Prepare sub ctx ?p ?o true] =>
      destruct (Prepare sub ctx p o true) as [[c1 b1]|m1] eqn:Hsubp end.
    + rewrite bind_Ok in Hs. cbv beta iota in Hs. by destruct (_ || _).
    + rewrite bind_Panic in Hs. injection Hs as <-. by eapply Hrec.
Qed.

Lemma Prepare_panic_message_witness :
  true = true /\ replacePanic = replacePanic.
Proof.
  apply (Prepare_panic_message nestedSchema Background paris None true replacePanic).
  vm_compute. reflexivity.
Defined.

(** ** mergeFieldErrors *)

(** X9: mergeFieldErrors appends, key by key, the lists of the second map
    after the lists of the first, and leaves the other keys of the first
    map as they are. *)
Theorem mergeFieldErrors_lookup (errs mergeErrs : Errs) k :
  mergeFieldErrors errs mergeErrs !! k =
    match mergeErrs !! k with
    | Some values => Some (default [] (errs !! k) ++ values)
    | None => errs !! k
    end.
Proof.
  unfold mergeFieldErrors.
  apply (map_fold_weak_ind (fun (r : Errs) (m : Errs) =>
    r !! k = match m !! k with
             | Some values => Some (default [] (errs !! k) ++ values)
             | None => errs !! k
             end)); [by rewrite lookup_empty|].
  intros i x m r Hi IH. destruct (decide (i = k)) as [->|Hne].
  - rewrite !lookup_insert_eq, IH, Hi. done.
  - by rewrite !lookup_insert_ne.
Qed.

Section SchemaProperties.
Variable vd : Schema -> Doc -> Doc -> string -> Errs.

(** ** Validate *)

(** X10: the document that Validate returns has exactly the fields of the
    base overlaid with the changes: a field is in it when the changes hold
    a value for it that is not the tombstone, or hold nothing for it and
    the base has it. *)
Theorem Validate_doc_fields s (changes base doc : Doc) :
  (Validate vd s changes base).1 = Some doc ->
  forall k, is_Some (doc !! k) <->
            match changes !! k with
            | Some v => v <> Tombstone
            | None => is_Some (base !! k)
            end.
Proof.
  intros Hdoc k. rewrite (Validate_doc_lookup vd s changes base doc k Hdoc), mergeDoc_lookup.
  destruct (changes !! k) as [v|].
  - case_bool_decide as Hv; split; intros Hx.
    + by destruct Hx.
    + by destruct Hx.
    + done.
    + by eexists.
  - destruct (base !! k); split; intros Hx; first [done | by eexists | by destruct Hx].
Qed.

(** X11: a field of the merged document that the schema does not declare is
    reported as "invalid field", and stays in the returned document as it
    is. *)
Theorem Validate_invalid_field s (changes base : Doc) k v :
  Fields s !! k = None -> mergeDoc changes base !! k = Some v ->
  has_err (Validate vd s changes base).2 k (EStr "invalid field") /\
  (forall doc, (Validate vd s changes base).1 = Some doc -> doc !! k = Some v).
Proof.
  intros Hf Hk. split.
  - apply (Validate_reports vd s changes base k v); [done|]. intros d e.
    rewrite subsOf_lookup, Hf. cbn. apply has_err_add.
  - intros doc Hdoc. rewrite (Validate_doc_lookup vd s changes base doc k Hdoc), Hk.
    f_equal. rewrite subsOf_lookup, Hf. cbn.
    unfold validatedCell, validateValue. cbn. by rewrite lookup_empty.
Qed.

(** X12: a Required field gets the "required" error when the changes set it
    to nil or to the tombstone, and when the changes leave it out while the
    base has no value, or nil, for it. *)
Theorem Validate_required s (changes base : Doc) k def :
  Fields s !! k = Some def -> Required def = true ->
  changes !! k = Some VNil \/ changes !! k = Some Tombstone \/
  (changes !! k = None /\ (base !! k = None \/ base !! k = Some VNil)) ->
  has_err (Validate vd s changes base).2 k (EStr "required").
Proof.
  intros Hk Hreq Hc. apply (Validate_reports_field vd s changes base k def); [done|].
  intros e. unfold checkField. rewrite Hreq, !(index_lookup changes k), (index_lookup base k).
  destruct Hc as [->|[->|[-> [->| ->]]]]; cbn; apply has_err_add.
Qed.

(** X13: a ReadOnly field gets the "read-only" error whenever the changes
    have an entry for it, whatever the value. *)
Theorem Validate_readonly s (changes base : Doc) k def :
  Fields s !! k = Some def -> ReadOnly def = true -> is_Some (changes !! k) ->
  has_err (Validate vd s changes base).2 k (EStr "read-only").
Proof.
  intros Hk Hro [v Hv]. apply (Validate_reports_field vd s changes base k def); [done|].
  intros e. unfold checkField. rewrite Hro, !(index_lookup changes k), Hv. cbn [snd].
  case_all; repeat first [ apply has_err_add
    | (eapply has_err_extends; [|apply addFieldError_extends]) ].
Qed.

(** X14: for a field with a sub-schema that is in the merged document, a
    value of the changes or of the base that is not a map is reported as
    "not a dict". *)
Theorem Validate_not_a_dict s (changes base : Doc) k def sub v :
  Fields s !! k = Some def -> FSchema def = Some sub ->
  is_Some (mergeDoc changes base !! k) ->
  changes !! k = Some v \/ base !! k = Some v -> (forall m, v <> VMap m) ->
  has_err (Validate vd s changes base).2 k (EStr "not a dict").
Proof.
  intros Hk Hsub [x Hx] Hv Hmap.
  apply (Validate_reports vd s changes base k x); [done|]. intros d e.
  rewrite subsOf_lookup, Hk. cbn. rewrite Hsub. cbn.
  rewrite (index_lookup changes k), (index_lookup base k).
  assert (forall (e0 : Errs) (sc sb : Doc),
    has_err e0 k (EStr "not a dict") ->
    has_err (let '(subDoc, subErrs) := validate vd sub sc sb false in
             if 0 <? len subErrs
             then (d, addFieldError e0 k (ESub subErrs))
             else (<[k := match subDoc with Some d0 => VMap d0 | None => VMap ∅ end]> d,
                   e0)).2 k (EStr "not a dict")) as Hend.
  { intros e0 sc sb He0. destruct (validate vd sub sc sb false) as [sd se].
    destruct (0 <? len se); cbn [snd]; [|done].
    eapply has_err_extends; [exact He0|apply addFieldError_extends]. }
  destruct Hv as [Hv|Hv]; rewrite Hv.
  - destruct v; try (by destruct (Hmap m));
      (destruct (base !! k) as [[]|]; apply Hend;
       repeat first [ apply has_err_add
         | (eapply has_err_extends; [|apply addFieldError_extends]) ]).
  - destruct v; try (by destruct (Hmap m));
      (destruct (changes !! k) as [[]|]; apply Hend;
       repeat first [ apply has_err_add
         | (eapply has_err_extends; [|apply addFieldError_extends]) ]).
Qed.

(** X15: a nested document is validated by the sub-schema of its field, on
    the maps that the changes and the base hold for the field (an empty
    map where one of them has no entry), without the dependency rules.
    Errors of the nested validation are reported under the field, as one
    nested error map; without errors, the field of the returned document
    is the nested document as validated. *)
Theorem Validate_sub_document s (changes base : Doc) k def sub (c b : Doc) :
  Fields s !! k = Some def -> FSchema def = Some sub ->
  changes !! k = Some (VMap c) \/ (changes !! k = None /\ c = ∅) ->
  base !! k = Some (VMap b) \/ (base !! k = None /\ b = ∅) ->
  is_Some (mergeDoc changes base !! k) ->
  let r := validate vd sub c b false in
  (0 < len r.2 -> has_err (Validate vd s changes base).2 k (ESub r.2)) /\
  (len r.2 = 0 ->
   forall doc, (Validate vd s changes base).1 = Some doc ->
               exists d, r.1 = Some d /\ doc !! k = Some (VMap d)).
Proof.
  intros Hk Hsub Hc Hb [x Hx] r.
  assert (forall (d : Doc) (e : Errs),
    validateValue (subsOf vd s !! k) changes base k x d e =
      if 0 <? len r.2 then (d, addFieldError e k (ESub r.2))
      else (<[k := match r.1 with Some d0 => VMap d0 | None => VMap ∅ end]> d, e)) as Hval.
  { intros d e. rewrite subsOf_lookup, Hk. cbn. rewrite Hsub. cbn.
    rewrite (index_lookup changes k), (index_lookup base k). subst r.
    destruct Hc as [->|[-> ->]], Hb as [->|[-> ->]];
      by destruct (validate vd sub _ _ false). }
  split.
  - intros Hlen. apply (Validate_reports vd s changes base k x); [done|]. intros d e.
    rewrite Hval. apply Z.ltb_lt in Hlen. rewrite Hlen. apply has_err_add.
  - intros Hlen doc Hdoc.
    rewrite (Validate_doc_lookup vd s changes base doc k Hdoc), Hx.
    unfold validatedCell. rewrite Hval.
    assert ((0 <? len r.2) = false) as -> by (apply Z.ltb_ge; lia).
    cbn [fst]. rewrite lookup_insert_eq. cbn.
    destruct r as [[d|] e] eqn:Hr; cbn [fst snd] in *; [by exists d|].
    pose proof (validate_nil_errs vd sub c b false e Hr). lia.
Qed.

(** X16: the Validator of a field without sub-schema is run on the value of
    the merged document, be it a change or a value of the base that the
    changes leave alone.  A value it accepts is replaced, in the returned
    document, by the value it returns; for a value it rejects its message
    is reported under the field and the value stays. *)
Theorem Validate_validator s (changes base : Doc) k def f v :
  Fields s !! k = Some def -> FSchema def = None -> Validator def = Some f ->
  mergeDoc changes base !! k = Some v ->
  match f v with
  | Valid v' =>
      forall doc, (Validate vd s changes base).1 = Some doc -> doc !! k = Some v'
  | Invalid msg =>
      has_err (Validate vd s changes base).2 k (EStr msg) /\
      (forall doc, (Validate vd s changes base).1 = Some doc -> doc !! k = Some v)
  end.
Proof.
  intros Hk Hsub Hf Hv.
  assert (forall doc, (Validate vd s changes base).1 = Some doc ->
                      doc !! k = Some (normalise def v)) as Hdoc.
  { intros doc Hdoc.
    by rewrite (Validate_doc_leaf vd s changes base doc k def Hdoc Hk Hsub), Hv. }
  unfold normalise in Hdoc. rewrite Hf in Hdoc.
  destruct (f v) as [v'|msg] eqn:Hfv; [done|]. split; [|done].
  apply (Validate_reports vd s changes base k v); [done|]. intros d e.
  rewrite subsOf_lookup, Hk. cbn. rewrite Hsub. cbn. rewrite Hf, Hfv. apply has_err_add.
Qed.

(** ** Prepare, then Validate *)

(** X17: a value that the Validator of its field rejects is not lost by
    Prepare: for a field without sub-schema and hooks, the value goes to
    the change-set as submitted, and Validate on the result of Prepare
    reports the message of the validator under the field. *)
Theorem Prepare_Validate_invalid_value s ctx (payload : Doc) original replace
    (changes base : Doc) k def f v msg :
  Prepare s ctx payload original replace = Ok (changes, base) ->
  Fields s !! k = Some def -> FSchema def = None ->
  OnInit def = None -> OnUpdate def = None -> Validator def = Some f ->
  payload !! k = Some v -> f v = Invalid msg ->
  (original = None -> v <> VNil) -> v <> Tombstone ->
  changes !! k = Some v /\ has_err (Validate vd s changes base).2 k (EStr msg).
Proof.
  intros HP Hk Hsub Hi Hu Hf Hp Hfv Hnil Htomb.
  pose proof (Prepare_spec s ctx payload original replace) as H.
  rewrite HP in H. specialize (H k). rewrite Hk in H.
  pose proof (prepareCell_invalid _ ctx payload original replace k def f v msg _ _
                Hsub Hi Hu Hf Hp Hfv Hnil H) as Hc.
  split; [done|].
  apply (Validate_reports vd s changes base k v).
  - rewrite mergeDoc_lookup, Hc. by rewrite bool_decide_eq_false_2.
  - intros d e. rewrite subsOf_lookup, Hk. cbn. rewrite Hsub. cbn. rewrite Hf, Hfv.
    apply has_err_add.
Qed.

(** X18: a replacement ([replace] set, original given) of a document whose
    payload omits a field that the original has, for a field without
    sub-schema and OnUpdate hook.  The base keeps the original value.  A
    Hidden field that is not ReadOnly keeps its value as a change; failing
    that, a Required field with a Default is reset to the Default; failing
    that, the change is the tombstone, and the document that Validate
    returns for the result of Prepare has the field no more. *)
Theorem Prepare_replace_omitted s ctx (payload orig : Doc) k def o (changes base : Doc) :
  Prepare s ctx payload (Some orig) true = Ok (changes, base) ->
  Fields s !! k = Some def -> FSchema def = None -> OnUpdate def = None ->
  payload !! k = None -> orig !! k = Some o ->
  base !! k = Some o /\
  (Hidden def = true -> ReadOnly def = false -> changes !! k = Some o) /\
  (Hidden def = false \/ ReadOnly def = true ->
   Required def = true -> Default def <> VNil -> changes !! k = Some (Default def)) /\
  (Hidden def = false \/ ReadOnly def = true ->
   Required def = false \/ Default def = VNil ->
   changes !! k = Some Tombstone /\
   forall doc, (Validate vd s changes base).1 = Some doc -> doc !! k = None).
Proof.
  intros HP Hk Hsub Hu Hp Ho.
  pose proof (Prepare_spec s ctx payload (Some orig) true) as H.
  rewrite HP in H. specialize (H k). rewrite Hk in H.
  rewrite (prepareCell_omitted _ ctx payload orig true k def Hsub Hu Hp), Ho in H.
  injection H as Hc Hb. split; [done|]. split; [|split].
  - intros Hh Hr. by rewrite Hh, Hr in Hc.
  - intros Hh Hr Hd. rewrite <- Hc, Hr, bool_decide_eq_true_2 by done.
    destruct Hh as [Hh|Hh]; rewrite Hh; cbn; by rewrite ?andb_false_r.
  - intros Hh Hr.
    assert (changes !! k = Some Tombstone) as Ht.
    { rewrite <- Hc. f_equal.
      assert (Hidden def && negb (ReadOnly def) = false) as ->.
      { destruct Hh as [Hh|Hh]; rewrite Hh; [done|]. by rewrite andb_false_r. }
      destruct Hr as [Hr|Hr]; rewrite Hr; [done|].
      rewrite bool_decide_eq_false_2 by (intros Hx; by apply Hx). by rewrite andb_false_r. }
    split; [done|]. intros doc Hdoc.
    rewrite (Validate_doc_lookup vd s changes base doc k Hdoc), mergeDoc_lookup, Ht.
    by rewrite bool_decide_eq_true_2.
Qed.

(** X19: creation, then validation: for a field without sub-schema and
    OnInit hook that the payload omits or sets to nil, the document that
    Validate returns for the result of Prepare holds the Default of the
    field, as normalised by the Validator of the field. *)
Theorem Prepare_Validate_create_default s ctx (payload : Doc) k def :
  Fields s !! k = Some def -> FSchema def = None -> OnInit def = None ->
  payload !! k = None \/ payload !! k = Some VNil -> Default def <> VNil ->
  exists changes base,
    Prepare s ctx payload None false = Ok (changes, base) /\
    forall doc, (Validate vd s changes base).1 = Some doc ->
                doc !! k = Some (normalise def (Default def)).
Proof.
  intros Hk Hsub Hi Hp Hd.
  destruct (Prepare_total s ctx payload None) as (changes & base & HP).
  exists changes, base. split; [done|]. intros doc Hdoc.
  pose proof (Prepare_spec s ctx payload None false) as H.
  rewrite HP in H. specialize (H k). rewrite Hk in H.
  rewrite (prepareCell_create _ ctx payload k def Hsub Hi) in H.
  assert (changes !! k = None /\ base !! k = Some (Default def)) as [Hc Hb].
  { destruct Hp as [Hp|Hp]; rewrite Hp in H; [|rewrite decide_True in H by done];
      rewrite decide_False in H by done; by injection H as <- <-. }
  rewrite (Validate_doc_leaf vd s changes base doc k def Hdoc Hk Hsub).
  by rewrite mergeDoc_lookup, Hc, Hb.
Qed.

End SchemaProperties.

Lemma Validate_doc_fields_witness :
  is_Some (({[ "name" := VString "Bob" ]} : Doc) !! "id") <->
  match ({[ "id" := Tombstone ]} : Doc) !! "id" with
  | Some v => v <> Tombstone
  | None => is_Some (Payload bob !! "id")
  end.
Proof.
  apply (Validate_doc_fields noDeps userSchema {[ "id" := Tombstone ]} (Payload bob)).
  vm_compute. reflexivity.
Defined.

Lemma Validate_invalid_field_witness :
  has_err (Validate noDeps userSchema {[ "extra" := VInt 1 ]} ∅).2 "extra"
          (EStr "invalid field") /\
  (forall doc, (Validate noDeps userSchema {[ "extra" := VInt 1 ]} ∅).1 = Some doc ->
               doc !! "extra" = Some (VInt 1)).
Proof.
  apply (Validate_invalid_field noDeps userSchema {[ "extra" := VInt 1 ]} ∅ "extra" (VInt 1));
    vm_compute; reflexivity.
Defined.

Lemma Validate_required_witness :
  has_err (Validate noDeps profileSchema ∅ ∅).2 "name" (EStr "required").
Proof.
  apply (Validate_required noDeps profileSchema ∅ ∅ "name"
           (mkField true false false (VString "anonymous") None None None None)).
  - reflexivity.
  - reflexivity.
  - right. right. split; [reflexivity|]. left. reflexivity.
Defined.

Lemma Validate_readonly_witness :
  has_err (Validate noDeps lockedSchema {[ "id" := VString "1" ]} (Payload bob)).2 "id"
          (EStr "read-only").
Proof.
  apply (Validate_readonly noDeps lockedSchema {[ "id" := VString "1" ]} (Payload bob) "id"
           readOnlyField).
  - reflexivity.
  - reflexivity.
  - exists (VString "1"). reflexivity.
Defined.

Lemma Validate_not_a_dict_witness :
  has_err (Validate noDeps nestedSchema {[ "address" := VString "Paris" ]} ∅).2 "address"
          (EStr "not a dict").
Proof.
  apply (Validate_not_a_dict noDeps nestedSchema {[ "address" := VString "Paris" ]} ∅
           "address" (mkField false false false VNil None None None (Some addressSchema))
           addressSchema (VString "Paris")).
  - reflexivity.
  - reflexivity.
  - exists (VString "Paris"). vm_compute. reflexivity.
  - left. reflexivity.
  - intros m. discriminate.
Defined.

Lemma Validate_sub_document_witness :
  let r := validate noDeps addressSchema {[ "city" := VString "Paris" ]} ∅ false in
  (0 < len r.2 -> has_err (Validate noDeps nestedSchema paris ∅).2 "address" (ESub r.2)) /\
  (len r.2 = 0 ->
   forall doc, (Validate noDeps nestedSchema paris ∅).1 = Some doc ->
               exists d, r.1 = Some d /\ doc !! "address" = Some (VMap d)).
Proof.
  apply (Validate_sub_document noDeps nestedSchema paris ∅ "address"
           (mkField false false false VNil None None None (Some addressSchema))
           addressSchema {[ "city" := VString "Paris" ]} ∅).
  - reflexivity.
  - reflexivity.
  - left. reflexivity.
  - right. split; reflexivity.
  - exists (VMap {[ "city" := VString "Paris" ]}). vm_compute. reflexivity.
Defined.

Lemma Validate_validator_witness :
  has_err (Validate noDeps profileSchema {[ "age" := VString "old" ]} ∅).2 "age"
          (EStr "not an integer") /\
  (forall doc, (Validate noDeps profileSchema {[ "age" := VString "old" ]} ∅).1 = Some doc ->
               doc !! "age" = Some (VString "old")).
Proof.
  apply (Validate_validator noDeps profileSchema {[ "age" := VString "old" ]} ∅ "age"
           (mkField false false false VNil None None (Some isInt) None) isInt (VString "old"));
    vm_compute; reflexivity.
Defined.

Lemma Prepare_Validate_invalid_value_witness :
  ({[ "age" := VString "old" ]} : Doc) !! "age" = Some (VString "old") /\
  has_err (Validate noDeps profileSchema {[ "age" := VString "old" ]}
             {[ "name" := VString "anonymous"; "rev" := VList [VInt 0] ]}).2
          "age" (EStr "not an integer").
Proof.
  apply (Prepare_Validate_invalid_value noDeps profileSchema Background
           {[ "age" := VString "old" ]} None false
           {[ "age" := VString "old" ]}
           {[ "name" := VString "anonymous"; "rev" := VList [VInt 0] ]}
           "age" (mkField false false false VNil None None (Some isInt) None)
           isInt (VString "old") "not an integer").
  - vm_compute. reflexivity.
  - reflexivity.
  - reflexivity.
  - reflexivity.
  - reflexivity.
  - reflexivity.
  - reflexivity.
  - reflexivity.
  - discriminate.
  - discriminate.
Defined.

Lemma Prepare_replace_omitted_witness :
  let changes : Doc := {[ "id" := Tombstone; "name" := VString "Rob" ]} in
  Payload bob !! "id" = Some (VString "1") /\
  (Hidden plainField = true -> ReadOnly plainField = false ->
   changes !! "id" = Some (VString "1")) /\
  (Hidden plainField = false \/ ReadOnly plainField = true ->
   Required plainField = true -> Default plainField <> VNil ->
   changes !! "id" = Some (Default plainField)) /\
  (Hidden plainField = false \/ ReadOnly plainField = true ->
   Required plainField = false \/ Default plainField = VNil ->
   changes !! "id" = Some Tombstone /\
   forall doc, (Validate noDeps userSchema changes (Payload bob)).1 = Some doc ->
               doc !! "id" = None).
Proof.
  apply (Prepare_replace_omitted noDeps userSchema Background {[ "name" := VString "Rob" ]}
           (Payload bob) "id" plainField (VString "1")
           {[ "id" := Tombstone; "name" := VString "Rob" ]} (Payload bob)).
  - vm_compute. reflexivity.
  - reflexivity.
  - reflexivity.
  - reflexivity.
  - reflexivity.
  - reflexivity.
Defined.

Lemma Prepare_Validate_create_default_witness :
  exists changes base,
    Prepare profileSchema Background ∅ None false = Ok (changes, base) /\
    forall doc, (Validate noDeps profileSchema changes base).1 = Some doc ->
                doc !! "name" = Some (VString "anonymous").
Proof.
  apply (Prepare_Validate_create_default noDeps profileSchema Background ∅ "name"
           (mkField true false false (VString "anonymous") None None None None)).
  - reflexivity.
  - reflexivity.
  - reflexivity.
  - left. reflexivity.
  - discriminate.
Defined.

(** * Further properties of the request orchestrator *)

Section OrchestratorProperties.
Context {Lookup Store : Type}.
Variable validateDependencies : Schema -> Doc -> Doc -> string -> Errs.
Variable parseRFC1123 : string -> option Z.
Variable formatID : value -> string.
Variable NewItem : option Doc -> option Item * option Error.
Variable decodePayload : requestHandler -> Doc * option Error.
Variable checkIntegrityRequest : requestHandler -> option Item -> option Error.
Variable checkReferences :
  requestHandler -> Context -> option Doc -> Schema -> Store -> option Error.

Abbreviation route_ := (@route Lookup Store).
Abbreviation dispatch :=
  (handleRoute (Lookup:=Lookup) (Store:=Store) validateDependencies parseRFC1123 formatID
               NewItem decodePayload checkIntegrityRequest checkReferences).
Abbreviation POST :=
  (handleListRequestPOST (Lookup:=Lookup) (Store:=Store) validateDependencies formatID
     NewItem decodePayload checkReferences).
Abbreviation PUT :=
  (handleItemRequestPUT (Lookup:=Lookup) (Store:=Store) validateDependencies NewItem
     decodePayload checkIntegrityRequest checkReferences).
Abbreviation PATCH :=
  (handleItemRequestPATCH (Lookup:=Lookup) (Store:=Store) validateDependencies NewItem
     decodePayload checkIntegrityRequest checkReferences).
Abbreviation DELETE :=
  (handleItemRequestDELETE (Lookup:=Lookup) (Store:=Store) checkIntegrityRequest).

(** Unfolding of the monad of the handlers. *)
Ltac unfold_M :=
  unfold mbind, M_bind, mret, M_ret, ret, emit, lift, readStore, call,
    sendError, sendItem, sendList, send, setHeader, items, deref.

(** Run the monad as far as the tests allow. *)
Ltac step_M :=
  repeat first [progress unfold_M | progress cbv beta iota zeta | progress cbn [fst snd]].

(** Symbolic run of a handler: unfold the monad and split on every test. *)
Ltac run_all :=
  repeat first
    [ progress unfold_M
    | progress cbv beta iota zeta
    | progress cbn [fst snd]
    | match goal with
      | |- context [match ?x with _ => _ end] =>
          lazymatch x with
          | context [match _ with _ => _ end] => fail
          | _ => destruct x eqn:?
          end
      end ].

(** The events added are those written after [log]; check their order. *)
Ltac close_log :=
  match goal with
  | |- exists evs, ?l = ?log ++ evs /\ _ =>
      first [ exists []; split; [by rewrite app_nil_r | reflexivity]
            | eexists; split; [rewrite <- ?app_assoc; reflexivity | reflexivity] ]
  end.

(** X20: an OPTIONS request only sets response headers: whatever the route
    and the permissions, the backend is not called, nothing else is sent
    and the store is left as it is. *)
Theorem handleRoute_OPTIONS_headers_only (r : requestHandler) ctx (rt : route_) store log :
  Method (req r) = "OPTIONS" ->
  exists headers,
    dispatch r ctx rt (store, log) = (Ok tt, (store, log ++ headers)) /\
    Forall isSetHeader headers.
Proof. apply handleRoute_OPTIONS. Qed.

(** X21: the only request that changes the store after it has sent an error
    is a DELETE whose route lookup fails: for every other request, every
    error response comes before the one call to Insert, Update, Delete or
    Clear, if that call is reached at all. *)
Theorem handleRoute_errors_before_mutation (r : requestHandler) ctx (rt : route_) :
  Method (req r) <> "DELETE" \/ (lookup rt).2 = None ->
  orderly (dispatch r ctx rt).
Proof.
  intros H. destruct (decide (Method (req r) = "DELETE")) as [Hm|Hm].
  2: { by apply handleRoute_orderly. }
  destruct H as [H|Hl]; [done|].
  unfold handleRoute. rewrite Hm.
  rewrite !(bool_decide_eq_false_2 ("DELETE" = "OPTIONS")),
    !(bool_decide_eq_false_2 ("DELETE" = "HEAD")),
    !(bool_decide_eq_false_2 ("DELETE" = "GET")),
    !(bool_decide_eq_false_2 ("DELETE" = "PUT")),
    !(bool_decide_eq_false_2 ("DELETE" = "PATCH")),
    !(bool_decide_eq_false_2 ("DELETE" = "POST")),
    !(bool_decide_eq_true_2 ("DELETE" = "DELETE")) by done.
  cbn [orb]. intros store log.
  unfold handleItemRequestDELETE, handleListRequestDELETE.
  destruct (lookup rt) as [lk err]. cbn in Hl. subst err.
  run_all. all: close_log.
Qed.

(** X22: the methods that OPTIONS lists and the methods that the dispatch
    lets through agree, but for DELETE on an item.  A request (other than
    OPTIONS) on a collection whose method is not in the list that OPTIONS
    gives for the collection is refused with InvalidMethodError, without a
    call to the backend; so is a request on an item whose method is not
    DELETE and is not in the list for items, and a DELETE on an item when
    the Delete mode is not allowed. *)
Theorem handleRoute_refuses_unlisted (r : requestHandler) ctx (rt : route_) store log :
  let c := conf (resource rt) in
  let method := Method (req r) in
  method <> "OPTIONS" ->
  (if snd (index (fields rt) "id")
   then (method <> "DELETE" /\ method ∉ itemMethods c) \/
        (method = "DELETE" /\ isModeAllowed c Delete = false)
   else method ∉ listMethods c) ->
  dispatch r ctx rt (store, log) =
    (Ok tt, (store, log ++ [SendError (Some InvalidMethodError)])).
Proof.
  intros c method Hopt H. unfold handleRoute. fold c method.
  rewrite !(bool_decide_eq_false_2 (method = "OPTIONS")) by done.
  destruct (index (fields rt) "id").2.
  - destruct H as [[Hdel H]|[Hdel H]].
    + rewrite (bool_decide_eq_false_2 (method = "DELETE")) by done.
      unfold itemMethods in H.
      repeat case_bool_decide; cbn [orb]; try reflexivity;
        destruct (isModeAllowed c Read), (isModeAllowed c Create),
          (isModeAllowed c Replace), (isModeAllowed c Update);
        cbn [negb andb orb app] in *; try reflexivity;
        exfalso; apply H; rewrite ?H0, ?H1, ?H2, ?H3;
        repeat first [apply list_elem_of_here | apply list_elem_of_further].
    + rewrite Hdel, H. reflexivity.
  - unfold listMethods in H.
    repeat case_bool_decide; cbn [orb]; try reflexivity;
      destruct (isModeAllowed c List), (isModeAllowed c Create), (isModeAllowed c Clear);
      cbn [negb andb orb app] in *; try reflexivity;
      exfalso; apply H; rewrite ?H0, ?H1, ?H2, ?H3;
      repeat first [apply list_elem_of_here | apply list_elem_of_further].
Qed.

(** X23: on a HEAD of a collection ([skipBody] set) the query is not read:
    when the lookup of the route resolves, Find is called for page 1 with
    0 items per page, whatever the [page] and [limit] parameters, and its
    list, or its error, is the response. *)
Theorem handleListRequestGET_skipBody (r : requestHandler) ctx (rt : route_) lk store log :
  skipBody r = true -> lookup rt = (lk, None) ->
  handleListRequestGET r ctx rt (store, log) =
    let '((list, err), store') := Find (handler (resource rt)) lk 1 0 ctx store in
    (Ok tt, (store', log ++ [CallFind lk 1 0;
                             match err with
                             | Some _ => SendError err
                             | None => SendList list
                             end])).
Proof.
  intros Hskip Hl. unfold handleListRequestGET. rewrite Hskip, Hl. cbn [negb].
  step_M. destruct (Find _ lk 1 0 ctx store) as [[list [e|]] store'];
    step_M; by rewrite <- app_assoc.
Qed.

(** X24: a GET of a collection with a [page] parameter that is not a
    32-bit unsigned decimal number is answered 422 "Invalid `page`
    paramter"; with a valid or absent [page] and such a [limit], 422
    "Invalid `limit` paramter".  In both cases neither the lookup nor the
    backend is consulted. *)
Theorem handleListRequestGET_invalid_parameter (r : requestHandler) ctx (rt : route_)
    store log :
  let page := Get (Query (req r)) "page" in
  let limit := Get (Query (req r)) "limit" in
  skipBody r = false ->
  (page <> "" -> ParseUint32 page = None ->
   handleListRequestGET r ctx rt (store, log) =
     (Ok tt, (store, log ++ [SendError (Some (mkError 422 "Invalid `page` paramter" None))]))) /\
  (page = "" \/ is_Some (ParseUint32 page) ->
   limit <> "" -> ParseUint32 limit = None ->
   handleListRequestGET r ctx rt (store, log) =
     (Ok tt, (store, log ++ [SendError (Some (mkError 422 "Invalid `limit` paramter" None))]))).
Proof.
  intros page limit Hskip. unfold handleListRequestGET. rewrite Hskip. cbn [negb].
  fold page limit. split.
  - intros Hp Hparse. by rewrite (bool_decide_eq_true_2 _ Hp), Hparse.
  - intros Hp Hl Hparse.
    assert (exists n, (if bool_decide (page <> "") then ParseUint32 page else Some 1) = Some n)
      as [n ->].
    { destruct Hp as [->|[n Hn]].
      - exists 1. rewrite bool_decide_eq_false_2; [done|]. intros Hx. by apply Hx.
      - exists (if bool_decide (page <> "") then n else 1). rewrite Hn. by case_bool_decide. }
    by rewrite (bool_decide_eq_true_2 _ Hl), Hparse.
Qed.

(** X25: a POST whose document does not validate is answered 422 "Document
    contains error(s)" with the errors of Validate as issues; the backend
    is not called and the store is left as it is.  The document validated
    is the result of Prepare on the payload, without original, with the
    fields of the route added to the base. *)
Theorem handleListRequestPOST_invalid (r : requestHandler) ctx (rt : route_) payload
    store log :
  decodePayload r = (payload, None) ->
  exists changes base,
    Prepare (schema (resource rt)) ctx payload None false = Ok (changes, base) /\
    let errs := (Validate validateDependencies (schema (resource rt)) changes
                   (applyFields rt base)).2 in
    (0 < len errs ->
     POST r ctx rt (store, log) =
       (Ok tt, (store, log ++ [SendError (Some (mkError 422 "Document contains error(s)"
                                                        (Some errs)))]))).
Proof.
  intros Hd.
  destruct (Prepare_total (schema (resource rt)) ctx payload None) as (changes & base & HP).
  exists changes, base. split; [done|]. intros errs Herrs.
  unfold handleListRequestPOST. rewrite Hd, HP. step_M.
  subst errs. destruct (Validate _ _ _ _) as [doc errs]. cbn [snd] in *.
  apply Z.ltb_lt in Herrs. rewrite Herrs. by step_M.
Qed.

(** X26: a POST whose document validates without errors, passes the
    reference check and is made an item stores the item with one call to
    Insert; when Insert succeeds, the response carries the header
    Content-Location "/<path>/<id>" and the item with status 201. *)
Theorem handleListRequestPOST_created (r : requestHandler) ctx (rt : route_) payload
    changes base doc errs item store store' log :
  decodePayload r = (payload, None) ->
  Prepare (schema (resource rt)) ctx payload None false = Ok (changes, base) ->
  Validate validateDependencies (schema (resource rt)) changes (applyFields rt base)
    = (doc, errs) ->
  len errs = 0 ->
  checkReferences r ctx doc (schema (resource rt)) store = None ->
  NewItem doc = (Some item, None) ->
  Insert (handler (resource rt)) [Some item] ctx store = (None, store') ->
  POST r ctx rt (store, log) =
    (Ok tt, (store', log ++ [CallInsert [Some item];
                             SetHeader "Content-Location"
                               ("/" +:+ Path (req r) +:+ "/" +:+ formatID (ID item));
                             SendItem 201 (Some item)])).
Proof.
  intros Hd HP HV Herrs Hrefs Hnew Hins.
  unfold handleListRequestPOST. rewrite Hd, HP. step_M.
  rewrite HV, Herrs. cbn [Z.ltb Z.compare]. step_M. rewrite Hrefs, Hnew. step_M.
  rewrite Hins. step_M. by rewrite <- !app_assoc.
Qed.

(** X27: a PUT replaces when Find returns exactly one item and creates
    otherwise, and the mode it needs is checked after the lookup: when the
    Replace mode (one item found) or the Create mode (otherwise) is not
    allowed, the answer is 405 "Invalid method", and the backend is not
    called again. *)
Theorem handleItemRequestPUT_mode_refused (r : requestHandler) ctx (rt : route_) payload
    lk l ferr store store' log :
  decodePayload r = (payload, None) -> lookup rt = (lk, None) ->
  Find (handler (resource rt)) lk 1 1 ctx store = ((Some l, ferr), store') ->
  ferr = None \/ ferr = Some NotFoundError ->
  isModeAllowed (conf (resource rt))
                (match Items l with [_] => Replace | _ => Create end) = false ->
  PUT r ctx rt (store, log) =
    (Ok tt, (store', log ++ [CallFind lk 1 1;
                             SendError (Some (mkError 405 "Invalid method" None))])).
Proof.
  intros Hd Hl Hf Hferr Hmode. unfold handleItemRequestPUT. rewrite Hd, Hl.
  step_M. rewrite Hf. step_M.
  assert (bool_decide (ferr <> None) && bool_decide (ferr <> Some NotFoundError) = false)
    as ->.
  { destruct Hferr as [-> | ->].
    - rewrite (bool_decide_eq_false_2 (None <> None)); [done|]. intros Hx. by apply Hx.
    - rewrite (bool_decide_eq_false_2 (Some NotFoundError <> Some NotFoundError));
        [by rewrite andb_false_r|]. intros Hx. by apply Hx. }
  destruct (Items l) as [|i [|j its]]; rewrite Hmode; cbn [negb]; step_M;
    by rewrite <- !app_assoc.
Qed.

(** X28: a PATCH of an item that is found, passes the preconditions,
    validates without errors and passes the reference check is stored with
    one call to Update, with the item found as the original; the response
    is the error of Update, or the item with status 200.  The error that
    NewItem may return is not looked at: the item it returns is stored
    whatever the error. *)
Theorem handleItemRequestPATCH_stores (r : requestHandler) ctx (rt : route_) payload lk
    original rest changes base doc errs item err2 uerr store store1 store2 log :
  decodePayload r = (payload, None) -> lookup rt = (lk, None) ->
  Find (handler (resource rt)) lk 1 1 ctx store
    = ((Some (mkItemList (original :: rest)), None), store1) ->
  checkIntegrityRequest r (Some original) = None ->
  Prepare (schema (resource rt)) ctx payload (Some (Payload original)) false
    = Ok (changes, base) ->
  Validate validateDependencies (schema (resource rt)) changes (applyFields rt base)
    = (doc, errs) ->
  len errs = 0 ->
  checkReferences r ctx doc (schema (resource rt)) store1 = None ->
  NewItem doc = (item, err2) ->
  Update_ (handler (resource rt)) item (Some original) ctx store1 = (uerr, store2) ->
  PATCH r ctx rt (store, log) =
    (Ok tt, (store2, log ++ [CallFind lk 1 1; CallUpdate item (Some original);
                             match uerr with
                             | Some _ => SendError uerr
                             | None => SendItem 200 item
                             end])).
Proof.
  intros Hd Hl Hf Hint HP HV Herrs Hrefs Hnew Hupd.
  unfold handleItemRequestPATCH. rewrite Hd, Hl. step_M. rewrite Hf. step_M.
  cbn [Items]. step_M. rewrite Hint, HP. step_M. rewrite HV, Herrs. cbn [Z.ltb Z.compare]. step_M.
  rewrite Hrefs, Hnew. step_M. rewrite Hupd. step_M.
  destruct uerr; step_M; by rewrite <- !app_assoc.
Qed.

(** X29: a PUT or a PATCH on a route whose lookup fails never changes what
    is stored: the error of the lookup is sent, and Insert, Update, Delete
    and Clear are not called, whatever the payload and the backend. *)
Theorem PUT_PATCH_lookup_error_no_mutation (r : requestHandler) ctx (rt : route_) lk e
    payload store log :
  decodePayload r = (payload, None) -> lookup rt = (lk, Some e) ->
  (exists evs,
     (PUT r ctx rt (store, log)).2.2 = log ++ SendError (Some e) :: evs /\
     forallb (fun ev => negb (isMutation ev)) evs = true) /\
  (exists evs,
     (PATCH r ctx rt (store, log)).2.2 = log ++ SendError (Some e) :: evs /\
     forallb (fun ev => negb (isMutation ev)) evs = true).
Proof.
  intros Hd Hl. split.
  - unfold handleItemRequestPUT. rewrite Hd, Hl. run_all;
      (eexists; split; [rewrite <- ?app_assoc; reflexivity | reflexivity]).
  - unfold handleItemRequestPATCH. rewrite Hd, Hl. run_all;
      (eexists; split; [rewrite <- ?app_assoc; reflexivity | reflexivity]).
Qed.

(** X30: a DELETE of an item whose lookup resolves, when Find succeeds: no
    item found is answered NotFound; a failed precondition is answered
    with its error; in both cases Delete is not called.  Otherwise the
    first item found is deleted with one call to Delete, and the response
    is the error of Delete, or 204 with an empty body. *)
Theorem handleItemRequestDELETE_response (r : requestHandler) ctx (rt : route_) lk l
    store store1 log :
  lookup rt = (lk, None) ->
  Find (handler (resource rt)) lk 1 1 ctx store = ((Some l, None), store1) ->
  exists evs store2,
    DELETE r ctx rt (store, log) = (Ok tt, (store2, log ++ CallFind lk 1 1 :: evs)) /\
    match Items l with
    | [] => evs = [SendError (Some NotFoundError)] /\ store2 = store1
    | original :: _ =>
        match checkIntegrityRequest r (Some original) with
        | Some e => evs = [SendError (Some e)] /\ store2 = store1
        | None =>
            let '(derr, stored) := Delete_ (handler (resource rt)) (Some original) ctx store1 in
            store2 = stored /\
            evs = [CallDelete (Some original);
                   match derr with
                   | Some _ => SendError derr
                   | None => Send 204 (Some ∅)
                   end]
        end
    end.
Proof.
  intros Hl Hf. unfold handleItemRequestDELETE. rewrite Hl. step_M. rewrite Hf. step_M.
  destruct (Items l) as [|original its]; step_M.
  { eexists _, _. rewrite <- !app_assoc. split; [reflexivity|]. done. }
  destruct (checkIntegrityRequest r (Some original)) as [e|]; step_M.
  { eexists _, _. rewrite <- !app_assoc. split; [reflexivity|]. done. }
  destruct (Delete_ _ (Some original) ctx store1) as [[e|] stored]; step_M;
    eexists _, _; rewrite <- !app_assoc; (split; [reflexivity|]); done.
Qed.

End OrchestratorProperties.

(** *** The further properties on concrete requests *)

Lemma handleRoute_OPTIONS_headers_only_witness :
  exists headers,
    serve ∅ (request "OPTIONS" ∅ ∅) Background (item1 [Read; Update]) ([bob], [])
      = (Ok tt, ([bob], [] ++ headers)) /\
    Forall isSetHeader headers.
Proof.
  apply (handleRoute_OPTIONS_headers_only noDeps exampleDate showID newItem (body ∅)
           noPrecondition noReferences (request "OPTIONS" ∅ ∅) Background
           (item1 [Read; Update]) [bob] []).
  reflexivity.
Defined.

Lemma handleRoute_errors_before_mutation_witness :
  orderly (serve cy (request "POST" ∅ ∅) Background (collection [List; Create] 0)).
Proof.
  apply (handleRoute_errors_before_mutation noDeps exampleDate showID newItem (body cy)
           noPrecondition noReferences (request "POST" ∅ ∅) Background
           (collection [List; Create] 0)).
  left. discriminate.
Defined.

Lemma handleRoute_refuses_unlisted_witness :
  serve cy (request "POST" ∅ ∅) Background (collection [List] 0) ([bob], [])
    = (Ok tt, ([bob], [] ++ [SendError (Some InvalidMethodError)])).
Proof.
  apply (handleRoute_refuses_unlisted noDeps exampleDate showID newItem (body cy)
           noPrecondition noReferences (request "POST" ∅ ∅) Background
           (collection [List] 0) [bob] []).
  - discriminate.
  - vm_compute. intros H.
    repeat (apply elem_of_cons in H as [H|H]; [discriminate H|]).
    by apply elem_of_nil in H.
Defined.

Lemma handleListRequestGET_skipBody_witness :
  handleListRequestGET (mkRequestHandler (mkRequest "HEAD" "users" {[ "page" := "7" ]} ∅) true)
                       Background (collection [List] 0) ([bob; carl], [])
    = (Ok tt, ([bob; carl], [] ++ [CallFind None 1 0; SendList (Some (mkItemList [bob; carl]))])).
Proof.
  apply (handleListRequestGET_skipBody
           (mkRequestHandler (mkRequest "HEAD" "users" {[ "page" := "7" ]} ∅) true)
           Background (collection [List] 0) None [bob; carl] []); reflexivity.
Defined.

Lemma handleListRequestGET_invalid_parameter_witness :
  let r := request "GET" {[ "page" := "two" ]} ∅ in
  let page := Get (Query (req r)) "page" in
  let limit := Get (Query (req r)) "limit" in
  (page <> "" -> ParseUint32 page = None ->
   handleListRequestGET r Background (collection [List] 0) ([bob], [])
     = (Ok tt, ([bob], [] ++ [SendError (Some (mkError 422 "Invalid `page` paramter" None))]))) /\
  (page = "" \/ is_Some (ParseUint32 page) ->
   limit <> "" -> ParseUint32 limit = None ->
   handleListRequestGET r Background (collection [List] 0) ([bob], [])
     = (Ok tt, ([bob], [] ++ [SendError (Some (mkError 422 "Invalid `limit` paramter" None))]))).
Proof.
  apply (handleListRequestGET_invalid_parameter (request "GET" {[ "page" := "two" ]} ∅)
           Background (collection [List] 0) [bob] []).
  reflexivity.
Defined.

Lemma handleListRequestPOST_invalid_witness :
  exists changes base,
    Prepare userSchema Background {[ "extra" := VInt 1 ]} None false = Ok (changes, base) /\
    let errs := (Validate noDeps userSchema changes
                   (applyFields (collection [Create] 0) base)).2 in
    (0 < len errs ->
     handleListRequestPOST noDeps showID newItem (body {[ "extra" := VInt 1 ]}) noReferences
       (request "POST" ∅ ∅) Background (collection [Create] 0) ([bob], [])
       = (Ok tt, ([bob], [] ++ [SendError (Some (mkError 422 "Document contains error(s)"
                                                          (Some errs)))]))).
Proof.
  apply (handleListRequestPOST_invalid noDeps showID newItem (body {[ "extra" := VInt 1 ]})
           noReferences (request "POST" ∅ ∅) Background (collection [Create] 0)
           {[ "extra" := VInt 1 ]} [bob] []).
  reflexivity.
Defined.

Lemma handleListRequestPOST_created_witness :
  handleListRequestPOST noDeps showID newItem (body cy) noReferences
    (request "POST" ∅ ∅) Background (collection [Create] 0) ([bob], [])
    = (Ok tt, ([bob; mkItem (VString "3") "E0" 0 cy],
               [] ++ [CallInsert [Some (mkItem (VString "3") "E0" 0 cy)];
                      SetHeader "Content-Location" "/users/3";
                      SendItem 201 (Some (mkItem (VString "3") "E0" 0 cy))])).
Proof.
  apply (handleListRequestPOST_created noDeps showID newItem (body cy) noReferences
           (request "POST" ∅ ∅) Background (collection [Create] 0)
           cy cy ∅ (Some cy) ∅ (mkItem (VString "3") "E0" 0 cy) [bob]
           [bob; mkItem (VString "3") "E0" 0 cy] []).
  - reflexivity.
  - vm_compute. reflexivity.
  - vm_compute. reflexivity.
  - reflexivity.
  - reflexivity.
  - vm_compute. reflexivity.
  - reflexivity.
Defined.

Lemma handleItemRequestPUT_mode_refused_witness :
  handleItemRequestPUT noDeps newItem (body rob) noPrecondition noReferences
    (request "PUT" ∅ ∅) Background (item1 [Create]) ([bob; carl], [])
    = (Ok tt, ([bob; carl],
               [] ++ [CallFind (Some (VString "1")) 1 1;
                      SendError (Some (mkError 405 "Invalid method" None))])).
Proof.
  apply (handleItemRequestPUT_mode_refused noDeps newItem (body rob) noPrecondition
           noReferences (request "PUT" ∅ ∅) Background (item1 [Create]) rob
           (Some (VString "1")) (mkItemList [bob]) None [bob; carl] [bob; carl] []).
  - reflexivity.
  - reflexivity.
  - vm_compute. reflexivity.
  - left. reflexivity.
  - vm_compute. reflexivity.
Defined.

Lemma handleItemRequestPATCH_stores_witness :
  handleItemRequestPATCH noDeps newItem (body {[ "name" := VString "Rob" ]}) noPrecondition
    noReferences (request "PATCH" ∅ ∅) Background (item1 [Update]) ([bob; carl], [])
    = (Ok tt, ([mkItem (VString "1") "E0" 0 rob; carl],
               [] ++ [CallFind (Some (VString "1")) 1 1;
                      CallUpdate (Some (mkItem (VString "1") "E0" 0 rob)) (Some bob);
                      SendItem 200 (Some (mkItem (VString "1") "E0" 0 rob))])).
Proof.
  apply (handleItemRequestPATCH_stores noDeps newItem (body {[ "name" := VString "Rob" ]})
           noPrecondition noReferences (request "PATCH" ∅ ∅) Background (item1 [Update])
           {[ "name" := VString "Rob" ]} (Some (VString "1")) bob []
           {[ "name" := VString "Rob" ]} (Payload bob) (Some rob) ∅
           (Some (mkItem (VString "1") "E0" 0 rob)) None None
           [bob; carl] [bob; carl] [mkItem (VString "1") "E0" 0 rob; carl] []).
  - reflexivity.
  - reflexivity.
  - vm_compute. reflexivity.
  - reflexivity.
  - vm_compute. reflexivity.
  - vm_compute. reflexivity.
  - reflexivity.
  - reflexivity.
  - vm_compute. reflexivity.
  - vm_compute. reflexivity.
Defined.

Lemma PUT_PATCH_lookup_error_no_mutation_witness :
  (exists evs,
     (handleItemRequestPUT noDeps newItem (body rob) noPrecondition noReferences
        (request "PUT" ∅ ∅) Background brokenItem ([bob; carl], [])).2.2
       = [] ++ SendError (Some badLookup) :: evs /\
     forallb (fun ev => negb (isMutation ev)) evs = true) /\
  (exists evs,
     (handleItemRequestPATCH noDeps newItem (body rob) noPrecondition noReferences
        (request "PUT" ∅ ∅) Background brokenItem ([bob; carl], [])).2.2
       = [] ++ SendError (Some badLookup) :: evs /\
     forallb (fun ev => negb (isMutation ev)) evs = true).
Proof.
  apply (PUT_PATCH_lookup_error_no_mutation noDeps newItem (body rob) noPrecondition
           noReferences (request "PUT" ∅ ∅) Background brokenItem None badLookup rob
           [bob; carl] []); reflexivity.
Defined.

Lemma handleItemRequestDELETE_response_witness :
  exists evs store2,
    handleItemRequestDELETE noPrecondition (request "DELETE" ∅ ∅) Background
      (item1 [Delete]) ([bob; carl], [])
      = (Ok tt, (store2, [] ++ CallFind (Some (VString "1")) 1 1 :: evs)) /\
    store2 = [carl] /\ evs = [CallDelete (Some bob); Send 204 (Some ∅)].
Proof.
  apply (handleItemRequestDELETE_response noPrecondition (request "DELETE" ∅ ∅) Background
           (item1 [Delete]) (Some (VString "1")) (mkItemList [bob]) [bob; carl] [bob; carl] []).
  - reflexivity.
  - vm_compute. reflexivity.
Defined.

